(** * BACnet-Stack command line tools: Who-Is (apps/whois/main.c) and
      I-Am (apps/iam/main.c)

    A shallow embedding of the two [main.c] files: the address table of
    the Who-Is tool, the command line loops, the destination address
    construction and the send/receive loops, followed by the properties
    proved about them.

    Conventions.
    - C integers are [Z]; where a conversion or an increment can wrap,
      the wrap-around is written out ([wrap_unsigned], [wrap_signed]).
    - The singly linked [Address_Table] (first/last pointers) is the list
      of its nodes from [first] to [last]; [calloc] is assumed to succeed.
    - What the files only call but do not define (the BACnet stack and
      libc) is the interface [Externals]; the theorems hold for every
      instance of it, and the examples are evaluated on [Demo.externals].
    - The clock is not modelled: each pass of a loop is given the answers
      of [datalink_receive] and [mstimer_expired] as a [poll], and a run
      is followed along a finite list of them.
    - [stderr] is not modelled (debug and abort/reject messages). *)

From Stdlib Require Import ZArith List Ascii String Bool Lia Permutation.
Import ListNotations.
Open Scope string_scope.
Open Scope list_scope.
Open Scope Z_scope.

(** ** Machine integers *)

Definition wrap_unsigned (bits : Z) (v : Z) : Z := v mod 2 ^ bits.

Definition wrap_signed (bits : Z) (v : Z) : Z :=
  (v + 2 ^ (bits - 1)) mod 2 ^ bits - 2 ^ (bits - 1).

(** [unsigned] is 32 bits wide on the ILP32 and LP64 targets of the stack. *)
Definition UINT_BITS : Z := 32.
Definition uint (v : Z) : Z := wrap_unsigned UINT_BITS v.

(** ** Addresses (declared in bacnet/bacdef.h) *)

Module Mac.
(** [BACNET_MAC_ADDRESS]: [uint8_t len; uint8_t adr[MAX_MAC_LEN]]. *)
Record t : Type := mk { len : Z; adr : list Z }.
End Mac.
Definition BACNET_MAC_ADDRESS : Type := Mac.t.

(** [BACNET_ADDRESS]: [mac_len]/[mac] is the datalink address (of the router
    when [net] is remote), [net] the network number and [len]/[adr] the
    address on that network. *)
Module Addr.
Record t : Type := mk {
  mac_len : Z;
  mac : list Z;
  net : Z;
  len : Z;
  adr : list Z
}.
End Addr.
Definition BACNET_ADDRESS : Type := Addr.t.

(** The help texts of both tools give the two constants: network numbers
    run "from 0 to 65535 where 0 is the local connection and 65535 is
    network broadcast", device instances "0 to 4194303". *)
Definition BACNET_BROADCAST_NETWORK : Z := 65535.
Definition BACNET_MAX_INSTANCE : Z := 4194303.

(** ** What the two files call but do not define *)

Class Externals : Type := {
  (** bacdef.h: size of the [mac] and [adr] arrays. *)
  MAX_MAC_LEN : nat;
  (** libc [strtol(s, NULL, 0)]. *)
  strtol : string -> Z;
  (** bacaddr.c: [None] when the function returns false (the target is
      then left as it was), [Some m] when it returns true having stored
      [m]. *)
  bacnet_address_mac_from_ascii : string -> option BACNET_MAC_ADDRESS;
  (** bacaddr.c: comparison of two addresses. *)
  bacnet_address_same : BACNET_ADDRESS -> BACNET_ADDRESS -> bool;
  (** datalink.h: fills in the broadcast address of the datalink. *)
  datalink_get_broadcast_address : BACNET_ADDRESS -> BACNET_ADDRESS;
  (** Defaults of the I-Am tool (bacdef.h, config.h). *)
  BACNET_VENDOR_ID : Z;
  MAX_APDU : Z
}.

(** ** The address table of the Who-Is tool *)

Definition BAC_ADDRESS_MULT : Z := 1.

(** [struct address_entry]; [next] is the tail of the list. *)
Record address_entry : Type := mkEntry {
  Flags : Z;
  device_id : Z;
  max_apdu : Z;
  address : BACNET_ADDRESS
}.

Definition address_table : Type := list address_entry.

Definition set_Flags (f : Z) (e : address_entry) : address_entry :=
  {| Flags := f; device_id := device_id e; max_apdu := max_apdu e;
     address := address e |}.

(** The duplicate test of [print_address_cache]: [Flags & BAC_ADDRESS_MULT]. *)
Definition is_duplicate (e : address_entry) : bool :=
  negb (Z.land (Flags e) BAC_ADDRESS_MULT =? 0).

(** What identifies a node apart from its flag. *)
Definition entry_key (e : address_entry) : Z * Z * BACNET_ADDRESS :=
  (device_id e, max_apdu e, address e).

Fixpoint update_last {A : Type} (f : A -> A) (l : list A) : list A :=
  match l with
  | [] => []
  | [x] => [f x]
  | x :: l' => x :: update_last f l'
  end.

Inductive scan_result : Type :=
| Found                 (* the [return] inside the loop *)
| Scanned (flags : Z).  (* the loop ran to the end of the list *)

Section AddressTable.
Context {ext : Externals}.

Definition zero_address : BACNET_ADDRESS :=
  {| Addr.mac_len := 0; Addr.mac := repeat 0 MAX_MAC_LEN; Addr.net := 0;
     Addr.len := 0; Addr.adr := repeat 0 MAX_MAC_LEN |}.

Definition calloc_entry : address_entry :=
  {| Flags := 0; device_id := 0; max_apdu := 0; address := zero_address |}.

(** [alloc_address_entry]: a zeroed node is linked after [last] (or
    becomes [first] and [last]); the pointer it returns is the new
    [last]. *)
Definition alloc_address_entry (tbl : address_table) : address_table :=
  tbl ++ [calloc_entry].

(** The [while (pMatch)] loop of [address_table_add], started at
    [pMatch] with the current [flags]; returns the nodes from [pMatch]
    on as the loop leaves them. *)
Fixpoint scan_table (id : Z) (src : BACNET_ADDRESS)
         (pMatch : list address_entry) (flags : Z)
  : list address_entry * scan_result :=
  match pMatch with
  | [] => ([], Scanned flags)
  | p :: next =>
      if device_id p =? id then
        if bacnet_address_same (address p) src then (p :: next, Found)
        else
          let flags := Z.lor flags BAC_ADDRESS_MULT in
          let p := set_Flags (Z.lor (Flags p) BAC_ADDRESS_MULT) p in
          let (next', r) := scan_table id src next flags in
          (p :: next', r)
      else
        let (next', r) := scan_table id src next flags in
        (p :: next', r)
  end.

Definition address_table_add (id apdu : Z) (src : BACNET_ADDRESS)
           (tbl : address_table) : address_table :=
  match scan_table id src tbl 0 with
  | (tbl, Found) => tbl
  | (tbl, Scanned flags) =>
      update_last
        (fun _ => {| Flags := flags; device_id := id; max_apdu := apdu;
                     address := src |})
        (alloc_address_entry tbl)
  end.

(** A run of calls, oldest first, each [(device_id, max_apdu, src)]. *)
Definition record_all (calls : list (Z * Z * BACNET_ADDRESS))
           (tbl : address_table) : address_table :=
  fold_left (fun t c => address_table_add (fst (fst c)) (snd (fst c)) (snd c) t)
            calls tbl.

End AddressTable.

(** ** Standard output *)

(** What [print_macaddr] writes: the octets in hexadecimal, separated by
    colons, then three blanks for each position up to [MAX_MAC_LEN]. *)
Record mac_text : Type := mkMacText { octets : list Z; blanks : nat }.

(** One constructor per piece of text the tools print. *)
Inductive out_line : Type :=
| UsageText                       (* print_usage *)
| HelpText                        (* print_help *)
| VersionText                     (* the --version banner *)
| TableHeader
| TableRule
| TableRow (dup : bool) (dev : Z) (mac_hex : mac_text) (snet : Z)
           (sadr_hex : mac_text) (apdu : Z)
| TotalDevices (n : Z)            (* "; Total Devices: %u" *)
| DuplicateDevices (n : Z)        (* "; * Duplicate Devices: %u" *)
| AbortText (abort_reason : Z)    (* "BACnet Abort: %s", I-Am tool only *)
| RejectText (reject_reason : Z). (* "BACnet Reject: %s", I-Am tool only *)

Section Printing.
Context {ext : Externals}.

Definition print_macaddr (addr : list Z) (len : Z) : mac_text :=
  {| octets := firstn (Z.to_nat len) addr;
     blanks := MAX_MAC_LEN - Z.to_nat len |}.

Definition print_row (addr : address_entry) : out_line :=
  let address := address addr in       (* bacnet_address_copy *)
  TableRow (is_duplicate addr) (device_id addr)
           (print_macaddr (Addr.mac address) (Addr.mac_len address))
           (Addr.net address)
           (if Addr.net address =? 0
            then print_macaddr [0] 1   (* local_sadr *)
            else print_macaddr (Addr.adr address) (Addr.len address))
           (max_apdu addr).

(** The [while (addr)] loop of [print_address_cache] with its two
    [unsigned] counters. *)
Fixpoint print_rows (addr : list address_entry) (total_addresses dup_addresses : Z)
  : list out_line * Z * Z :=
  match addr with
  | [] => ([], total_addresses, dup_addresses)
  | a :: next =>
      let total_addresses := uint (total_addresses + 1) in
      let dup_addresses :=
        if is_duplicate a then uint (dup_addresses + 1) else dup_addresses in
      let '(rows, t, d) := print_rows next total_addresses dup_addresses in
      (print_row a :: rows, t, d)
  end.

Definition print_address_cache (tbl : address_table) : list out_line :=
  let '(rows, total_addresses, dup_addresses) := print_rows tbl 0 0 in
  [TableHeader; TableRule] ++ rows ++ [TotalDevices total_addresses]
    ++ (if dup_addresses =? 0 then [] else [DuplicateDevices dup_addresses]).

End Printing.

(** ** Destination address (both tools) *)

Definition memcpy (dst src : list Z) (n : Z) : list Z :=
  firstn (Z.to_nat n) src ++ skipn (Z.to_nat n) dst.

(** [(dnet >= 0) && (dnet <= BACNET_BROADCAST_NETWORK)] *)
Definition dnet_valid (dnet : Z) : bool :=
  (0 <=? dnet) && (dnet <=? BACNET_BROADCAST_NETWORK).

(** The [if (adr.len && mac.len) ... else if (mac.len) ... else ...]
    statement, the same text in whois/main.c (503-544) and iam/main.c
    (284-328).  A valid [dnet] fits [uint16_t], so the assignment to
    [dest.net] does not truncate. *)
Definition directed_address (mac adr : Mac.t) (dnet : Z) (dest : Addr.t) : Addr.t :=
  if negb (Mac.len adr =? 0) && negb (Mac.len mac =? 0) then
    {| Addr.mac := memcpy (Addr.mac dest) (Mac.adr mac) (Mac.len mac);
       Addr.mac_len := Mac.len mac;
       Addr.adr := memcpy (Addr.adr dest) (Mac.adr adr) (Mac.len adr);
       Addr.len := Mac.len adr;
       Addr.net := if dnet_valid dnet then dnet else BACNET_BROADCAST_NETWORK |}
  else if negb (Mac.len mac =? 0) then
    {| Addr.mac := memcpy (Addr.mac dest) (Mac.adr mac) (Mac.len mac);
       Addr.mac_len := Mac.len mac;
       Addr.len := 0;
       Addr.net := if dnet_valid dnet then dnet else 0;
       Addr.adr := Addr.adr dest |}
  else
    {| Addr.net := if dnet_valid dnet then dnet else BACNET_BROADCAST_NETWORK;
       Addr.mac_len := 0;
       Addr.len := 0;
       Addr.mac := Addr.mac dest;
       Addr.adr := Addr.adr dest |}.

(** ** Network activity and the environment of the loops *)

Inductive io_event : Type :=
| DlenvInit                                         (* dlenv_init *)
| SendWhoIs (dest : Addr.t) (low high : Z)          (* Send_WhoIs_To_Network *)
| SendIAm (dest : Addr.t) (device_id max_apdu segmentation vendor_id : Z)
                                                    (* Send_I_Am_To_Network *)
| Receive (timeout : Z)                             (* datalink_receive returned *)
| MaintenanceTimer (seconds : Z).                   (* datalink_maintenance_timer *)

(** The handler [npdu_handler] ends up calling for a received PDU.  For an
    I-Am, [len] is what [iam_decode_service_request] returns and the two
    numbers are what it decodes. *)
Inductive pdu : Type :=
| IAm (len : Z) (device_id max_apdu : Z)
| Abort (abort_reason : Z)
| Reject (reject_reason : Z)
| Other.

(** What the environment answers during one pass of a loop: the result of
    [datalink_receive] and, for the Who-Is tool, of the two
    [mstimer_expired] calls. *)
Record poll : Type := mkPoll {
  pdu_len : Z;
  src : Addr.t;
  frame : pdu;
  datalink_timer_expired : bool;
  apdu_timer_expired : bool
}.

Inductive parsed (L : Type) : Type :=
| Exit (code : Z) (out : list out_line)   (* [return] inside the option loop *)
| Parsed (l : L).
Arguments Exit {L} code out.
Arguments Parsed {L} l.

(** How far a loop gets on a finite list of answers. *)
Inductive outcome (S : Type) : Type :=
| Exited (st : S)     (* the loop was left *)
| Blocked (st : S).   (* the next [datalink_receive] has not returned yet *)
Arguments Exited {S} st.
Arguments Blocked {S} st.

Inductive run (S : Type) : Type :=
| Finished (exit_code : Z) (stdout : list out_line) (log : list io_event)
| Waiting (st : S).
Arguments Finished {S} exit_code stdout log.
Arguments Waiting {S} st.

Definition is_send (e : io_event) : bool :=
  match e with
  | SendWhoIs _ _ _ | SendIAm _ _ _ _ _ => true
  | _ => false
  end.

Definition sends (log : list io_event) : list io_event := filter is_send log.

(** ** apps/whois/main.c *)

Module Whois.

(** The locals of [main] that the option loop sets, with the two file
    scope targets. *)
Record locals : Type := mkLocals {
  global_broadcast : bool;
  mac : Mac.t;
  adr : Mac.t;
  dnet : Z;
  repeat_forever : bool;
  retry_count : Z;
  timeout_milliseconds : Z;
  delay_milliseconds : Z;
  target_args : Z;
  Target_Object_Instance_Min : Z;
  Target_Object_Instance_Max : Z
}.

(** [Address_Table], [Error_Detected], the running [retry_count] and the
    network activity so far. *)
Record state : Type := mkState {
  Address_Table : address_table;
  Error_Detected : bool;
  retries : Z;
  log : list io_event
}.

Section WithExternals.
Context {ext : Externals}.

Definition initial : locals :=
  {| global_broadcast := true;
     mac := Mac.mk 0 (repeat 0 MAX_MAC_LEN);
     adr := Mac.mk 0 (repeat 0 MAX_MAC_LEN);
     dnet := -1;
     repeat_forever := false;
     retry_count := 0;
     timeout_milliseconds := 0;
     delay_milliseconds := 100;
     target_args := 0;
     Target_Object_Instance_Min := -1;
     Target_Object_Instance_Max := -1 |}.

Definition set_mac (m : Mac.t) (l : locals) : locals :=
  mkLocals false m (adr l) (dnet l) (repeat_forever l) (retry_count l)
           (timeout_milliseconds l) (delay_milliseconds l) (target_args l)
           (Target_Object_Instance_Min l) (Target_Object_Instance_Max l).

Definition set_adr (m : Mac.t) (l : locals) : locals :=
  mkLocals false (mac l) m (dnet l) (repeat_forever l) (retry_count l)
           (timeout_milliseconds l) (delay_milliseconds l) (target_args l)
           (Target_Object_Instance_Min l) (Target_Object_Instance_Max l).

Definition set_dnet (n : Z) (l : locals) : locals :=
  mkLocals (if dnet_valid n then false else global_broadcast l)
           (mac l) (adr l) n (repeat_forever l) (retry_count l)
           (timeout_milliseconds l) (delay_milliseconds l) (target_args l)
           (Target_Object_Instance_Min l) (Target_Object_Instance_Max l).

Definition set_repeat_forever (l : locals) : locals :=
  mkLocals (global_broadcast l) (mac l) (adr l) (dnet l) true (retry_count l)
           (timeout_milliseconds l) (delay_milliseconds l) (target_args l)
           (Target_Object_Instance_Min l) (Target_Object_Instance_Max l).

Definition set_retry_count (n : Z) (l : locals) : locals :=
  mkLocals (global_broadcast l) (mac l) (adr l) (dnet l) (repeat_forever l)
           (if n <? 0 then 0 else n)
           (timeout_milliseconds l) (delay_milliseconds l) (target_args l)
           (Target_Object_Instance_Min l) (Target_Object_Instance_Max l).

Definition set_timeout_milliseconds (n : Z) (l : locals) : locals :=
  mkLocals (global_broadcast l) (mac l) (adr l) (dnet l) (repeat_forever l)
           (retry_count l) (uint n) (delay_milliseconds l) (target_args l)
           (Target_Object_Instance_Min l) (Target_Object_Instance_Max l).

Definition set_delay_milliseconds (n : Z) (l : locals) : locals :=
  mkLocals (global_broadcast l) (mac l) (adr l) (dnet l) (repeat_forever l)
           (retry_count l) (timeout_milliseconds l) (uint n) (target_args l)
           (Target_Object_Instance_Min l) (Target_Object_Instance_Max l).

(** The [else] branch of the option loop for [target_args] 0 and 1;
    the targets are [int32_t]. *)
Definition set_target (n : Z) (l : locals) : locals :=
  if target_args l =? 0 then
    mkLocals (global_broadcast l) (mac l) (adr l) (dnet l) (repeat_forever l)
             (retry_count l) (timeout_milliseconds l) (delay_milliseconds l)
             (uint (target_args l + 1))
             (wrap_signed 32 n) (wrap_signed 32 n)
  else
    mkLocals (global_broadcast l) (mac l) (adr l) (dnet l) (repeat_forever l)
             (retry_count l) (timeout_milliseconds l) (delay_milliseconds l)
             (uint (target_args l + 1))
             (Target_Object_Instance_Min l) (wrap_signed 32 n).

(** The [for (argi = 1; argi < argc; argi++)] loop; [argv] is what is
    left from [argv[argi]] on.  An option that takes a value consumes
    the next argument ([++argi < argc]) whatever it is. *)
Fixpoint parse_args (argv : list string) (l : locals) : parsed locals :=
  match argv with
  | [] => Parsed l
  | arg :: rest =>
      if (arg =? "--help")%string then Exit 0 [UsageText; HelpText]
      else if (arg =? "--version")%string then Exit 0 [VersionText]
      else if (arg =? "--mac")%string then
        match rest with
        | [] => Parsed l
        | v :: rest' =>
            parse_args rest'
              match bacnet_address_mac_from_ascii v with
              | Some m => set_mac m l
              | None => l
              end
        end
      else if (arg =? "--dnet")%string then
        match rest with
        | [] => Parsed l
        | v :: rest' => parse_args rest' (set_dnet (strtol v) l)
        end
      else if (arg =? "--dadr")%string then
        match rest with
        | [] => Parsed l
        | v :: rest' =>
            parse_args rest'
              match bacnet_address_mac_from_ascii v with
              | Some m => set_adr m l
              | None => l
              end
        end
      else if (arg =? "--repeat")%string then
        parse_args rest (set_repeat_forever l)
      else if (arg =? "--retry")%string then
        match rest with
        | [] => Parsed l
        | v :: rest' => parse_args rest' (set_retry_count (strtol v) l)
        end
      else if (arg =? "--timeout")%string then
        match rest with
        | [] => Parsed l
        | v :: rest' => parse_args rest' (set_timeout_milliseconds (strtol v) l)
        end
      else if (arg =? "--delay")%string then
        match rest with
        | [] => Parsed l
        | v :: rest' => parse_args rest' (set_delay_milliseconds (strtol v) l)
        end
      else if (target_args l =? 0) || (target_args l =? 1) then
        parse_args rest (set_target (strtol arg) l)
      else Exit 1 [UsageText]
  end.

(** Lines 497-545: [dest] starts as [{ 0 }]. *)
Definition destination (l : locals) : Addr.t :=
  if global_broadcast l then datalink_get_broadcast_address zero_address
  else directed_address (mac l) (adr l) (dnet l) zero_address.

Definition Send_WhoIs_To_Network (l : locals) (st : state) : state :=
  {| Address_Table := Address_Table st;
     Error_Detected := Error_Detected st;
     retries := retries st;
     log := log st ++ [SendWhoIs (destination l)
                                 (Target_Object_Instance_Min l)
                                 (Target_Object_Instance_Max l)] |}.

(** [if (retry_count > 0) retry_count--;] *)
Definition decrement_retry (st : state) : state :=
  {| Address_Table := Address_Table st;
     Error_Detected := Error_Detected st;
     retries := if retries st >? 0 then retries st - 1 else retries st;
     log := log st |}.

Definition logged (e : io_event) (st : state) : state :=
  {| Address_Table := Address_Table st;
     Error_Detected := Error_Detected st;
     retries := retries st;
     log := log st ++ [e] |}.

Definition my_i_am_handler (len device_id max_apdu : Z) (src : Addr.t)
           (st : state) : state :=
  if len =? -1 then st
  else
    {| Address_Table :=
         address_table_add device_id max_apdu src (Address_Table st);
       Error_Detected := Error_Detected st;
       retries := retries st;
       log := log st |}.

(** [MyAbortHandler] and [MyRejectHandler] have the same effect. *)
Definition MyAbortHandler (st : state) : state :=
  {| Address_Table := Address_Table st;
     Error_Detected := true;
     retries := retries st;
     log := log st |}.

Definition MyRejectHandler (st : state) : state :=
  {| Address_Table := Address_Table st;
     Error_Detected := true;
     retries := retries st;
     log := log st |}.

(** [npdu_handler] with the handlers of [init_service_handlers]; the
    handlers of the stack (read property, unrecognized service) leave
    the state of this file alone. *)
Definition npdu_handler (src : Addr.t) (f : pdu) (st : state) : state :=
  match f with
  | IAm len device_id max_apdu => my_i_am_handler len device_id max_apdu src st
  | Abort _ => MyAbortHandler st
  | Reject _ => MyRejectHandler st
  | Other => st
  end.

(** One pass through the body of [for (;;)]; [true] is [break].  The
    maintenance timer was set to 1000 ms, so its interval divided by
    1000 is 1. *)
Definition iteration (l : locals) (p : poll) (st : state) : state * bool :=
  let st := logged (Receive (delay_milliseconds l)) st in
  let st := if pdu_len p =? 0 then st else npdu_handler (src p) (frame p) st in
  if Error_Detected st then (st, true)
  else
    let st := if datalink_timer_expired p
              then logged (MaintenanceTimer 1) st else st in
    if apdu_timer_expired p then
      if repeat_forever l || negb (retries st =? 0) then
        (decrement_retry (Send_WhoIs_To_Network l st), false)
      else (st, true)
    else (st, false).

Fixpoint loop (l : locals) (polls : list poll) (st : state) : outcome state :=
  match polls with
  | [] => Blocked st
  | p :: polls' =>
      let (st', brk) := iteration l p st in
      if brk then Exited st' else loop l polls' st'
  end.

(** Lines 561-579: set-up, the first request and the decrement after it. *)
Definition start (l : locals) : state :=
  decrement_retry
    (Send_WhoIs_To_Network l
       {| Address_Table := []; Error_Detected := false;
          retries := retry_count l; log := [DlenvInit] |}).

Definition session (l : locals) (polls : list poll) : outcome state :=
  loop l polls (start l).

(** [main], for the arguments after [argv[0]] and the answers of the
    environment.  The two range checks compare [int32_t] values with
    [BACNET_MAX_INSTANCE]; their messages go to [stderr]. *)
Definition main (argv : list string) (polls : list poll) : run state :=
  match parse_args argv initial with
  | Exit code out => Finished code out []
  | Parsed l =>
      if Target_Object_Instance_Min l >? BACNET_MAX_INSTANCE then
        Finished 1 [] []
      else if Target_Object_Instance_Max l >? BACNET_MAX_INSTANCE then
        Finished 1 [] []
      else
        match session l polls with
        | Exited st =>
            Finished 0 (print_address_cache (Address_Table st)) (log st)
        | Blocked st => Waiting st
        end
  end.

End WithExternals.
End Whois.

(** ** apps/iam/main.c *)

Module Iam.

(** "BACnet Segmentation 0=both, 1=transmit, 2=receive, 3=none" *)
Definition SEGMENTATION_NONE : Z := 3.

Record locals : Type := mkLocals {
  specific_address : bool;
  mac : Mac.t;
  adr : Mac.t;
  dnet : Z;
  repeat_forever : bool;
  retry_count : Z;
  timeout : Z;
  target_args : Z;
  Target_Device_ID : Z;
  Target_Vendor_ID : Z;
  Target_Max_APDU : Z;
  Target_Segmentation : Z
}.

(** [Error_Detected], the running [retry_count], what the two handlers
    printed and the network activity so far. *)
Record state : Type := mkState {
  Error_Detected : bool;
  retries : Z;
  printed : list out_line;
  log : list io_event
}.

Section WithExternals.
Context {ext : Externals}.

Definition initial : locals :=
  {| specific_address := false;
     mac := Mac.mk 0 (repeat 0 MAX_MAC_LEN);
     adr := Mac.mk 0 (repeat 0 MAX_MAC_LEN);
     dnet := -1;
     repeat_forever := false;
     retry_count := 0;
     timeout := 100;
     target_args := 0;
     Target_Device_ID := BACNET_MAX_INSTANCE;
     Target_Vendor_ID := BACNET_VENDOR_ID;
     Target_Max_APDU := MAX_APDU;
     Target_Segmentation := SEGMENTATION_NONE |}.

Definition set_mac (m : Mac.t) (l : locals) : locals :=
  mkLocals true m (adr l) (dnet l) (repeat_forever l) (retry_count l)
           (timeout l) (target_args l) (Target_Device_ID l)
           (Target_Vendor_ID l) (Target_Max_APDU l) (Target_Segmentation l).

Definition set_adr (m : Mac.t) (l : locals) : locals :=
  mkLocals true (mac l) m (dnet l) (repeat_forever l) (retry_count l)
           (timeout l) (target_args l) (Target_Device_ID l)
           (Target_Vendor_ID l) (Target_Max_APDU l) (Target_Segmentation l).

Definition set_dnet (n : Z) (l : locals) : locals :=
  mkLocals (if dnet_valid n then true else specific_address l)
           (mac l) (adr l) n (repeat_forever l) (retry_count l)
           (timeout l) (target_args l) (Target_Device_ID l)
           (Target_Vendor_ID l) (Target_Max_APDU l) (Target_Segmentation l).

Definition set_repeat_forever (l : locals) : locals :=
  mkLocals (specific_address l) (mac l) (adr l) (dnet l) true (retry_count l)
           (timeout l) (target_args l) (Target_Device_ID l)
           (Target_Vendor_ID l) (Target_Max_APDU l) (Target_Segmentation l).

Definition set_retry_count (n : Z) (l : locals) : locals :=
  mkLocals (specific_address l) (mac l) (adr l) (dnet l) (repeat_forever l)
           (if n <? 0 then 0 else n)
           (timeout l) (target_args l) (Target_Device_ID l)
           (Target_Vendor_ID l) (Target_Max_APDU l) (Target_Segmentation l).

Definition set_timeout (n : Z) (l : locals) : locals :=
  mkLocals (specific_address l) (mac l) (adr l) (dnet l) (repeat_forever l)
           (retry_count l) (uint n) (target_args l) (Target_Device_ID l)
           (Target_Vendor_ID l) (Target_Max_APDU l) (Target_Segmentation l).

(** The [else] branch of the option loop for [target_args] 0 to 3:
    [uint32_t] device, [uint16_t] vendor, [unsigned] APDU size, [int]
    segmentation. *)
Definition set_target (n : Z) (l : locals) : locals :=
  let count := uint (target_args l + 1) in
  if target_args l =? 0 then
    mkLocals (specific_address l) (mac l) (adr l) (dnet l) (repeat_forever l)
             (retry_count l) (timeout l) count (wrap_unsigned 32 n)
             (Target_Vendor_ID l) (Target_Max_APDU l) (Target_Segmentation l)
  else if target_args l =? 1 then
    mkLocals (specific_address l) (mac l) (adr l) (dnet l) (repeat_forever l)
             (retry_count l) (timeout l) count (Target_Device_ID l)
             (wrap_unsigned 16 n) (Target_Max_APDU l) (Target_Segmentation l)
  else if target_args l =? 2 then
    mkLocals (specific_address l) (mac l) (adr l) (dnet l) (repeat_forever l)
             (retry_count l) (timeout l) count (Target_Device_ID l)
             (Target_Vendor_ID l) (uint n) (Target_Segmentation l)
  else
    mkLocals (specific_address l) (mac l) (adr l) (dnet l) (repeat_forever l)
             (retry_count l) (timeout l) count (Target_Device_ID l)
             (Target_Vendor_ID l) (Target_Max_APDU l) (wrap_signed UINT_BITS n).

(** The option loop; [--timeout] is not an option of this tool. *)
Fixpoint parse_args (argv : list string) (l : locals) : parsed locals :=
  match argv with
  | [] => Parsed l
  | arg :: rest =>
      if (arg =? "--help")%string then Exit 0 [UsageText; HelpText]
      else if (arg =? "--version")%string then Exit 0 [VersionText]
      else if (arg =? "--mac")%string then
        match rest with
        | [] => Parsed l
        | v :: rest' =>
            parse_args rest'
              match bacnet_address_mac_from_ascii v with
              | Some m => set_mac m l
              | None => l
              end
        end
      else if (arg =? "--dnet")%string then
        match rest with
        | [] => Parsed l
        | v :: rest' => parse_args rest' (set_dnet (strtol v) l)
        end
      else if (arg =? "--dadr")%string then
        match rest with
        | [] => Parsed l
        | v :: rest' =>
            parse_args rest'
              match bacnet_address_mac_from_ascii v with
              | Some m => set_adr m l
              | None => l
              end
        end
      else if (arg =? "--repeat")%string then
        parse_args rest (set_repeat_forever l)
      else if (arg =? "--retry")%string then
        match rest with
        | [] => Parsed l
        | v :: rest' => parse_args rest' (set_retry_count (strtol v) l)
        end
      else if (arg =? "--delay")%string then
        match rest with
        | [] => Parsed l
        | v :: rest' => parse_args rest' (set_timeout (strtol v) l)
        end
      else if (target_args l =? 0) || (target_args l =? 1)
              || (target_args l =? 2) || (target_args l =? 3) then
        parse_args rest (set_target (strtol arg) l)
      else Exit 1 [UsageText]
  end.

(** Lines 282-329: without a specific address [dest] stays [{ 0 }]. *)
Definition destination (l : locals) : Addr.t :=
  if specific_address l
  then directed_address (mac l) (adr l) (dnet l) zero_address
  else zero_address.

Definition Send_I_Am_To_Network (l : locals) (st : state) : state :=
  {| Error_Detected := Error_Detected st;
     retries := retries st;
     printed := printed st;
     log := log st ++ [SendIAm (destination l) (Target_Device_ID l)
                               (Target_Max_APDU l) (Target_Segmentation l)
                               (Target_Vendor_ID l)] |}.

Definition decrement_retry (st : state) : state :=
  {| Error_Detected := Error_Detected st;
     retries := if retries st >? 0 then retries st - 1 else retries st;
     printed := printed st;
     log := log st |}.

Definition logged (e : io_event) (st : state) : state :=
  {| Error_Detected := Error_Detected st;
     retries := retries st;
     printed := printed st;
     log := log st ++ [e] |}.

Definition MyAbortHandler (abort_reason : Z) (st : state) : state :=
  {| Error_Detected := true;
     retries := retries st;
     printed := printed st ++ [AbortText abort_reason];
     log := log st |}.

Definition MyRejectHandler (reject_reason : Z) (st : state) : state :=
  {| Error_Detected := true;
     retries := retries st;
     printed := printed st ++ [RejectText reject_reason];
     log := log st |}.

(** [npdu_handler] with the handlers of [Init_Service_Handlers]; the
    Who-Is, I-Am and read property handlers belong to the stack and
    leave the state of this file alone. *)
Definition npdu_handler (f : pdu) (st : state) : state :=
  match f with
  | Abort r => MyAbortHandler r st
  | Reject r => MyRejectHandler r st
  | IAm _ _ _ | Other => st
  end.

(** [repeat_forever || retry_count] *)
Definition again (l : locals) (st : state) : bool :=
  repeat_forever l || negb (retries st =? 0).

(** The top of the body of the [do ... while] loop: the send and the
    test of the [if].  When the [if] is not taken nothing changes
    before the [while] tests the same condition, which ends the
    loop; otherwise [receive] is the rest of the body. *)
Definition enter (l : locals) (receive : state -> outcome state)
           (st : state) : outcome state :=
  let st := Send_I_Am_To_Network l st in
  if again l st then receive st else Exited st.

(** The loop from the call of [datalink_receive] on. *)
Fixpoint wait (l : locals) (polls : list poll) (st : state) : outcome state :=
  match polls with
  | [] => Blocked st
  | p :: polls' =>
      let st := logged (Receive (timeout l)) st in
      let st := if pdu_len p =? 0 then st else npdu_handler (frame p) st in
      if Error_Detected st then Exited st
      else
        let st := decrement_retry st in
        if again l st then enter l (wait l polls') st else Exited st
  end.

Definition loop (l : locals) (polls : list poll) (st : state) : outcome state :=
  enter l (wait l polls) st.

Definition start (l : locals) : state :=
  {| Error_Detected := false; retries := retry_count l; printed := [];
     log := [DlenvInit] |}.

Definition session (l : locals) (polls : list poll) : outcome state :=
  loop l polls (start l).

Definition main (argv : list string) (polls : list poll) : run state :=
  match parse_args argv initial with
  | Exit code out => Finished code out []
  | Parsed l =>
      match session l polls with
      | Exited st => Finished 0 (printed st) (log st)
      | Blocked st => Waiting st
      end
  end.

End WithExternals.
End Iam.

(** ** The addressing options as a set of hints *)

Inductive hint_option : Type := OptMac | OptDnet | OptDadr.

Definition hint_option_eqb (a b : hint_option) : bool :=
  match a, b with
  | OptMac, OptMac | OptDnet, OptDnet | OptDadr, OptDadr => true
  | _, _ => false
  end.

Definition option_name (k : hint_option) : string :=
  match k with
  | OptMac => "--mac"
  | OptDnet => "--dnet"
  | OptDadr => "--dadr"
  end.

(** Hints as given on the command line: each option with its value, in
    the order in which they are written. *)
Definition hints : Type := list (hint_option * string).

Definition hint_args (hs : hints) : list string :=
  flat_map (fun h => [option_name (fst h); snd h]) hs.

Fixpoint supplied (k : hint_option) (hs : hints) : option string :=
  match hs with
  | [] => None
  | (k', v) :: hs' => if hint_option_eqb k k' then Some v else supplied k hs'
  end.

(** The octets a [BACNET_MAC_ADDRESS] holds. *)
Definition mac_octets (m : Mac.t) : list Z :=
  firstn (Z.to_nat (Mac.len m)) (Mac.adr m).

(** ** Section 4.1 of the specification, in its own words *)

Module Spec.

Record AddressHint : Type := mkHint {
  localMac : option (list Z);
  remoteNet : option Z;
  remoteMac : option (list Z)
}.

(** [macLen] and [sadrLen] are the lengths of the two lists. *)
Record DestinationDescriptor : Type := mkDescriptor {
  networkNumber : Z;
  mac : list Z;
  sadr : list Z
}.

Inductive resolution : Type :=
| RemoteEntry      (* case 1: remoteMac and localMac present *)
| LocalMacOnly     (* case 2: only localMac present *)
| RemoteNetOnly    (* case 3: neither present, remoteNet present and valid *)
| DefaultTarget.   (* case 4: nothing present *)

(** "If remoteNetHint is present but outside [0, 0xFFFF], it is treated
    as absent." *)
Definition usableNet (h : AddressHint) : option Z :=
  match remoteNet h with
  | Some n => if (0 <=? n) && (n <=? 65535) then Some n else None
  | None => None
  end.

(** The four cases, first match wins; [None] when no case names the
    combination.  [default] is the caller-selected default of case 4. *)
Definition resolve (default : DestinationDescriptor) (h : AddressHint)
  : option (resolution * DestinationDescriptor) :=
  match localMac h, remoteMac h, usableNet h with
  | Some m, Some r, n =>
      Some (RemoteEntry,
            mkDescriptor (match n with Some n => n | None => 65535 end) m r)
  | Some m, None, n =>
      Some (LocalMacOnly,
            mkDescriptor (match n with Some n => n | None => 0 end) m [])
  | None, None, Some n => Some (RemoteNetOnly, mkDescriptor n [] [])
  | None, None, None => Some (DefaultTarget, default)
  | None, Some _, _ => None
  end.

(** "network number = broadcast, mac/sub-address unset" *)
Definition fullBroadcast : DestinationDescriptor := mkDescriptor 65535 [] [].

End Spec.

(** The descriptor a [BACNET_ADDRESS] stands for. *)
Definition descriptor (a : Addr.t) : Spec.DestinationDescriptor :=
  {| Spec.networkNumber := Addr.net a;
     Spec.mac := firstn (Z.to_nat (Addr.mac_len a)) (Addr.mac a);
     Spec.sadr := firstn (Z.to_nat (Addr.len a)) (Addr.adr a) |}.

Section Hints.
Context {ext : Externals}.

(** A hint is present when its option is supplied with a value the
    parser accepts ([strtol] accepts everything). *)
Definition parsed_mac (k : hint_option) (hs : hints) : option Mac.t :=
  match supplied k hs with
  | Some v => bacnet_address_mac_from_ascii v
  | None => None
  end.

Definition hint_of (hs : hints) : Spec.AddressHint :=
  {| Spec.localMac := option_map mac_octets (parsed_mac OptMac hs);
     Spec.remoteNet := option_map strtol (supplied OptDnet hs);
     Spec.remoteMac := option_map mac_octets (parsed_mac OptDadr hs) |}.

(** What the parser stored for the hints fits the arrays and is not
    empty. *)
Definition stored_ok (m : option Mac.t) : Prop :=
  match m with
  | Some m => 0 < Mac.len m /\ (Z.to_nat (Mac.len m) <= List.length (Mac.adr m))%nat
  | None => True
  end.

(** The destination [Whois.main] computes, when it gets that far. *)
Definition whois_destination (argv : list string) : option Addr.t :=
  match Whois.parse_args argv Whois.initial with
  | Parsed l => Some (Whois.destination l)
  | Exit _ _ => None
  end.

Definition iam_destination (argv : list string) : option Addr.t :=
  match Iam.parse_args argv Iam.initial with
  | Parsed l => Some (Iam.destination l)
  | Exit _ _ => None
  end.

End Hints.

(** ** Command lines as the usage texts describe them *)

Inductive token : Type :=
| Info          (* --help, --version *)
| Opt           (* an option, with its value if it takes one *)
| Positional.

Definition token_eqb (a b : token) : bool :=
  match a, b with
  | Info, Info | Opt, Opt | Positional, Positional => true
  | _, _ => false
  end.

Definition mem (s : string) (l : list string) : bool :=
  existsb (String.eqb s) l.

Fixpoint tokens (valued flags : list string) (argv : list string) : list token :=
  match argv with
  | [] => []
  | arg :: rest =>
      if mem arg ["--help"; "--version"] then Info :: tokens valued flags rest
      else if mem arg valued then
        Opt :: match rest with
               | [] => []
               | _ :: rest' => tokens valued flags rest'
               end
      else if mem arg flags then Opt :: tokens valued flags rest
      else Positional :: tokens valued flags rest
  end.

Definition whois_tokens : list string -> list token :=
  tokens ["--mac"; "--dnet"; "--dadr"; "--retry"; "--timeout"; "--delay"]
         ["--repeat"].

Definition iam_tokens : list string -> list token :=
  tokens ["--mac"; "--dnet"; "--dadr"; "--retry"; "--delay"] ["--repeat"].

Definition positionals (toks : list token) : nat :=
  List.length (filter (token_eqb Positional) toks).

(** The tokens left of the first positional argument beyond [limit], if
    there is one. *)
Fixpoint before_excess (limit : nat) (toks : list token) : option (list token) :=
  match toks with
  | [] => None
  | Positional :: rest =>
      match limit with
      | O => Some []
      | S n => option_map (cons Positional) (before_excess n rest)
      end
  | t :: rest => option_map (cons t) (before_excess limit rest)
  end.

(** ** A concrete platform, on which the examples are evaluated *)

Module Demo.

Definition digit_of (c : Ascii.ascii) : option Z :=
  let n := Z.of_nat (Ascii.nat_of_ascii c) in
  if (48 <=? n) && (n <=? 57) then Some (n - 48)
  else if (65 <=? n) && (n <=? 70) then Some (n - 55)
  else if (97 <=? n) && (n <=? 102) then Some (n - 87)
  else None.

Fixpoint decimal (s : string) (acc : Z) : Z :=
  match s with
  | EmptyString => acc
  | String c s' =>
      match digit_of c with
      | Some d => if d <? 10 then decimal s' (10 * acc + d) else acc
      | None => acc
      end
  end.

(** libc [strtol] on decimal numerals with an optional minus sign; like the
    libc function it stops at the first character that is not a digit. *)
Definition strtol_decimal (s : string) : Z :=
  match s with
  | String "-"%char s' => - decimal s' 0
  | _ => decimal s 0
  end.

(** Octets written as one or two hexadecimal digits and separated by
    colons; [cur] is the octet being read and [n] the number of its
    digits. *)
Fixpoint hex_octets (s : string) (cur : Z) (n : nat) : option (list Z) :=
  match s with
  | EmptyString => match n with O => None | _ => Some [cur] end
  | String c s' =>
      if Ascii.eqb c ":"%char then
        match n with
        | O => None
        | _ => option_map (cons cur) (hex_octets s' 0 0)
        end
      else
        match digit_of c, n with
        | Some d, O => hex_octets s' d 1
        | Some d, S O => hex_octets s' (16 * cur + d) 2
        | _, _ => None
        end
  end.

Definition mac_size : nat := 7.

(** Modelled from the spec: [bacnet_address_mac_from_ascii] of bacaddr.c,
    which is not among the sources.  Section 3 has the MAC hints as
    bytes; of the input forms that the help texts list, this takes the
    hexadecimal ones, "00 to FF (hex)" and "00:21:70:7e:32:bb", and
    stores up to six octets. *)
Definition mac_from_hex (s : string) : option Mac.t :=
  match hex_octets s 0 0 with
  | Some l =>
      if (List.length l <=? 6)%nat
      then Some (Mac.mk (Z.of_nat (List.length l))
                        (l ++ repeat 0 (mac_size - List.length l)))
      else None
  | None => None
  end.

Fixpoint octets_eqb (a b : list Z) : bool :=
  match a, b with
  | [], [] => true
  | x :: a', y :: b' => (x =? y) && octets_eqb a' b'
  | _, _ => false
  end.

(** Modelled from the spec: [bacnet_address_same] of bacaddr.c, which is
    not among the sources; section 3 has "equality of sourceAddress
    (network number + mac + sub-address)". *)
Definition address_same (a b : Addr.t) : bool :=
  (Addr.net a =? Addr.net b)
  && octets_eqb (Spec.mac (descriptor a)) (Spec.mac (descriptor b))
  && octets_eqb (Spec.sadr (descriptor a)) (Spec.sadr (descriptor b)).

(** Modelled from the spec: [datalink_get_broadcast_address] of the
    datalink layer, which is not among the sources; section 8 has
    "network number = broadcast, mac/sub-address unset". *)
Definition broadcast_address (dest : Addr.t) : Addr.t :=
  {| Addr.mac_len := 0; Addr.mac := Addr.mac dest;
     Addr.net := BACNET_BROADCAST_NETWORK;
     Addr.len := 0; Addr.adr := Addr.adr dest |}.

Definition externals : Externals :=
  {| MAX_MAC_LEN := mac_size;
     strtol := strtol_decimal;
     bacnet_address_mac_from_ascii := mac_from_hex;
     bacnet_address_same := address_same;
     datalink_get_broadcast_address := broadcast_address;
     BACNET_VENDOR_ID := 260;
     MAX_APDU := 480 |}.

(** Two stations and a silent pass of the Who-Is loop. *)
Definition station_A : Addr.t :=
  {| Addr.mac_len := 1; Addr.mac := [10; 0; 0; 0; 0; 0; 0]; Addr.net := 0;
     Addr.len := 0; Addr.adr := [0; 0; 0; 0; 0; 0; 0] |}.

Definition station_B : Addr.t :=
  {| Addr.mac_len := 1; Addr.mac := [11; 0; 0; 0; 0; 0; 0]; Addr.net := 0;
     Addr.len := 0; Addr.adr := [0; 0; 0; 0; 0; 0; 0] |}.

Definition silence (apdu_expired : bool) : poll :=
  {| pdu_len := 0; src := station_A; frame := Other;
     datalink_timer_expired := false; apdu_timer_expired := apdu_expired |}.

Definition heard (f : pdu) : poll :=
  {| pdu_len := 20; src := station_B; frame := f;
     datalink_timer_expired := false; apdu_timer_expired := false |}.

End Demo.

(** ** Vocabulary of the statements *)

(** What the scan of [address_table_add] does to a node it passes. *)
Definition mark (id : Z) (e : address_entry) : address_entry :=
  if device_id e =? id
  then set_Flags (Z.lor (Flags e) BAC_ADDRESS_MULT) e
  else e.

Definition has_id (id : Z) (tbl : address_table) : bool :=
  existsb (fun e => device_id e =? id) tbl.

Definition count_id (id : Z) (tbl : address_table) : nat :=
  List.length (filter (fun e => device_id e =? id) tbl).

(** In a table built by [address_table_add] a node is flagged exactly
    when its device identifier occurs more than once. *)
Definition flags_exact (tbl : address_table) : Prop :=
  Forall (fun e => Flags e = if (2 <=? count_id (device_id e) tbl)%nat
                             then BAC_ADDRESS_MULT else 0) tbl.

(** Whether some node holds the pair. *)
Definition holds_pair {ext : Externals} (id : Z) (src : Addr.t)
           (tbl : address_table) : bool :=
  existsb (fun e => (device_id e =? id)
                    && bacnet_address_same (address e) src) tbl.

(** A pass in which [datalink_receive] returns 0. *)
Definition quiet (p : poll) : Prop := pdu_len p = 0.

(** A pass in which an abort or a reject is dispatched. *)
Definition signals_error (p : poll) : bool :=
  negb (pdu_len p =? 0)
  && match frame p with
     | Abort _ | Reject _ => true
     | _ => false
     end.

Definition apdu_expiries (polls : list poll) : nat :=
  List.length (filter apdu_timer_expired polls).

(** The request and the announcement a run sends, always the same. *)
Definition whois_request {ext : Externals} (l : Whois.locals) : io_event :=
  SendWhoIs (Whois.destination l) (Whois.Target_Object_Instance_Min l)
            (Whois.Target_Object_Instance_Max l).

Definition iam_announcement {ext : Externals} (l : Iam.locals) : io_event :=
  SendIAm (Iam.destination l) (Iam.Target_Device_ID l) (Iam.Target_Max_APDU l)
          (Iam.Target_Segmentation l) (Iam.Target_Vendor_ID l).

(** The four locals that the addressing options set, in both tools
    ([specific] is [specific_address], the negation of
    [global_broadcast]). *)
Record addressing : Type := mkAddressing {
  specific : bool;
  hop : Mac.t;        (* mac *)
  remote : Mac.t;     (* adr *)
  network : Z         (* dnet *)
}.

Definition whois_addressing (l : Whois.locals) : addressing :=
  mkAddressing (negb (Whois.global_broadcast l)) (Whois.mac l) (Whois.adr l)
               (Whois.dnet l).

Definition iam_addressing (l : Iam.locals) : addressing :=
  mkAddressing (Iam.specific_address l) (Iam.mac l) (Iam.adr l) (Iam.dnet l).

Definition is_some {A : Type} (o : option A) : bool :=
  match o with
  | Some _ => true
  | None => false
  end.

(** The hints with the option [k] left out. *)
Definition without (k : hint_option) (hs : hints) : hints :=
  filter (fun h => negb (hint_option_eqb k (fst h))) hs.

(** What a list of distinct hints makes of the four locals. *)
Definition resolved_addressing {ext : Externals} (a : addressing) (hs : hints)
  : addressing :=
  {| specific :=
       specific a
       || is_some (parsed_mac OptMac hs)
       || match supplied OptDnet hs with
          | Some v => dnet_valid (strtol v)
          | None => false
          end
       || is_some (parsed_mac OptDadr hs);
     hop := match parsed_mac OptMac hs with Some m => m | None => hop a end;
     remote := match parsed_mac OptDadr hs with Some m => m | None => remote a end;
     network := match supplied OptDnet hs with
                | Some v => strtol v
                | None => network a
                end |}.

(** The body of the option loop for one addressing option and its value. *)
Definition whois_apply {ext : Externals} (l : Whois.locals)
           (h : hint_option * string) : Whois.locals :=
  match fst h with
  | OptMac => match bacnet_address_mac_from_ascii (snd h) with
              | Some m => Whois.set_mac m l
              | None => l
              end
  | OptDnet => Whois.set_dnet (strtol (snd h)) l
  | OptDadr => match bacnet_address_mac_from_ascii (snd h) with
               | Some m => Whois.set_adr m l
               | None => l
               end
  end.

Definition iam_apply {ext : Externals} (l : Iam.locals)
           (h : hint_option * string) : Iam.locals :=
  match fst h with
  | OptMac => match bacnet_address_mac_from_ascii (snd h) with
              | Some m => Iam.set_mac m l
              | None => l
              end
  | OptDnet => Iam.set_dnet (strtol (snd h)) l
  | OptDadr => match bacnet_address_mac_from_ascii (snd h) with
               | Some m => Iam.set_adr m l
               | None => l
               end
  end.

Definition apply_hint {ext : Externals} (a : addressing)
           (h : hint_option * string) : addressing :=
  match fst h with
  | OptMac => match bacnet_address_mac_from_ascii (snd h) with
              | Some m => mkAddressing true m (remote a) (network a)
              | None => a
              end
  | OptDnet => mkAddressing (if dnet_valid (strtol (snd h)) then true else specific a)
                            (hop a) (remote a) (strtol (snd h))
  | OptDadr => match bacnet_address_mac_from_ascii (snd h) with
               | Some m => mkAddressing true (hop a) m (network a)
               | None => a
               end
  end.

(** The destination of the Who-Is tool, and of the I-Am tool, as a
    function of the four locals. *)
Definition whois_target {ext : Externals} (a : addressing) : Addr.t :=
  if specific a
  then directed_address (hop a) (remote a) (network a) zero_address
  else datalink_get_broadcast_address zero_address.

Definition iam_target {ext : Externals} (a : addressing) : Addr.t :=
  if specific a
  then directed_address (hop a) (remote a) (network a) zero_address
  else zero_address.

(** How many more positional arguments the option loop accepts. *)
Definition whois_room (l : Whois.locals) : nat :=
  if Whois.target_args l =? 0 then 2
  else if Whois.target_args l =? 1 then 1
  else 0.

Definition iam_room (l : Iam.locals) : nat :=
  if Iam.target_args l =? 0 then 4
  else if Iam.target_args l =? 1 then 3
  else if Iam.target_args l =? 2 then 2
  else if Iam.target_args l =? 3 then 1
  else 0.

Definition has_info (toks : list token) : bool := existsb (token_eqb Info) toks.

(** The two ways in which the option loop returns for a command line with
    one positional argument too many: with the help or the version text
    when [--help] or [--version] comes before that argument, with the
    usage text and exit code 1 otherwise. *)
Definition stops_early {S : Type} (pre : list token) (r : run S) : Prop :=
  if has_info pre
  then r = Finished 0 [UsageText; HelpText] [] \/ r = Finished 0 [VersionText] []
  else r = Finished 1 [UsageText] [].

Definition returns_early {L : Type} (pre : list token) (r : parsed L) : Prop :=
  if has_info pre
  then r = Exit 0 [UsageText; HelpText] \/ r = Exit 0 [VersionText]
  else r = Exit 1 [UsageText].

(** No two nodes of one device hold addresses that
    [bacnet_address_same] takes for the same, the earlier node being the
    first argument as in the scan of [address_table_add]. *)
Fixpoint apart {ext : Externals} (tbl : address_table) : Prop :=
  match tbl with
  | [] => True
  | e :: rest =>
      (forall e', In e' rest -> device_id e' = device_id e ->
                  bacnet_address_same (address e) (address e') = false)
      /\ apart rest
  end.

(** The calls of [address_table_add] that [my_i_am_handler] makes for a
    list of answers, all of them dispatched. *)
Definition heard_calls (polls : list poll) : list (Z * Z * Addr.t) :=
  flat_map (fun p =>
              if pdu_len p =? 0 then []
              else match frame p with
                   | IAm len id apdu => if len =? -1 then [] else [(id, apdu, src p)]
                   | _ => []
                   end) polls.

(** The same answer of the timers with nothing received. *)
Definition silenced (p : poll) : poll :=
  {| pdu_len := 0; src := src p; frame := frame p;
     datalink_timer_expired := datalink_timer_expired p;
     apdu_timer_expired := apdu_timer_expired p |}.

Definition state_of {S : Type} (o : outcome S) : S :=
  match o with
  | Exited st => st
  | Blocked st => st
  end.

Definition is_receive (e : io_event) : bool :=
  match e with
  | Receive _ => true
  | _ => false
  end.

Definition receives (log : list io_event) : list io_event :=
  filter is_receive log.

(** The number of messages that [--retry r] pays for: one in any case. *)
Definition budget (r : Z) : nat := Z.to_nat (Z.max 1 r).

(** The number of characters [print_macaddr] writes: "%02X" for each
    octet (an [uint8_t]), ":" before each octet but the first, and three
    blanks for each position left. *)
Definition mac_text_width (t : mac_text) : nat :=
  (2 * List.length (octets t) + pred (List.length (octets t)) + 3 * blanks t)%nat.

(** The values that the option loop of the Who-Is tool leaves fit the C
    types of the variables. *)
Definition whois_locals_ok (l : Whois.locals) : Prop :=
  0 <= Whois.retry_count l
  /\ 0 <= Whois.target_args l <= 2
  /\ 0 <= Whois.timeout_milliseconds l < 2 ^ 32
  /\ 0 <= Whois.delay_milliseconds l < 2 ^ 32
  /\ - 2 ^ 31 <= Whois.Target_Object_Instance_Min l < 2 ^ 31
  /\ - 2 ^ 31 <= Whois.Target_Object_Instance_Max l < 2 ^ 31.

Definition iam_locals_ok (l : Iam.locals) : Prop :=
  0 <= Iam.retry_count l
  /\ 0 <= Iam.target_args l <= 4
  /\ 0 <= Iam.timeout l < 2 ^ 32
  /\ (Iam.target_args l = 0 \/ 0 <= Iam.Target_Device_ID l < 2 ^ 32)
  /\ (Iam.target_args l <= 1 \/ 0 <= Iam.Target_Vendor_ID l < 2 ^ 16)
  /\ (Iam.target_args l <= 2 \/ 0 <= Iam.Target_Max_APDU l < 2 ^ 32)
  /\ (Iam.target_args l <= 3
      \/ - 2 ^ 31 <= Iam.Target_Segmentation l < 2 ^ 31).

(** The assignments of the option loop of the Who-Is tool: [l'] is [l]
    after one option or positional argument has been taken in. *)
Inductive whois_set : Whois.locals -> Whois.locals -> Prop :=
| whois_set_mac m l : whois_set l (Whois.set_mac m l)
| whois_set_adr m l : whois_set l (Whois.set_adr m l)
| whois_set_dnet n l : whois_set l (Whois.set_dnet n l)
| whois_set_repeat l : whois_set l (Whois.set_repeat_forever l)
| whois_set_retry n l : whois_set l (Whois.set_retry_count n l)
| whois_set_timeout n l : whois_set l (Whois.set_timeout_milliseconds n l)
| whois_set_delay n l : whois_set l (Whois.set_delay_milliseconds n l)
| whois_set_target n l :
    Whois.target_args l = 0 \/ Whois.target_args l = 1 ->
    whois_set l (Whois.set_target n l).

Inductive iam_set : Iam.locals -> Iam.locals -> Prop :=
| iam_set_mac m l : iam_set l (Iam.set_mac m l)
| iam_set_adr m l : iam_set l (Iam.set_adr m l)
| iam_set_dnet n l : iam_set l (Iam.set_dnet n l)
| iam_set_repeat l : iam_set l (Iam.set_repeat_forever l)
| iam_set_retry n l : iam_set l (Iam.set_retry_count n l)
| iam_set_timeout n l : iam_set l (Iam.set_timeout n l)
| iam_set_target n l :
    Iam.target_args l = 0 \/ Iam.target_args l = 1
    \/ Iam.target_args l = 2 \/ Iam.target_args l = 3 ->
    iam_set l (Iam.set_target n l).

(** The three ways in which an option loop returns. *)
Definition early_return {L : Type} (r : parsed L) : Prop :=
  r = Exit 0 [UsageText; HelpText] \/ r = Exit 0 [VersionText]
  \/ r = Exit 1 [UsageText].

(** * Properties *)

(** ** The address table *)

Section TableFacts.
Context {ext : Externals}.

Lemma update_last_app {A : Type} (f : A -> A) (l : list A) (x : A) :
  update_last f (l ++ [x]) = l ++ [f x].
Proof.
  induction l as [|a l IH]; [reflexivity|].
  simpl. destruct (l ++ [x]) eqn:E.
  - destruct l; discriminate.
  - rewrite <- IH. reflexivity.
Qed.

Lemma set_Flags_same (e : address_entry) : set_Flags (Flags e) e = e.
Proof. destruct e; reflexivity. Qed.

Lemma lor_mult_idem (f : Z) :
  Z.lor (Z.lor f BAC_ADDRESS_MULT) BAC_ADDRESS_MULT = Z.lor f BAC_ADDRESS_MULT.
Proof. rewrite <- Z.lor_assoc. reflexivity. Qed.

Lemma is_duplicate_mark (f id apdu : Z) (a : Addr.t) :
  is_duplicate (mkEntry (Z.lor f BAC_ADDRESS_MULT) id apdu a) = true.
Proof.
  unfold is_duplicate; simpl.
  rewrite Z.land_lor_distr_l. change (Z.land BAC_ADDRESS_MULT BAC_ADDRESS_MULT) with 1.
  destruct (Z.lor (Z.land f BAC_ADDRESS_MULT) 1 =? 0) eqn:E; [|reflexivity].
  apply Z.eqb_eq, Z.lor_eq_0_iff in E. destruct E; discriminate.
Qed.

(** The scan when no node holds the pair: every node of that device is
    flagged and the loop reaches the end of the list. *)
Lemma scan_table_fresh (id : Z) (src : Addr.t) (l : list address_entry) :
  (forall e, In e l -> device_id e = id ->
             bacnet_address_same (address e) src = false) ->
  forall flags,
    scan_table id src l flags =
    (map (mark id) l,
     Scanned (if has_id id l then Z.lor flags BAC_ADDRESS_MULT else flags)).
Proof.
  induction l as [|p next IH]; intros H flags; [reflexivity|].
  simpl. unfold mark at 1.
  destruct (device_id p =? id) eqn:E.
  - rewrite (H p (or_introl eq_refl)) by (apply Z.eqb_eq; exact E).
    rewrite IH by (intros; apply H; [right|]; assumption).
    simpl. rewrite lor_mult_idem. destruct (has_id id next); reflexivity.
  - rewrite IH by (intros; apply H; [right|]; assumption).
    reflexivity.
Qed.

(** The scan when a node holds the pair and the other nodes of that
    device are flagged already: nothing changes. *)
Lemma scan_table_known (id : Z) (src : Addr.t) (l : list address_entry) :
  (exists e, In e l /\ device_id e = id
             /\ bacnet_address_same (address e) src = true) ->
  (forall e, In e l -> device_id e = id ->
             bacnet_address_same (address e) src = false ->
             Z.lor (Flags e) BAC_ADDRESS_MULT = Flags e) ->
  forall flags, scan_table id src l flags = (l, Found).
Proof.
  induction l as [|p next IH]; intros [e [Hin [Hid Hsame]]] Hflag flags.
  - destruct Hin.
  - simpl.
    assert (Hnext : bacnet_address_same (address p) src = false \/ device_id p <> id ->
                    scan_table id src next (Z.lor flags BAC_ADDRESS_MULT) = (next, Found)
                    /\ scan_table id src next flags = (next, Found)).
    { intros Hp.
      assert (Hex : exists e, In e next /\ device_id e = id
                              /\ bacnet_address_same (address e) src = true).
      { exists e. destruct Hin as [-> | Hin]; [|auto].
        destruct Hp as [Hp | Hp]; congruence. }
      split; apply IH; auto; intros; apply Hflag; auto; right; assumption. }
    destruct (device_id p =? id) eqn:E.
    + destruct (bacnet_address_same (address p) src) eqn:S; [reflexivity|].
      destruct Hnext as [-> _]; [left; reflexivity|].
      rewrite Hflag; [rewrite set_Flags_same; reflexivity|left; reflexivity| |assumption].
      apply Z.eqb_eq; exact E.
    + destruct Hnext as [_ ->]; [right; apply Z.eqb_neq; exact E|].
      reflexivity.
Qed.

Lemma address_table_add_fresh (id apdu : Z) (src : Addr.t) (tbl : address_table) :
  (forall e, In e tbl -> device_id e = id ->
             bacnet_address_same (address e) src = false) ->
  address_table_add id apdu src tbl =
  map (mark id) tbl
      ++ [mkEntry (if has_id id tbl then BAC_ADDRESS_MULT else 0) id apdu src].
Proof.
  intros H. unfold address_table_add, alloc_address_entry.
  rewrite scan_table_fresh by exact H.
  rewrite update_last_app. reflexivity.
Qed.

Lemma address_table_add_known (id apdu : Z) (src : Addr.t) (tbl : address_table) :
  (exists e, In e tbl /\ device_id e = id
             /\ bacnet_address_same (address e) src = true) ->
  (forall e, In e tbl -> device_id e = id ->
             bacnet_address_same (address e) src = false ->
             Z.lor (Flags e) BAC_ADDRESS_MULT = Flags e) ->
  address_table_add id apdu src tbl = tbl.
Proof.
  intros Hex Hflag. unfold address_table_add.
  rewrite scan_table_known by assumption. reflexivity.
Qed.

End TableFacts.

Section TableInvariant.
Context {ext : Externals}.

Lemma mark_device_id (id : Z) (e : address_entry) :
  device_id (mark id e) = device_id e.
Proof. unfold mark. destruct (device_id e =? id); reflexivity. Qed.

Lemma mark_entry_key (id : Z) (e : address_entry) :
  entry_key (mark id e) = entry_key e.
Proof. unfold mark. destruct (device_id e =? id); reflexivity. Qed.

Lemma count_id_app (k : Z) (l1 l2 : address_table) :
  count_id k (l1 ++ l2) = (count_id k l1 + count_id k l2)%nat.
Proof. unfold count_id. rewrite filter_app, length_app. reflexivity. Qed.

Lemma count_id_mark (k id : Z) (l : address_table) :
  count_id k (map (mark id) l) = count_id k l.
Proof.
  unfold count_id. induction l as [|e l IH]; [reflexivity|].
  simpl. rewrite mark_device_id.
  destruct (device_id e =? k); simpl; rewrite IH; reflexivity.
Qed.

Lemma count_id_in (e : address_entry) (l : address_table) :
  In e l -> (1 <= count_id (device_id e) l)%nat.
Proof.
  unfold count_id. induction l as [|a l IH]; intros Hin; [destruct Hin|].
  simpl. destruct Hin as [-> | Hin].
  - rewrite Z.eqb_refl. simpl. lia.
  - specialize (IH Hin). destruct (device_id a =? device_id e); simpl; lia.
Qed.

Lemma count_id_two (e e' : address_entry) (l : address_table) :
  In e l -> In e' l -> e <> e' -> device_id e' = device_id e ->
  (2 <= count_id (device_id e) l)%nat.
Proof.
  induction l as [|a l IH]; intros Hin Hin' Hne Hid; [destruct Hin|].
  change (count_id (device_id e) (a :: l))
    with (count_id (device_id e) ([a] ++ l)).
  rewrite count_id_app.
  destruct Hin as [-> | Hin]; destruct Hin' as [-> | Hin'].
  - congruence.
  - pose proof (count_id_in _ _ Hin') as H. rewrite Hid in H.
    unfold count_id at 1. simpl. rewrite Z.eqb_refl. simpl. lia.
  - pose proof (count_id_in _ _ Hin) as H.
    unfold count_id at 1. simpl. rewrite Hid, Z.eqb_refl. simpl. lia.
  - specialize (IH Hin Hin' Hne Hid). lia.
Qed.

Lemma has_id_count (id : Z) (l : address_table) :
  has_id id l = (1 <=? count_id id l)%nat.
Proof.
  unfold has_id, count_id. induction l as [|e l IH]; [reflexivity|].
  simpl. destruct (device_id e =? id); simpl; [reflexivity|exact IH].
Qed.

Lemma flags_exact_bit (tbl : address_table) (e : address_entry) :
  flags_exact tbl -> In e tbl ->
  Z.lor (Flags e) BAC_ADDRESS_MULT = BAC_ADDRESS_MULT.
Proof.
  intros Hinv Hin. unfold flags_exact in Hinv.
  rewrite Forall_forall in Hinv. rewrite (Hinv e Hin).
  destruct (2 <=? count_id (device_id e) tbl)%nat; reflexivity.
Qed.

Lemma holds_pair_true (id : Z) (src : Addr.t) (tbl : address_table) :
  holds_pair id src tbl = true <->
  exists e, In e tbl /\ device_id e = id
            /\ bacnet_address_same (address e) src = true.
Proof.
  unfold holds_pair. rewrite existsb_exists. split.
  - intros [e [Hin H]]. apply andb_true_iff in H. destruct H as [H1 H2].
    exists e. rewrite Z.eqb_eq in H1. auto.
  - intros [e [Hin [H1 H2]]]. exists e. split; [assumption|].
    apply andb_true_iff. rewrite Z.eqb_eq. auto.
Qed.

Lemma holds_pair_false (id : Z) (src : Addr.t) (tbl : address_table) :
  holds_pair id src tbl = false ->
  forall e, In e tbl -> device_id e = id ->
            bacnet_address_same (address e) src = false.
Proof.
  intros H e Hin Hid.
  destruct (bacnet_address_same (address e) src) eqn:S; [|reflexivity].
  assert (holds_pair id src tbl = true); [|congruence].
  apply holds_pair_true. exists e. auto.
Qed.

(** A call for a pair the table holds changes nothing, provided the
    flags are exact. *)
Lemma address_table_add_noop (id apdu : Z) (src : Addr.t) (tbl : address_table) :
  flags_exact tbl ->
  (exists e, In e tbl /\ device_id e = id
             /\ bacnet_address_same (address e) src = true) ->
  address_table_add id apdu src tbl = tbl.
Proof.
  intros Hinv Hex. apply address_table_add_known; [exact Hex|].
  intros e' Hin' Hid' Hdiff.
  destruct Hex as [e [Hin [Hid Hsame]]].
  assert (Hne : e <> e') by congruence.
  pose proof (count_id_two e e' tbl Hin Hin' Hne ltac:(congruence)) as Hc.
  unfold flags_exact in Hinv. rewrite Forall_forall in Hinv.
  rewrite (Hinv e' Hin'). replace (device_id e') with (device_id e) by congruence.
  apply Nat.leb_le in Hc. rewrite Hc. reflexivity.
Qed.

Lemma count_id_single (k : Z) (e : address_entry) :
  count_id k [e] = if device_id e =? k then 1%nat else 0%nat.
Proof. unfold count_id. simpl. destruct (device_id e =? k); reflexivity. Qed.

Lemma flags_exact_add (id apdu : Z) (src : Addr.t) (tbl : address_table) :
  flags_exact tbl -> flags_exact (address_table_add id apdu src tbl).
Proof.
  intros Hinv. destruct (holds_pair id src tbl) eqn:Hp.
  - rewrite address_table_add_noop; [assumption..|].
    apply holds_pair_true. exact Hp.
  - rewrite address_table_add_fresh by (apply holds_pair_false; exact Hp).
    unfold flags_exact. apply Forall_app. split.
    + apply Forall_map. apply Forall_forall. intros e Hin.
      rewrite mark_device_id, count_id_app, count_id_mark, count_id_single.
      cbn [device_id].
      pose proof (count_id_in e tbl Hin) as H1.
      unfold mark. destruct (device_id e =? id) eqn:E.
      * apply Z.eqb_eq in E. rewrite E in *. rewrite Z.eqb_refl.
        cbn [Flags set_Flags]. rewrite (flags_exact_bit tbl e Hinv Hin).
        destruct (Nat.leb_spec 2 (count_id id tbl + 1)); [reflexivity|lia].
      * rewrite Z.eqb_sym, E, Nat.add_0_r.
        unfold flags_exact in Hinv. rewrite Forall_forall in Hinv.
        apply Hinv. exact Hin.
    + constructor; [|constructor]. cbn [Flags device_id].
      rewrite count_id_app, count_id_mark, count_id_single. cbn [device_id].
      rewrite Z.eqb_refl, has_id_count.
      destruct (Nat.leb_spec 1 (count_id id tbl));
        destruct (Nat.leb_spec 2 (count_id id tbl + 1)); (reflexivity || lia).
Qed.

Lemma flags_exact_record_all (calls : list (Z * Z * Addr.t)) :
  forall tbl, flags_exact tbl -> flags_exact (record_all calls tbl).
Proof.
  induction calls as [|c calls IH]; intros tbl Hinv; [exact Hinv|].
  simpl. apply IH. apply flags_exact_add. exact Hinv.
Qed.

Lemma print_rows_spec (tbl : address_table) :
  forall t d,
    0 <= t -> 0 <= d ->
    t + Z.of_nat (List.length tbl) < 2 ^ UINT_BITS ->
    d + Z.of_nat (List.length tbl) < 2 ^ UINT_BITS ->
    print_rows tbl t d =
    (map print_row tbl, t + Z.of_nat (List.length tbl),
     d + Z.of_nat (List.length (filter is_duplicate tbl))).
Proof.
  induction tbl as [|a next IH]; intros t d Ht Hd Htl Hdl.
  - simpl. rewrite !Z.add_0_r. reflexivity.
  - cbn [print_rows]. cbn [List.length] in Htl, Hdl.
    assert (Hu : forall v, 0 <= v -> v + 1 < 2 ^ UINT_BITS -> uint (v + 1) = v + 1).
    { intros v H0 H1. unfold uint, wrap_unsigned. apply Z.mod_small. lia. }
    rewrite (Hu t) by lia.
    cbn [filter]. destruct (is_duplicate a).
    + rewrite (Hu d) by lia. rewrite IH by lia.
      cbn [map List.length].
      repeat match goal with |- (_, _) = (_, _) => f_equal end; lia.
    + rewrite IH by lia. cbn [map List.length].
      repeat match goal with |- (_, _) = (_, _) => f_equal end; lia.
Qed.

End TableInvariant.

(** Claim C2.  When [address_table_add] is called for a device identifier
    that the table holds, and holds only under addresses that
    [bacnet_address_same] tells apart from [src], the new node is linked at
    the tail with [BAC_ADDRESS_MULT] set, every node of that identifier gets
    the flag, and nothing else happens to the table: identifiers, APDU sizes
    and addresses stay where they were, in the same order. *)
Theorem duplicate_identity_appended
        (ext : Externals) (id apdu : Z) (src : Addr.t) (tbl : address_table) :
  (exists e, In e tbl /\ device_id e = id) ->
  (forall e, In e tbl -> device_id e = id ->
             bacnet_address_same (address e) src = false) ->
  address_table_add id apdu src tbl
  = map (mark id) tbl ++ [mkEntry BAC_ADDRESS_MULT id apdu src]
  /\ map entry_key (address_table_add id apdu src tbl)
     = map entry_key tbl ++ [(id, apdu, src)]
  /\ (forall e, In e (address_table_add id apdu src tbl) ->
                device_id e = id -> is_duplicate e = true)
  /\ (forall e, In e tbl -> device_id e <> id ->
                In e (address_table_add id apdu src tbl)).
Proof.
  intros [e0 [Hin0 Hid0]] Hdiff.
  rewrite (address_table_add_fresh id apdu src tbl Hdiff).
  assert (Hhas : has_id id tbl = true).
  { rewrite has_id_count. apply Nat.leb_le. rewrite <- Hid0.
    apply count_id_in. exact Hin0. }
  rewrite Hhas. split; [reflexivity|]. split; [|split].
  - rewrite map_app, map_map. simpl. f_equal.
    apply map_ext. intros a. apply mark_entry_key.
  - intros e Hin Hid. apply in_app_or in Hin. destruct Hin as [Hin | [<- | []]].
    + apply in_map_iff in Hin. destruct Hin as [x [<- Hx]].
      rewrite mark_device_id in Hid. unfold mark.
      apply Z.eqb_eq in Hid. rewrite Hid. apply is_duplicate_mark.
    + reflexivity.
  - intros e Hin Hne. apply in_or_app. left. apply in_map_iff.
    exists e. split; [|exact Hin]. unfold mark.
    apply Z.eqb_neq in Hne. rewrite Hne. reflexivity.
Qed.

Lemma duplicate_identity_appended_witness :
  let first := mkEntry 0 100 480 Demo.station_A in
  (exists e, In e [first] /\ device_id e = 100)
  /\ (forall e, In e [first] -> device_id e = 100 ->
                Demo.address_same (address e) Demo.station_B = false)
  /\ address_table_add (ext := Demo.externals) 100 480 Demo.station_B [first]
     = [mkEntry 1 100 480 Demo.station_A; mkEntry 1 100 480 Demo.station_B].
Proof.
  assert (H1 : exists e, In e [mkEntry 0 100 480 Demo.station_A] /\ device_id e = 100).
  { eexists. split; [left; reflexivity|reflexivity]. }
  assert (H2 : forall e, In e [mkEntry 0 100 480 Demo.station_A] ->
                         device_id e = 100 ->
                         Demo.address_same (address e) Demo.station_B = false).
  { intros e [<- | []] _. reflexivity. }
  split; [exact H1|]. split; [exact H2|].
  exact (proj1 (duplicate_identity_appended Demo.externals 100 480 Demo.station_B
                  [mkEntry 0 100 480 Demo.station_A] H1 H2)).
Defined.

(** Claim C3.  In a table built by calls of [address_table_add], a further
    call for a device identifier and an address that [bacnet_address_same]
    finds in a node of that identifier returns the table as it was.  Two
    calls with the same pair on the empty table leave one node, not
    flagged. *)
Theorem record_idempotent (ext : Externals) :
  (forall (calls : list (Z * Z * Addr.t)) (id apdu : Z) (src : Addr.t),
      (exists e, In e (record_all calls []) /\ device_id e = id
                 /\ bacnet_address_same (address e) src = true) ->
      address_table_add id apdu src (record_all calls []) = record_all calls [])
  /\ (forall (id apdu : Z) (src : Addr.t),
         bacnet_address_same src src = true ->
         record_all [(id, apdu, src); (id, apdu, src)] [] = [mkEntry 0 id apdu src]
         /\ is_duplicate (mkEntry 0 id apdu src) = false).
Proof.
  split.
  - intros calls id apdu src Hex. apply address_table_add_noop; [|exact Hex].
    apply flags_exact_record_all. constructor.
  - intros id apdu src Hrefl. split; [|reflexivity].
    unfold record_all. simpl. unfold address_table_add. simpl.
    rewrite Z.eqb_refl, Hrefl. reflexivity.
Qed.

Lemma record_idempotent_witness :
  let calls := [(100, 480, Demo.station_A); (100, 480, Demo.station_B);
                (7, 50, Demo.station_A)] in
  ((exists e, In e (record_all (ext := Demo.externals) calls [])
              /\ device_id e = 100
              /\ Demo.address_same (address e) Demo.station_B = true)
   /\ address_table_add (ext := Demo.externals) 100 1024 Demo.station_B
                        (record_all (ext := Demo.externals) calls [])
      = record_all (ext := Demo.externals) calls [])
  /\ (Demo.address_same Demo.station_A Demo.station_A = true
      /\ record_all (ext := Demo.externals)
                    [(100, 480, Demo.station_A); (100, 480, Demo.station_A)] []
         = [mkEntry 0 100 480 Demo.station_A]).
Proof.
  cbv zeta.
  assert (H1 : exists e,
             In e (record_all (ext := Demo.externals)
                              [(100, 480, Demo.station_A); (100, 480, Demo.station_B);
                               (7, 50, Demo.station_A)] [])
             /\ device_id e = 100
             /\ Demo.address_same (address e) Demo.station_B = true).
  { exists (mkEntry 1 100 480 Demo.station_B).
    split; [right; left; reflexivity|split; reflexivity]. }
  split; [split; [exact H1|]|split; [reflexivity|]].
  - exact (proj1 (record_idempotent Demo.externals) _ 100 1024 Demo.station_B H1).
  - exact (proj1 (proj2 (record_idempotent Demo.externals) 100 480 Demo.station_A
                        eq_refl)).
Defined.

(** Claim C7.  For the table left by any run of [address_table_add] calls
    (short enough for the [unsigned] counters), [print_address_cache]
    prints one row per node in list order, then the number of nodes as
    total, then, unless it is zero, the number of flagged nodes as
    duplicates. *)
Theorem roster_report_counts (ext : Externals) (calls : list (Z * Z * Addr.t)) :
  let tbl := record_all calls [] in
  Z.of_nat (List.length tbl) < 2 ^ UINT_BITS ->
  print_address_cache tbl
  = [TableHeader; TableRule] ++ map print_row tbl
      ++ [TotalDevices (Z.of_nat (List.length tbl))]
      ++ (if Z.of_nat (List.length (filter is_duplicate tbl)) =? 0 then []
          else [DuplicateDevices (Z.of_nat (List.length (filter is_duplicate tbl)))]).
Proof.
  intros tbl Hlen. unfold print_address_cache.
  rewrite print_rows_spec by lia. rewrite !Z.add_0_l. reflexivity.
Qed.

Lemma roster_report_counts_witness :
  let calls := [(100, 480, Demo.station_A); (100, 480, Demo.station_B);
                (7, 50, Demo.station_A)] in
  Z.of_nat (List.length (record_all (ext := Demo.externals) calls [])) < 2 ^ UINT_BITS
  /\ print_address_cache (ext := Demo.externals)
                         (record_all (ext := Demo.externals) calls [])
     = [TableHeader; TableRule;
        TableRow true 100 (mkMacText [10] 6) 0 (mkMacText [0] 6) 480;
        TableRow true 100 (mkMacText [11] 6) 0 (mkMacText [0] 6) 480;
        TableRow false 7 (mkMacText [10] 6) 0 (mkMacText [0] 6) 50;
        TotalDevices 3; DuplicateDevices 2].
Proof.
  cbv zeta.
  assert (H : Z.of_nat (List.length
                          (record_all (ext := Demo.externals)
                                      [(100, 480, Demo.station_A);
                                       (100, 480, Demo.station_B);
                                       (7, 50, Demo.station_A)] []))
              < 2 ^ UINT_BITS) by reflexivity.
  split; [exact H|].
  exact (roster_report_counts Demo.externals _ H).
Defined.

(** ** The loop of the Who-Is tool *)

Section WhoisLoop.
Context {ext : Externals}.

Lemma sends_app (log1 log2 : list io_event) :
  sends (log1 ++ log2) = sends log1 ++ sends log2.
Proof. apply filter_app. Qed.

Lemma whois_loop_app (l : Whois.locals) (polls more : list poll) :
  forall st,
    Whois.loop l (polls ++ more) st =
    match Whois.loop l polls st with
    | Exited s => Exited s
    | Blocked s => Whois.loop l more s
    end.
Proof.
  induction polls as [|p polls IH]; intros st; [reflexivity|].
  simpl. destruct (Whois.iteration l p st) as [st' brk].
  destruct brk; [reflexivity|apply IH].
Qed.

(** A pass without a frame, up to the test of the request timer. *)
Lemma whois_iteration_quiet (l : Whois.locals) (p : poll) (st : Whois.state) :
  quiet p -> Whois.Error_Detected st = false ->
  exists s1,
    Whois.Address_Table s1 = Whois.Address_Table st
    /\ Whois.Error_Detected s1 = false
    /\ Whois.retries s1 = Whois.retries st
    /\ sends (Whois.log s1) = sends (Whois.log st)
    /\ Whois.iteration l p st =
       if apdu_timer_expired p then
         if Whois.repeat_forever l || negb (Whois.retries s1 =? 0)
         then (Whois.decrement_retry (Whois.Send_WhoIs_To_Network l s1), false)
         else (s1, true)
       else (s1, false).
Proof.
  intros Hq Herr. unfold quiet in Hq. unfold Whois.iteration.
  rewrite Hq. simpl. rewrite Herr.
  destruct (datalink_timer_expired p).
  - exists (Whois.logged (MaintenanceTimer 1)
              (Whois.logged (Receive (Whois.delay_milliseconds l)) st)).
    repeat split; try reflexivity; try assumption.
    cbn [Whois.logged Whois.log]. rewrite !sends_app.
    cbn [sends filter is_send]. rewrite !app_nil_r. reflexivity.
  - exists (Whois.logged (Receive (Whois.delay_milliseconds l)) st).
    repeat split; try reflexivity; try assumption.
    cbn [Whois.logged Whois.log]. rewrite !sends_app.
    cbn [sends filter is_send]. rewrite !app_nil_r. reflexivity.
Qed.

(** Without frames and without [--repeat] the loop resends at each
    expiry of the request timer while retries are left and leaves at the
    next expiry. *)
Lemma whois_loop_quiet (l : Whois.locals) :
  Whois.repeat_forever l = false ->
  forall polls st,
    Forall quiet polls ->
    Whois.Error_Detected st = false ->
    0 <= Whois.retries st ->
    exists st',
      Whois.Address_Table st' = Whois.Address_Table st
      /\ Whois.Error_Detected st' = false
      /\ ((apdu_expiries polls <= Z.to_nat (Whois.retries st))%nat
          /\ Whois.loop l polls st = Blocked st'
          /\ sends (Whois.log st')
             = sends (Whois.log st) ++ repeat (whois_request l) (apdu_expiries polls)
          \/ (Z.to_nat (Whois.retries st) < apdu_expiries polls)%nat
             /\ Whois.loop l polls st = Exited st'
             /\ sends (Whois.log st')
                = sends (Whois.log st)
                    ++ repeat (whois_request l) (Z.to_nat (Whois.retries st))).
Proof.
  intros Hrep. induction polls as [|p polls IH]; intros st Hq Herr Hret.
  - exists st. repeat split; try assumption. left.
    repeat split; [apply Nat.le_0_l|]. simpl. rewrite app_nil_r. reflexivity.
  - inversion Hq as [|? ? Hp Hq']; subst.
    destruct (whois_iteration_quiet l p st Hp Herr)
      as [s1 [Ht [He [Hr [Hs Hit]]]]].
    cbn [Whois.loop]. rewrite Hit. rewrite Hrep. cbn [orb].
    unfold apdu_expiries. cbn [filter].
    destruct (apdu_timer_expired p); cbn [List.length].
    + destruct (Whois.retries s1 =? 0) eqn:E; cbn [negb].
      * apply Z.eqb_eq in E. exists s1. repeat split; try assumption.
        right. rewrite <- Hr, E. repeat split; [simpl; lia|].
        simpl. rewrite app_nil_r. exact Hs.
      * apply Z.eqb_neq in E.
        set (s2 := Whois.decrement_retry (Whois.Send_WhoIs_To_Network l s1)).
        assert (Hr2 : Whois.retries s2 = Whois.retries st - 1).
        { subst s2. simpl. rewrite Hr.
          destruct (Whois.retries st >? 0) eqn:G; [reflexivity|].
          rewrite Z.gtb_ltb in G. apply Z.ltb_ge in G. lia. }
        assert (Hs2 : sends (Whois.log s2)
                      = sends (Whois.log st) ++ [whois_request l]).
        { subst s2. simpl. rewrite sends_app, Hs. reflexivity. }
        destruct (IH s2 Hq' He ltac:(lia))
          as [st' [Ht' [He' [[Hn [Hl Hs']] | [Hn [Hl Hs']]]]]];
          exists st'; (split; [rewrite Ht'; exact Ht|]); (split; [exact He'|]).
        -- left. repeat split; [fold (apdu_expiries polls); lia|exact Hl|].
           rewrite Hs', Hs2, <- app_assoc. reflexivity.
        -- right. repeat split; [fold (apdu_expiries polls); lia|exact Hl|].
           rewrite Hs', Hs2, <- app_assoc, Hr2.
           replace (Z.to_nat (Whois.retries st))
             with (S (Z.to_nat (Whois.retries st - 1))) by lia.
           reflexivity.
    + destruct (IH s1 Hq' He ltac:(lia))
        as [st' [Ht' [He' [[Hn [Hl Hs']] | [Hn [Hl Hs']]]]]];
        exists st'; (split; [rewrite Ht'; exact Ht|]); (split; [exact He'|]).
      * left. repeat split; [fold (apdu_expiries polls); lia|exact Hl|].
        rewrite Hs', Hs. reflexivity.
      * right. repeat split; [fold (apdu_expiries polls); lia|exact Hl|].
        rewrite Hs', Hs, Hr. reflexivity.
Qed.

End WhoisLoop.

(** Claim C1, as amended.  Started with [retry_count] 2 and without
    [--repeat], and as long as [datalink_receive] returns 0: the first
    request is followed by the decrement of [retry_count] to 1, the first
    expiry of the request timer resends, and the second expiry leaves the
    loop.  Two requests are sent, not three; before the second expiry the
    loop is still waiting. *)
Theorem query_retry_two_sends
        (ext : Externals) (l : Whois.locals) (polls : list poll) :
  Whois.retry_count l = 2 ->
  Whois.repeat_forever l = false ->
  Forall quiet polls ->
  ((2 <= apdu_expiries polls)%nat ->
   exists st, Whois.session l polls = Exited st
              /\ sends (Whois.log st) = [whois_request l; whois_request l]
              /\ Whois.Error_Detected st = false)
  /\ ((apdu_expiries polls < 2)%nat ->
      exists st, Whois.session l polls = Blocked st
                 /\ sends (Whois.log st)
                    = repeat (whois_request l) (1 + apdu_expiries polls)).
Proof.
  intros Hretry Hrep Hq. unfold Whois.session.
  assert (Hr : Whois.retries (Whois.start l) = 1).
  { unfold Whois.start. simpl. rewrite Hretry. reflexivity. }
  assert (H0 : 0 <= Whois.retries (Whois.start l)) by (rewrite Hr; lia).
  destruct (whois_loop_quiet l Hrep polls (Whois.start l) Hq eq_refl H0)
    as [st' [_ [He [[Hn [Hl Hs]] | [Hn [Hl Hs]]]]]];
    rewrite Hr in *; split; intros Hk; try lia; exists st'.
  - split; [exact Hl|]. rewrite Hs. reflexivity.
  - repeat split; [exact Hl| |exact He]. rewrite Hs. reflexivity.
Qed.

Lemma query_retry_two_sends_witness :
  let l := Whois.set_retry_count 2 (Whois.initial (ext := Demo.externals)) in
  let polls := [Demo.silence false; Demo.silence true; Demo.silence false;
                Demo.silence true; Demo.silence true] in
  Whois.retry_count l = 2
  /\ Whois.repeat_forever l = false
  /\ Forall quiet polls
  /\ (2 <= apdu_expiries polls)%nat
  /\ exists st, Whois.session (ext := Demo.externals) l polls = Exited st
                /\ sends (Whois.log st)
                   = [whois_request (ext := Demo.externals) l;
                      whois_request (ext := Demo.externals) l]
                /\ Whois.Error_Detected st = false.
Proof.
  cbv zeta.
  assert (Hq : Forall quiet [Demo.silence false; Demo.silence true;
                             Demo.silence false; Demo.silence true;
                             Demo.silence true])
    by (repeat constructor).
  assert (Hn : (2 <= apdu_expiries [Demo.silence false; Demo.silence true;
                                    Demo.silence false; Demo.silence true;
                                    Demo.silence true])%nat)
    by (vm_compute; lia).
  split; [reflexivity|]. split; [reflexivity|]. split; [exact Hq|].
  split; [exact Hn|].
  exact (proj1 (query_retry_two_sends Demo.externals
                  (Whois.set_retry_count 2 (Whois.initial (ext := Demo.externals)))
                  _ eq_refl eq_refl Hq) Hn).
Defined.

(** Claim C1 as stated fails: with [--retry 2] and silence the tool
    finishes after two requests. *)
Lemma query_retry_three_sends_counterexample :
  exists out log,
    Whois.main (ext := Demo.externals) ["--retry"; "2"]
               [Demo.silence false; Demo.silence true; Demo.silence false;
                Demo.silence true; Demo.silence true]
    = Finished 0 out log
    /\ List.length (sends log) = 2%nat
    /\ List.length (sends log) <> 3%nat.
Proof.
  eexists. eexists. split; [vm_compute; reflexivity|].
  split; [reflexivity|discriminate].
Qed.

(** Claim C6.  A pass of the Who-Is loop in which [datalink_receive]
    returns 0 leaves [Address_Table] and [Error_Detected] as they were;
    when neither timer has expired the pass does nothing but the
    receive. *)
Theorem zero_length_receive_is_inert
        (ext : Externals) (l : Whois.locals) (p : poll) (st : Whois.state) :
  quiet p ->
  Whois.Address_Table (fst (Whois.iteration l p st)) = Whois.Address_Table st
  /\ Whois.Error_Detected (fst (Whois.iteration l p st)) = Whois.Error_Detected st
  /\ (datalink_timer_expired p = false -> apdu_timer_expired p = false ->
      Whois.iteration l p st
      = (Whois.logged (Receive (Whois.delay_milliseconds l)) st,
         Whois.Error_Detected st)).
Proof.
  intros Hq. unfold quiet in Hq. unfold Whois.iteration. rewrite Hq.
  change (0 =? 0) with true. cbv iota.
  change (Whois.Error_Detected
            (Whois.logged (Receive (Whois.delay_milliseconds l)) st))
    with (Whois.Error_Detected st).
  destruct (Whois.Error_Detected st) eqn:E.
  - cbn [fst]. split; [reflexivity|]. split; [exact E|]. intros _ _. reflexivity.
  - destruct (datalink_timer_expired p), (apdu_timer_expired p);
      [destruct (Whois.repeat_forever l
                 || negb (Whois.retries
                            (Whois.logged (MaintenanceTimer 1)
                               (Whois.logged (Receive (Whois.delay_milliseconds l)) st))
                          =? 0))
      | 
      |destruct (Whois.repeat_forever l
                 || negb (Whois.retries
                            (Whois.logged (Receive (Whois.delay_milliseconds l)) st)
                          =? 0))
      | ];
      cbn [fst]; (split; [reflexivity|]); (split; [exact E|]);
      intros; try discriminate; reflexivity.
Qed.

Lemma zero_length_receive_is_inert_witness :
  let l := Whois.initial (ext := Demo.externals) in
  let st := Whois.mkState [mkEntry 0 100 480 Demo.station_B] false 1 [DlenvInit] in
  quiet (Demo.silence true)
  /\ Whois.Address_Table (fst (Whois.iteration (ext := Demo.externals) l
                                               (Demo.silence true) st))
     = [mkEntry 0 100 480 Demo.station_B]
  /\ Whois.Error_Detected (fst (Whois.iteration (ext := Demo.externals) l
                                                (Demo.silence true) st))
     = false.
Proof.
  cbv zeta. split; [reflexivity|].
  pose proof (zero_length_receive_is_inert Demo.externals
                (Whois.initial (ext := Demo.externals)) (Demo.silence true)
                (Whois.mkState [mkEntry 0 100 480 Demo.station_B] false 1 [DlenvInit])
                eq_refl) as [H1 [H2 _]].
  split; [exact H1|exact H2].
Defined.

(** ** Abort and reject *)

Section ProtocolErrors.
Context {ext : Externals}.

Lemma whois_iteration_error (l : Whois.locals) (p : poll) (st : Whois.state) :
  signals_error p = true ->
  Whois.iteration l p st
  = (Whois.mkState (Whois.Address_Table st) true (Whois.retries st)
                   (Whois.log st ++ [Receive (Whois.delay_milliseconds l)]),
     true).
Proof.
  unfold signals_error, Whois.iteration. intros H.
  apply andb_true_iff in H. destruct H as [Hlen Hframe].
  apply negb_true_iff in Hlen. rewrite Hlen.
  destruct (frame p); try discriminate; reflexivity.
Qed.

Lemma iam_wait_app (l : Iam.locals) (polls more : list poll) :
  forall st,
    Iam.wait l (polls ++ more) st =
    match Iam.wait l polls st with
    | Exited s => Exited s
    | Blocked s => Iam.wait l more s
    end.
Proof.
  induction polls as [|p polls IH]; intros st; [reflexivity|].
  cbn [app Iam.wait].
  destruct (Iam.Error_Detected _); [reflexivity|].
  destruct (Iam.again l _); [|reflexivity].
  unfold Iam.enter. destruct (Iam.again l _); [apply IH|reflexivity].
Qed.

Lemma iam_wait_error (l : Iam.locals) (p : poll) (rest : list poll)
      (st : Iam.state) :
  signals_error p = true ->
  exists msg,
    Iam.wait l (p :: rest) st
    = Exited (Iam.mkState true (Iam.retries st) (Iam.printed st ++ [msg])
                          (Iam.log st ++ [Receive (Iam.timeout l)])).
Proof.
  unfold signals_error. intros H.
  apply andb_true_iff in H. destruct H as [Hlen Hframe].
  apply negb_true_iff in Hlen. cbn [Iam.wait]. rewrite Hlen.
  destruct (frame p); try discriminate; eexists; reflexivity.
Qed.

(** With [--repeat] and no abort or reject, every answer of
    [datalink_receive] is followed by the next announcement. *)
Lemma iam_wait_repeat (l : Iam.locals) :
  Iam.repeat_forever l = true ->
  forall polls st,
    Forall (fun p => signals_error p = false) polls ->
    Iam.Error_Detected st = false ->
    exists st',
      Iam.wait l polls st = Blocked st'
      /\ Iam.Error_Detected st' = false
      /\ Iam.printed st' = Iam.printed st
      /\ Iam.log st'
         = Iam.log st
             ++ flat_map (fun _ => [Receive (Iam.timeout l); iam_announcement l])
                         polls.
Proof.
  intros Hrep. induction polls as [|p polls IH]; intros st Hq Herr.
  - exists st. repeat split; [exact Herr|]. simpl. rewrite app_nil_r. reflexivity.
  - inversion Hq as [|? ? Hp Hq']; subst.
    set (s1 := Iam.logged (Receive (Iam.timeout l)) st).
    assert (Hd : (if pdu_len p =? 0 then s1 else Iam.npdu_handler (frame p) s1) = s1).
    { unfold signals_error in Hp. destruct (pdu_len p =? 0); [reflexivity|].
      destruct (frame p); try discriminate; reflexivity. }
    cbn [Iam.wait]. fold s1. rewrite Hd.
    change (Iam.Error_Detected s1) with (Iam.Error_Detected st). rewrite Herr.
    unfold Iam.enter, Iam.again. rewrite Hrep. cbn [orb].
    destruct (IH (Iam.Send_I_Am_To_Network l (Iam.decrement_retry s1)) Hq' Herr)
      as [st' [Hw [He [Hpr Hlog]]]].
    exists st'. repeat split; [exact Hw|exact He|exact Hpr|].
    rewrite Hlog. cbn [Iam.Send_I_Am_To_Network Iam.decrement_retry Iam.log].
    subst s1. cbn [Iam.logged Iam.log flat_map]. rewrite <- !app_assoc.
    reflexivity.
Qed.

Lemma sends_announcements (l : Iam.locals) (polls : list poll) :
  sends (flat_map (fun _ => [Receive (Iam.timeout l); iam_announcement l]) polls)
  = repeat (iam_announcement l) (List.length polls).
Proof.
  induction polls as [|p polls IH]; [reflexivity|].
  cbn [flat_map List.length repeat]. rewrite sends_app, IH. reflexivity.
Qed.

End ProtocolErrors.

Section Report.
Context {ext : Externals}.

Lemma uint_succ (v : Z) : uint (uint v + 1) = uint (v + 1).
Proof.
  unfold uint, wrap_unsigned. apply Z.add_mod_idemp_l.
  unfold UINT_BITS. lia.
Qed.

(** The rows and the two counters of [print_address_cache], for a table
    of any length: one row per node, and the counts as [unsigned]. *)
Lemma print_rows_wrap (tbl : address_table) :
  forall t d,
    print_rows tbl (uint t) (uint d)
    = (map print_row tbl,
       uint (t + Z.of_nat (List.length tbl)),
       uint (d + Z.of_nat (List.length (filter is_duplicate tbl)))).
Proof.
  induction tbl as [|a next IH]; intros t d.
  - cbn [print_rows map List.length filter]. rewrite !Z.add_0_r. reflexivity.
  - cbn [print_rows map filter]. rewrite uint_succ.
    destruct (is_duplicate a).
    + rewrite uint_succ, IH. cbn [List.length].
      repeat match goal with |- (_, _) = (_, _) => f_equal end;
        f_equal; lia.
    + rewrite IH. cbn [List.length].
      repeat match goal with |- (_, _) = (_, _) => f_equal end;
        f_equal; lia.
Qed.

Lemma print_address_cache_rows (tbl : address_table) :
  print_address_cache tbl
  = [TableHeader; TableRule] ++ map print_row tbl
      ++ [TotalDevices (uint (Z.of_nat (List.length tbl)))]
      ++ (if uint (Z.of_nat (List.length (filter is_duplicate tbl))) =? 0
          then []
          else [DuplicateDevices
                  (uint (Z.of_nat (List.length (filter is_duplicate tbl))))]).
Proof.
  unfold print_address_cache. change 0 with (uint 0) at 1 2.
  rewrite print_rows_wrap. rewrite !Z.add_0_l. reflexivity.
Qed.

End Report.

(** Claim C5.  The abort and reject handlers of both tools set
    [Error_Detected].  When a pass of either loop dispatches an abort or a
    reject, the tool finishes with exit code 0 without another send: the
    network activity ends with that receive.  The Who-Is tool then prints
    the whole table as it stood ([st] is the state in which the loop was
    waiting for that frame): the header, one row for each node in list
    order, the number of nodes and, unless it is zero, the number of
    flagged nodes, both as [unsigned]. *)
Theorem protocol_error_ends_run (ext : Externals) :
  (forall src r wst ist,
      Whois.Error_Detected (Whois.npdu_handler src (Abort r) wst) = true
      /\ Whois.Error_Detected (Whois.npdu_handler src (Reject r) wst) = true
      /\ Iam.Error_Detected (Iam.npdu_handler (Abort r) ist) = true
      /\ Iam.Error_Detected (Iam.npdu_handler (Reject r) ist) = true)
  /\ (forall argv polls p rest st,
         Whois.main argv polls = Waiting st ->
         signals_error p = true ->
         exists d,
           Whois.main argv (polls ++ p :: rest)
           = Finished 0
               ([TableHeader; TableRule]
                  ++ map print_row (Whois.Address_Table st)
                  ++ [TotalDevices
                        (uint (Z.of_nat (List.length (Whois.Address_Table st))))]
                  ++ (if uint (Z.of_nat
                                 (List.length
                                    (filter is_duplicate (Whois.Address_Table st))))
                         =? 0
                      then []
                      else [DuplicateDevices
                              (uint (Z.of_nat
                                       (List.length
                                          (filter is_duplicate
                                                  (Whois.Address_Table st)))))]))
               (Whois.log st ++ [Receive d]))
  /\ (forall argv polls p rest st,
         Iam.main argv polls = Waiting st ->
         signals_error p = true ->
         exists d msg,
           Iam.main argv (polls ++ p :: rest)
           = Finished 0 (Iam.printed st ++ [msg]) (Iam.log st ++ [Receive d])).
Proof.
  split; [intros; repeat split|split].
  - intros argv polls p rest st Hrun Herr. unfold Whois.main in *.
    destruct (Whois.parse_args argv Whois.initial) as [|l]; [discriminate|].
    destruct (Whois.Target_Object_Instance_Min l >? BACNET_MAX_INSTANCE);
      [discriminate|].
    destruct (Whois.Target_Object_Instance_Max l >? BACNET_MAX_INSTANCE);
      [discriminate|].
    unfold Whois.session in *. rewrite whois_loop_app.
    destruct (Whois.loop l polls (Whois.start l)) as [s|s]; [discriminate|].
    injection Hrun as ->. cbn [Whois.loop].
    rewrite whois_iteration_error by exact Herr.
    eexists. rewrite print_address_cache_rows. reflexivity.
  - intros argv polls p rest st Hrun Herr. unfold Iam.main in *.
    destruct (Iam.parse_args argv Iam.initial) as [|l]; [discriminate|].
    unfold Iam.session, Iam.loop, Iam.enter in *.
    destruct (Iam.again l _); [|discriminate].
    rewrite iam_wait_app.
    destruct (Iam.wait l polls _) as [s|s]; [discriminate|].
    injection Hrun as ->.
    destruct (iam_wait_error l p rest st Herr) as [msg ->].
    eexists. eexists. reflexivity.
Qed.

Lemma protocol_error_ends_run_witness :
  (exists st,
      Whois.main (ext := Demo.externals) ["--retry"; "2"]
                 [Demo.heard (IAm 5 100 480)] = Waiting st
      /\ signals_error (Demo.heard (Abort 4)) = true
      /\ exists d,
          Whois.main (ext := Demo.externals) ["--retry"; "2"]
                     ([Demo.heard (IAm 5 100 480)]
                        ++ Demo.heard (Abort 4) :: [Demo.silence true])
          = Finished 0
              [TableHeader; TableRule;
               TableRow false 100 (mkMacText [11] 6) 0 (mkMacText [0] 6) 480;
               TotalDevices 1]
              (Whois.log st ++ [Receive d]))
  /\ (exists st,
         Iam.main (ext := Demo.externals) ["1234"; "--repeat"]
                  [Demo.silence false] = Waiting st
         /\ signals_error (Demo.heard (Reject 1)) = true
         /\ exists d msg,
             Iam.main (ext := Demo.externals) ["1234"; "--repeat"]
                      ([Demo.silence false] ++ Demo.heard (Reject 1) :: [])
             = Finished 0 (Iam.printed st ++ [msg]) (Iam.log st ++ [Receive d])).
Proof.
  split.
  - eexists. split; [reflexivity|]. split; [reflexivity|].
    exact (proj1 (proj2 (protocol_error_ends_run Demo.externals))
                 ["--retry"; "2"] [Demo.heard (IAm 5 100 480)]
                 (Demo.heard (Abort 4)) [Demo.silence true] _ eq_refl eq_refl).
  - eexists. split; [reflexivity|]. split; [reflexivity|].
    exact (proj2 (proj2 (protocol_error_ends_run Demo.externals))
                 ["1234"; "--repeat"] [Demo.silence false]
                 (Demo.heard (Reject 1)) [] _ eq_refl eq_refl).
Defined.

(** Claim C8.  With [--repeat] the I-Am loop does not end by itself: as
    long as no abort or reject is dispatched, each answer of
    [datalink_receive] is followed by one more announcement and the loop
    waits in the next receive.  The pass that dispatches an abort or a
    reject leaves the loop right after that receive, with
    [Error_Detected] set and no further announcement. *)
Theorem announce_repeats_until_error (ext : Externals) (l : Iam.locals) :
  Iam.repeat_forever l = true ->
  (forall polls,
      Forall (fun p => signals_error p = false) polls ->
      exists st,
        Iam.session l polls = Blocked st
        /\ Iam.log st
           = [DlenvInit; iam_announcement l]
               ++ flat_map (fun _ => [Receive (Iam.timeout l); iam_announcement l])
                           polls
        /\ List.length (sends (Iam.log st)) = S (List.length polls))
  /\ (forall polls p rest,
         Forall (fun p => signals_error p = false) polls ->
         signals_error p = true ->
         exists st,
           Iam.session l (polls ++ p :: rest) = Exited st
           /\ Iam.Error_Detected st = true
           /\ Iam.log st
              = [DlenvInit; iam_announcement l]
                  ++ flat_map (fun _ => [Receive (Iam.timeout l); iam_announcement l])
                              polls
                  ++ [Receive (Iam.timeout l)]
           /\ List.length (sends (Iam.log st)) = S (List.length polls)).
Proof.
  intros Hrep.
  assert (Hstart : forall polls,
             Iam.session l polls
             = Iam.wait l polls (Iam.Send_I_Am_To_Network l (Iam.start l))).
  { intros polls. unfold Iam.session, Iam.loop, Iam.enter, Iam.again.
    rewrite Hrep. reflexivity. }
  split.
  - intros polls Hq. rewrite Hstart.
    destruct (iam_wait_repeat l Hrep polls
                (Iam.Send_I_Am_To_Network l (Iam.start l)) Hq eq_refl)
      as [st [Hw [_ [_ Hlog]]]].
    exists st. split; [exact Hw|]. split; [exact Hlog|].
    rewrite Hlog, sends_app, sends_announcements, length_app, repeat_length.
    reflexivity.
  - intros polls p rest Hq Herr. rewrite Hstart, iam_wait_app.
    destruct (iam_wait_repeat l Hrep polls
                (Iam.Send_I_Am_To_Network l (Iam.start l)) Hq eq_refl)
      as [st [Hw [_ [_ Hlog]]]].
    rewrite Hw. destruct (iam_wait_error l p rest st Herr) as [msg ->].
    eexists. split; [reflexivity|]. split; [reflexivity|].
    cbn [Iam.log]. rewrite Hlog. split; [rewrite <- app_assoc; reflexivity|].
    rewrite !sends_app, sends_announcements, !length_app, repeat_length.
    cbn. lia.
Qed.

Lemma announce_repeats_until_error_witness :
  let l := Iam.set_repeat_forever (Iam.initial (ext := Demo.externals)) in
  let polls := [Demo.silence false; Demo.heard Other; Demo.heard (IAm 5 7 50)] in
  Iam.repeat_forever l = true
  /\ Forall (fun p => signals_error p = false) polls
  /\ signals_error (Demo.heard (Abort 0)) = true
  /\ (exists st, Iam.session (ext := Demo.externals) l polls = Blocked st
                 /\ List.length (sends (Iam.log st)) = 4%nat)
  /\ (exists st, Iam.session (ext := Demo.externals) l
                             (polls ++ Demo.heard (Abort 0) :: [Demo.silence false])
                 = Exited st
                 /\ Iam.Error_Detected st = true
                 /\ List.length (sends (Iam.log st)) = 4%nat).
Proof.
  cbv zeta.
  assert (Hq : Forall (fun p => signals_error p = false)
                      [Demo.silence false; Demo.heard Other;
                       Demo.heard (IAm 5 7 50)])
    by (repeat constructor).
  split; [reflexivity|]. split; [exact Hq|]. split; [reflexivity|].
  pose proof (announce_repeats_until_error Demo.externals
                (Iam.set_repeat_forever (Iam.initial (ext := Demo.externals)))
                eq_refl) as [H1 H2].
  split.
  - destruct (H1 _ Hq) as [st [Hs [_ Hn]]]. exists st. split; [exact Hs|exact Hn].
  - destruct (H2 _ (Demo.heard (Abort 0)) [Demo.silence false] Hq eq_refl)
      as [st [Hs [He [_ Hn]]]].
    exists st. split; [exact Hs|]. split; [exact He|exact Hn].
Defined.

(** ** The addressing options *)

Section Addressing.
Context {ext : Externals}.

Lemma hint_option_eqb_eq (a b : hint_option) :
  hint_option_eqb a b = true <-> a = b.
Proof. destruct a, b; simpl; split; intros H; try reflexivity; discriminate. Qed.

Lemma supplied_absent (k : hint_option) (hs : hints) :
  ~ In k (map fst hs) -> supplied k hs = None.
Proof.
  induction hs as [|[k' v] hs IH]; intros H; [reflexivity|].
  simpl in *. destruct (hint_option_eqb k k') eqn:E.
  - apply hint_option_eqb_eq in E. subst. exfalso. apply H. left. reflexivity.
  - apply IH. intros Hin. apply H. right. exact Hin.
Qed.

Lemma whois_parse_hints (hs : hints) (rest : list string) :
  forall l,
    Whois.parse_args (hint_args hs ++ rest) l
    = Whois.parse_args rest (fold_left whois_apply hs l).
Proof.
  induction hs as [|[k v] hs IH]; intros l; [reflexivity|].
  cbn [hint_args flat_map fold_left fst snd app]. fold (hint_args hs).
  destruct k; cbn [option_name Whois.parse_args String.eqb Ascii.eqb Bool.eqb];
    rewrite IH; reflexivity.
Qed.

Lemma iam_parse_hints (hs : hints) (rest : list string) :
  forall l,
    Iam.parse_args (hint_args hs ++ rest) l
    = Iam.parse_args rest (fold_left iam_apply hs l).
Proof.
  induction hs as [|[k v] hs IH]; intros l; [reflexivity|].
  cbn [hint_args flat_map fold_left fst snd app]. fold (hint_args hs).
  destruct k; cbn [option_name Iam.parse_args String.eqb Ascii.eqb Bool.eqb];
    rewrite IH; reflexivity.
Qed.

Lemma whois_addressing_fold (hs : hints) :
  forall l,
    whois_addressing (fold_left whois_apply hs l)
    = fold_left apply_hint hs (whois_addressing l).
Proof.
  induction hs as [|[k v] hs IH]; intros l; [reflexivity|].
  cbn [fold_left]. rewrite IH. f_equal.
  unfold whois_apply, apply_hint. cbn [fst snd].
  destruct k; try destruct (bacnet_address_mac_from_ascii v); try reflexivity.
  all: unfold whois_addressing; cbn; destruct (dnet_valid (strtol v)); reflexivity.
Qed.

Lemma iam_addressing_fold (hs : hints) :
  forall l,
    iam_addressing (fold_left iam_apply hs l)
    = fold_left apply_hint hs (iam_addressing l).
Proof.
  induction hs as [|[k v] hs IH]; intros l; [reflexivity|].
  cbn [fold_left]. rewrite IH. f_equal.
  unfold iam_apply, apply_hint. cbn [fst snd].
  destruct k; try destruct (bacnet_address_mac_from_ascii v); reflexivity.
Qed.

Lemma fold_apply_hint (hs : hints) :
  NoDup (map fst hs) ->
  forall a, fold_left apply_hint hs a = resolved_addressing a hs.
Proof.
  induction hs as [|[k v] hs IH]; intros Hnd a.
  - destruct a. unfold resolved_addressing, parsed_mac. cbn.
    rewrite !orb_false_r. reflexivity.
  - cbn [map fst] in Hnd. inversion Hnd as [|? ? Hk Hnd']; subst.
    cbn [fold_left]. rewrite (IH Hnd').
    pose proof (supplied_absent k hs Hk) as Hs.
    unfold resolved_addressing, parsed_mac, apply_hint. cbn [fst snd supplied].
    destruct k; cbn [hint_option_eqb]; rewrite Hs;
      try destruct (bacnet_address_mac_from_ascii v);
      cbn [specific hop remote network is_some];
      try destruct (dnet_valid (strtol v));
      f_equal; rewrite ?orb_true_r, ?orb_false_r; cbn [orb]; try reflexivity;
      destruct (specific a); reflexivity.
Qed.

End Addressing.

Section Destinations.
Context {ext : Externals}.

Lemma whois_destination_target (l : Whois.locals) :
  Whois.destination l = whois_target (whois_addressing l).
Proof.
  unfold Whois.destination, whois_target, whois_addressing. cbn.
  destruct (Whois.global_broadcast l); reflexivity.
Qed.

Lemma iam_destination_target (l : Iam.locals) :
  Iam.destination l = iam_target (iam_addressing l).
Proof. reflexivity. Qed.

Lemma whois_hints_parsed (hs : hints) :
  NoDup (map fst hs) ->
  exists l,
    Whois.parse_args (hint_args hs) Whois.initial = Parsed l
    /\ whois_addressing l
       = resolved_addressing (whois_addressing Whois.initial) hs.
Proof.
  intros Hnd. exists (fold_left whois_apply hs Whois.initial). split.
  - rewrite <- (app_nil_r (hint_args hs)) at 1. rewrite whois_parse_hints.
    reflexivity.
  - rewrite whois_addressing_fold. apply fold_apply_hint. exact Hnd.
Qed.

Lemma iam_hints_parsed (hs : hints) :
  NoDup (map fst hs) ->
  exists l,
    Iam.parse_args (hint_args hs) Iam.initial = Parsed l
    /\ iam_addressing l = resolved_addressing (iam_addressing Iam.initial) hs.
Proof.
  intros Hnd. exists (fold_left iam_apply hs Iam.initial). split.
  - rewrite <- (app_nil_r (hint_args hs)) at 1. rewrite iam_parse_hints.
    reflexivity.
  - rewrite iam_addressing_fold. apply fold_apply_hint. exact Hnd.
Qed.

Lemma whois_destination_hints (hs : hints) :
  NoDup (map fst hs) ->
  whois_destination (hint_args hs)
  = Some (whois_target (resolved_addressing (whois_addressing Whois.initial) hs)).
Proof.
  intros Hnd. destruct (whois_hints_parsed hs Hnd) as [l [Hp Ha]].
  unfold whois_destination. rewrite Hp, whois_destination_target, Ha.
  reflexivity.
Qed.

Lemma firstn_memcpy (dst src : list Z) (n : Z) :
  (Z.to_nat n <= List.length src)%nat ->
  firstn (Z.to_nat n) (memcpy dst src n) = firstn (Z.to_nat n) src.
Proof.
  intros H. unfold memcpy. rewrite firstn_app, firstn_firstn, Nat.min_id.
  rewrite length_firstn, (Nat.min_l _ _ H), Nat.sub_diag. cbn [firstn].
  apply app_nil_r.
Qed.

(** The three branches of [directed_address] as descriptors. *)
Lemma descriptor_remote_entry (m r : Mac.t) (n : Z) (dest : Addr.t) :
  stored_ok (Some m) -> stored_ok (Some r) ->
  descriptor (directed_address m r n dest)
  = Spec.mkDescriptor (if dnet_valid n then n else 65535)
                      (mac_octets m) (mac_octets r).
Proof.
  intros [Hm Hml] [Hr Hrl]. unfold directed_address.
  destruct (Z.eqb_spec (Mac.len r) 0); [lia|].
  destruct (Z.eqb_spec (Mac.len m) 0); [lia|].
  cbn [negb andb]. unfold descriptor, mac_octets. cbn.
  rewrite !firstn_memcpy by assumption. reflexivity.
Qed.

Lemma descriptor_local_mac (m r : Mac.t) (n : Z) (dest : Addr.t) :
  stored_ok (Some m) -> Mac.len r = 0 ->
  descriptor (directed_address m r n dest)
  = Spec.mkDescriptor (if dnet_valid n then n else 0) (mac_octets m) [].
Proof.
  intros [Hm Hml] Hr. unfold directed_address. rewrite Hr.
  destruct (Z.eqb_spec (Mac.len m) 0); [lia|].
  cbn [Z.eqb negb andb]. unfold descriptor, mac_octets. cbn.
  rewrite !firstn_memcpy by assumption. reflexivity.
Qed.

Lemma directed_address_no_hop (m r : Mac.t) (n : Z) (dest : Addr.t) :
  Mac.len m = 0 ->
  directed_address m r n dest
  = Addr.mk 0 (Addr.mac dest) (if dnet_valid n then n else BACNET_BROADCAST_NETWORK)
            0 (Addr.adr dest).
Proof.
  intros Hm. unfold directed_address. rewrite Hm.
  cbn [Z.eqb negb]. rewrite andb_false_r. reflexivity.
Qed.

End Destinations.

Section Resolution.
Context {ext : Externals}.

Lemma usableNet_hint (hs : hints) :
  Spec.usableNet (hint_of hs)
  = match supplied OptDnet hs with
    | Some v => if dnet_valid (strtol v) then Some (strtol v) else None
    | None => None
    end.
Proof.
  unfold Spec.usableNet, hint_of. cbn [Spec.remoteNet].
  destruct (supplied OptDnet hs); reflexivity.
Qed.

Lemma directed_address_invalid (m r : Mac.t) (n n' : Z) (dest : Addr.t) :
  dnet_valid n = false -> dnet_valid n' = false ->
  directed_address m r n dest = directed_address m r n' dest.
Proof. intros H H'. unfold directed_address. rewrite H, H'. reflexivity. Qed.

Lemma without_fst (k : hint_option) (hs : hints) :
  NoDup (map fst hs) -> NoDup (map fst (without k hs)).
Proof.
  induction hs as [|[k' v] hs IH]; intros H; [constructor|].
  cbn [map fst] in H. inversion H as [|? ? Hk Hnd]; subst.
  unfold without. cbn [filter fst]. fold (without k hs).
  destruct (hint_option_eqb k k'); cbn [negb]; [apply IH; exact Hnd|].
  cbn [map fst]. constructor; [|apply IH; exact Hnd].
  intros Hin. apply Hk. apply in_map_iff in Hin. destruct Hin as [x [Hx Hin]].
  apply in_map_iff. exists x. split; [exact Hx|].
  unfold without in Hin. apply filter_In in Hin. apply Hin.
Qed.

Lemma supplied_without (k k' : hint_option) (hs : hints) :
  supplied k' (without k hs)
  = if hint_option_eqb k k' then None else supplied k' hs.
Proof.
  induction hs as [|[k0 v] hs IH].
  - cbn. destruct (hint_option_eqb k k'); reflexivity.
  - unfold without. cbn [filter fst]. fold (without k hs).
    destruct k, k0, k'; cbn [hint_option_eqb negb supplied] in *;
      try rewrite IH; reflexivity.
Qed.

(** The destination of the Who-Is tool for a list of distinct hints, case
    by case. *)
Lemma whois_target_cases (hs : hints) :
  stored_ok (parsed_mac OptMac hs) ->
  stored_ok (parsed_mac OptDadr hs) ->
  ~ (Spec.localMac (hint_of hs) = None /\ Spec.remoteMac (hint_of hs) <> None) ->
  exists c,
    Spec.resolve (descriptor (datalink_get_broadcast_address zero_address))
                 (hint_of hs)
    = Some (c, descriptor (whois_target
                             (resolved_addressing (whois_addressing Whois.initial)
                                                  hs))).
Proof.
  intros Hm Hr Hcase. unfold Spec.resolve. rewrite usableNet_hint.
  unfold hint_of in *. cbn [Spec.localMac Spec.remoteMac] in *.
  unfold whois_target, resolved_addressing.
  cbn [specific hop remote network whois_addressing Whois.initial
       Whois.global_broadcast Whois.mac Whois.adr Whois.dnet negb orb].
  destruct (parsed_mac OptMac hs) as [m|]; destruct (parsed_mac OptDadr hs) as [r|];
    cbn [option_map is_some orb] in *.
  - eexists. rewrite ?orb_true_r, ?orb_false_r. cbn [orb].
    rewrite descriptor_remote_entry by assumption.
    destruct (supplied OptDnet hs) as [v|]; [|reflexivity].
    destruct (dnet_valid (strtol v)); reflexivity.
  - eexists. rewrite ?orb_true_r, ?orb_false_r. cbn [orb].
    rewrite descriptor_local_mac by (assumption || reflexivity).
    destruct (supplied OptDnet hs) as [v|]; [|reflexivity].
    destruct (dnet_valid (strtol v)); reflexivity.
  - exfalso. apply Hcase. split; [reflexivity|discriminate].
  - rewrite ?orb_true_r, ?orb_false_r.
    destruct (supplied OptDnet hs) as [v|]; [|eexists; reflexivity].
    destruct (dnet_valid (strtol v)) eqn:V; eexists; [|reflexivity].
    rewrite directed_address_no_hop by reflexivity. rewrite V. reflexivity.
Qed.

End Resolution.

(** Claim C4, as amended.  For distinct addressing options, in any order,
    whose MAC values the parser stores as non-empty addresses that fit the
    arrays, the Who-Is tool always computes a destination.  Unless a remote
    MAC comes without a local MAC, the destination is the one that the
    first matching case of section 4.1 describes, the default of case 4
    being the datalink broadcast address.  A network number that is out of
    range gives the same destination as no network number; without MAC
    hints and without a valid network number the destination is the
    broadcast address of the datalink. *)
Theorem address_resolution_cases (ext : Externals) (hs : hints) :
  NoDup (map fst hs) ->
  stored_ok (parsed_mac OptMac hs) ->
  stored_ok (parsed_mac OptDadr hs) ->
  exists dest,
    whois_destination (hint_args hs) = Some dest
    /\ (~ (Spec.localMac (hint_of hs) = None
           /\ Spec.remoteMac (hint_of hs) <> None) ->
        exists c,
          Spec.resolve (descriptor (datalink_get_broadcast_address zero_address))
                       (hint_of hs)
          = Some (c, descriptor dest))
    /\ (Spec.usableNet (hint_of hs) = None ->
        whois_destination (hint_args (without OptDnet hs)) = Some dest)
    /\ (Spec.localMac (hint_of hs) = None ->
        Spec.remoteMac (hint_of hs) = None ->
        Spec.usableNet (hint_of hs) = None ->
        dest = datalink_get_broadcast_address zero_address).
Proof.
  intros Hnd Hm Hr.
  exists (whois_target (resolved_addressing (whois_addressing Whois.initial) hs)).
  split; [apply whois_destination_hints; exact Hnd|].
  split; [apply whois_target_cases; assumption|].
  split.
  - intros Hu. rewrite usableNet_hint in Hu.
    rewrite whois_destination_hints by (apply without_fst; exact Hnd).
    f_equal. unfold resolved_addressing, parsed_mac.
    rewrite !supplied_without. cbn [hint_option_eqb].
    unfold whois_target. cbn [specific hop remote network].
    destruct (supplied OptDnet hs) as [v|]; [|reflexivity].
    destruct (dnet_valid (strtol v)) eqn:V; [discriminate|].
    rewrite (directed_address_invalid _ _ (strtol v) (-1)) by (exact V || reflexivity).
    reflexivity.
  - intros Hl Hrm Hu. rewrite usableNet_hint in Hu.
    unfold hint_of in Hl, Hrm. cbn [Spec.localMac Spec.remoteMac] in Hl, Hrm.
    unfold whois_target, resolved_addressing.
    cbn [specific whois_addressing Whois.initial Whois.global_broadcast negb orb].
    destruct (parsed_mac OptMac hs); [discriminate|].
    destruct (parsed_mac OptDadr hs); [discriminate|].
    destruct (supplied OptDnet hs) as [v|]; [|reflexivity].
    destruct (dnet_valid (strtol v)); [discriminate|reflexivity].
Qed.

Lemma address_resolution_cases_witness :
  let hs := [(OptDnet, "70000")] in
  let hs' := [(OptDadr, "05"); (OptMac, "0A"); (OptDnet, "123")] in
  (NoDup (map fst hs)
   /\ stored_ok (parsed_mac (ext := Demo.externals) OptMac hs)
   /\ stored_ok (parsed_mac (ext := Demo.externals) OptDadr hs)
   /\ exists dest,
       whois_destination (ext := Demo.externals) ["--dnet"; "70000"] = Some dest
       /\ Addr.net dest = 65535 /\ Addr.mac_len dest = 0 /\ Addr.len dest = 0)
  /\ (NoDup (map fst hs')
      /\ stored_ok (parsed_mac (ext := Demo.externals) OptMac hs')
      /\ stored_ok (parsed_mac (ext := Demo.externals) OptDadr hs')
      /\ exists dest,
          whois_destination (ext := Demo.externals)
                            ["--dadr"; "05"; "--mac"; "0A"; "--dnet"; "123"]
          = Some dest
          /\ Spec.resolve (descriptor (Demo.broadcast_address
                                         (zero_address (ext := Demo.externals))))
                          (hint_of (ext := Demo.externals) hs')
             = Some (Spec.RemoteEntry, descriptor dest)
          /\ descriptor dest = Spec.mkDescriptor 123 [10] [5]).
Proof.
  cbv zeta. split.
  - assert (Hnd : NoDup (map fst [(OptDnet, "70000")]))
      by (constructor; [intros []|constructor]).
    split; [exact Hnd|]. split; [exact I|]. split; [exact I|].
    destruct (address_resolution_cases Demo.externals [(OptDnet, "70000")] Hnd I I)
      as [dest [Hd [_ [_ Hb]]]].
    exists dest. split; [exact Hd|].
    rewrite (Hb eq_refl eq_refl eq_refl). repeat split.
  - assert (Hnd : NoDup (map fst [(OptDadr, "05"); (OptMac, "0A"); (OptDnet, "123")])).
    { constructor; [intros [H|[H|[]]]; discriminate H|].
      constructor; [intros [H|[]]; discriminate H|].
      constructor; [intros []|constructor]. }
    assert (Hm : stored_ok (parsed_mac (ext := Demo.externals) OptMac
                              [(OptDadr, "05"); (OptMac, "0A"); (OptDnet, "123")]))
      by (cbv; split; [reflexivity|lia]).
    assert (Hr : stored_ok (parsed_mac (ext := Demo.externals) OptDadr
                              [(OptDadr, "05"); (OptMac, "0A"); (OptDnet, "123")]))
      by (cbv; split; [reflexivity|lia]).
    split; [exact Hnd|]. split; [exact Hm|]. split; [exact Hr|].
    destruct (address_resolution_cases Demo.externals
                [(OptDadr, "05"); (OptMac, "0A"); (OptDnet, "123")] Hnd Hm Hr)
      as [dest [Hd [Hc _]]].
    exists dest. split; [exact Hd|].
    destruct Hc as [c Hc]; [intros [H _]; discriminate H|].
    assert (Hv : Some (Spec.RemoteEntry, Spec.mkDescriptor 123 [10] [5])
                 = Some (c, descriptor dest)) by exact Hc.
    assert (Hcd : c = Spec.RemoteEntry
                  /\ descriptor dest = Spec.mkDescriptor 123 [10] [5])
      by (split; congruence).
    destruct Hcd as [-> Hdd]. split; [exact Hc|exact Hdd].
Defined.

(** Claim C4 as stated fails: a remote MAC without a local MAC is none of
    the four cases, and the tool computes a destination all the same. *)
Lemma address_resolution_counterexample :
  (forall default,
      ~ exists c d,
          Spec.resolve default (hint_of (ext := Demo.externals) [(OptDadr, "05")])
          = Some (c, d))
  /\ whois_destination (ext := Demo.externals) ["--dadr"; "05"]
     = Some (Addr.mk 0 [0; 0; 0; 0; 0; 0; 0] 65535 0 [0; 0; 0; 0; 0; 0; 0]).
Proof.
  split; [|reflexivity].
  intros default [c [d H]]. discriminate H.
Qed.

(** Claim C10.  When [--dadr] is given with a value the parser accepts and
    [--mac] is not given, both tools leave their default behind
    ([global_broadcast] is false, [specific_address] true) and store the
    remote MAC in [adr], but the destination has neither MAC nor remote
    address: its network number is the one of [--dnet] when that is in
    range and the broadcast network otherwise.  None of the four cases of
    section 4.1 names this combination. *)
Theorem remote_mac_without_local_mac (ext : Externals) (hs : hints) (m : Mac.t) :
  NoDup (map fst hs) ->
  parsed_mac OptDadr hs = Some m ->
  supplied OptMac hs = None ->
  let expected :=
      Addr.mk 0 (repeat 0 MAX_MAC_LEN)
              (match Spec.usableNet (hint_of hs) with
               | Some n => n
               | None => BACNET_BROADCAST_NETWORK
               end)
              0 (repeat 0 MAX_MAC_LEN) in
  (exists l, Whois.parse_args (hint_args hs) Whois.initial = Parsed l
             /\ Whois.global_broadcast l = false
             /\ Whois.adr l = m
             /\ Whois.destination l = expected)
  /\ (exists l, Iam.parse_args (hint_args hs) Iam.initial = Parsed l
                /\ Iam.specific_address l = true
                /\ Iam.adr l = m
                /\ Iam.destination l = expected)
  /\ (forall default, Spec.resolve default (hint_of hs) = None).
Proof.
  intros Hnd Hdadr Hmac expected.
  assert (Hres : forall a,
             Mac.len (hop a) = 0 -> dnet_valid (network a) = false ->
             let a' := resolved_addressing a hs in
             specific a' = true /\ remote a' = m
             /\ directed_address (hop a') (remote a') (network a') zero_address
                = expected).
  { intros a Ha Hn. unfold resolved_addressing, parsed_mac in *.
    rewrite Hmac, Hdadr. cbn [specific hop remote network is_some].
    split; [apply orb_true_r|]. split; [reflexivity|].
    rewrite directed_address_no_hop by exact Ha.
    subst expected. rewrite usableNet_hint.
    destruct (supplied OptDnet hs) as [v|]; [|rewrite Hn; reflexivity].
    destruct (dnet_valid (strtol v)); reflexivity. }
  split; [|split].
  - destruct (whois_hints_parsed hs Hnd) as [l [Hp Ha]].
    destruct (Hres (whois_addressing Whois.initial) eq_refl eq_refl) as [Hs [Hr Hd]].
    exists l. split; [exact Hp|].
    rewrite whois_destination_target, Ha.
    rewrite <- Ha in Hs, Hr. cbn [whois_addressing specific remote] in Hs, Hr.
    split; [apply negb_true_iff; exact Hs|]. split; [exact Hr|].
    unfold whois_target. rewrite <- Ha. cbn [whois_addressing specific].
    rewrite Hs, Ha. exact Hd.
  - destruct (iam_hints_parsed hs Hnd) as [l [Hp Ha]].
    destruct (Hres (iam_addressing Iam.initial) eq_refl eq_refl) as [Hs [Hr Hd]].
    exists l. split; [exact Hp|].
    rewrite iam_destination_target, Ha.
    rewrite <- Ha in Hs, Hr. cbn [iam_addressing specific remote] in Hs, Hr.
    split; [exact Hs|]. split; [exact Hr|].
    unfold iam_target. rewrite <- Ha. cbn [iam_addressing specific].
    rewrite Hs, Ha. exact Hd.
  - intros default. unfold Spec.resolve, hint_of, parsed_mac.
    cbn [Spec.localMac Spec.remoteMac]. rewrite Hmac. unfold parsed_mac in Hdadr.
    rewrite Hdadr. reflexivity.
Qed.

Lemma remote_mac_without_local_mac_witness :
  let hs := [(OptDadr, "05"); (OptDnet, "123")] in
  let m := Mac.mk 1 [5; 0; 0; 0; 0; 0; 0] in
  let expected := Addr.mk 0 [0; 0; 0; 0; 0; 0; 0] 123 0 [0; 0; 0; 0; 0; 0; 0] in
  NoDup (map fst hs)
  /\ parsed_mac (ext := Demo.externals) OptDadr hs = Some m
  /\ supplied OptMac hs = None
  /\ (exists l, Whois.parse_args (ext := Demo.externals)
                                 ["--dadr"; "05"; "--dnet"; "123"]
                                 (Whois.initial (ext := Demo.externals)) = Parsed l
                /\ Whois.global_broadcast l = false
                /\ Whois.adr l = m
                /\ Whois.destination (ext := Demo.externals) l = expected)
  /\ (exists l, Iam.parse_args (ext := Demo.externals)
                               ["--dadr"; "05"; "--dnet"; "123"]
                               (Iam.initial (ext := Demo.externals)) = Parsed l
                /\ Iam.specific_address l = true
                /\ Iam.adr l = m
                /\ Iam.destination (ext := Demo.externals) l = expected).
Proof.
  cbv zeta.
  assert (Hnd : NoDup (map fst [(OptDadr, "05"); (OptDnet, "123")])).
  { constructor; [intros [H|[]]; discriminate H|].
    constructor; [intros []|constructor]. }
  split; [exact Hnd|]. split; [reflexivity|]. split; [reflexivity|].
  pose proof (remote_mac_without_local_mac Demo.externals
                [(OptDadr, "05"); (OptDnet, "123")]
                (Mac.mk 1 [5; 0; 0; 0; 0; 0; 0]) Hnd eq_refl eq_refl)
    as [Hw [Hi _]].
  split; [exact Hw|exact Hi].
Defined.

(** ** Too many positional arguments *)

Section Usage.
Context {ext : Externals}.

Lemma before_excess_skip (limit : nat) (t : token) (toks pre : list token) :
  t <> Positional ->
  before_excess limit (t :: toks) = Some pre ->
  exists pre', before_excess limit toks = Some pre' /\ pre = t :: pre'.
Proof.
  intros Ht H. cbn [before_excess] in H.
  destruct (before_excess limit toks) as [pre'|].
  - exists pre'. split; [reflexivity|]. destruct t; try congruence; inversion H; reflexivity.
  - destruct t; try discriminate. congruence.
Qed.

Lemma returns_early_info {L : Type} (pre : list token) (r : parsed L) :
  r = Exit 0 [UsageText; HelpText] \/ r = Exit 0 [VersionText] ->
  returns_early (Info :: pre) r.
Proof. intros H. exact H. Qed.

Lemma returns_early_skip {L : Type} (t : token) (pre : list token) (r : parsed L) :
  t <> Info -> returns_early pre r -> returns_early (t :: pre) r.
Proof.
  intros Ht H. unfold returns_early, has_info in *. cbn [existsb].
  destruct t; try congruence; exact H.
Qed.

Lemma whois_parse_excess (n : nat) :
  forall argv l pre,
    (List.length argv <= n)%nat ->
    before_excess (whois_room l) (whois_tokens argv) = Some pre ->
    returns_early pre (Whois.parse_args argv l).
Proof.
  induction n as [|n IH]; intros argv l pre Hlen Hpre;
    (destruct argv as [|arg rest]; [discriminate Hpre|]);
    [cbn in Hlen; lia|].
  cbn [List.length] in Hlen.
  unfold whois_tokens in Hpre. cbn [tokens mem existsb] in Hpre.
  cbn [Whois.parse_args].
  destruct (String.eqb arg "--help") eqn:E1.
  { cbn [orb] in Hpre. apply before_excess_skip in Hpre; [|discriminate].
    destruct Hpre as [pre' [_ ->]]. apply returns_early_info. left. reflexivity. }
  destruct (String.eqb arg "--version") eqn:E2.
  { cbn [orb] in Hpre. apply before_excess_skip in Hpre; [|discriminate].
    destruct Hpre as [pre' [_ ->]]. apply returns_early_info. right. reflexivity. }
  cbn [orb] in Hpre.
  assert (Hval : forall l',
             whois_room l' = whois_room l ->
             before_excess (whois_room l)
               (Opt :: match rest with
                       | [] => []
                       | _ :: rest' => whois_tokens rest'
                       end) = Some pre ->
             returns_early pre
               match rest with
               | [] => Parsed l
               | _ :: rest' => Whois.parse_args rest' l'
               end).
  { intros l' Hroom H. apply before_excess_skip in H; [|discriminate].
    destruct H as [pre' [H ->]]. apply returns_early_skip; [discriminate|].
    destruct rest as [|v rest']; [discriminate H|].
    apply IH; [cbn [List.length] in Hlen; lia|]. rewrite Hroom. exact H. }
  destruct (String.eqb arg "--mac") eqn:E3.
  { cbn [orb] in Hpre.
    destruct rest as [|v rest']; (eapply Hval; [|exact Hpre]); try reflexivity.
    destruct (bacnet_address_mac_from_ascii v); reflexivity. }
  destruct (String.eqb arg "--dnet") eqn:E4.
  { cbn [orb] in Hpre.
    destruct rest as [|v rest']; (eapply Hval; [|exact Hpre]); reflexivity. }
  destruct (String.eqb arg "--dadr") eqn:E5.
  { cbn [orb] in Hpre.
    destruct rest as [|v rest']; (eapply Hval; [|exact Hpre]); try reflexivity.
    destruct (bacnet_address_mac_from_ascii v); reflexivity. }
  destruct (String.eqb arg "--repeat") eqn:E6.
  { apply String.eqb_eq in E6. subst arg.
    change (before_excess (whois_room l) (Opt :: whois_tokens rest) = Some pre)
      in Hpre.
    apply before_excess_skip in Hpre; [|discriminate].
    destruct Hpre as [pre' [H ->]]. apply returns_early_skip; [discriminate|].
    apply IH; [lia|]. exact H. }
  destruct (String.eqb arg "--retry") eqn:E7.
  { cbn [orb] in Hpre.
    destruct rest as [|v rest']; (eapply Hval; [|exact Hpre]); reflexivity. }
  destruct (String.eqb arg "--timeout") eqn:E8.
  { cbn [orb] in Hpre.
    destruct rest as [|v rest']; (eapply Hval; [|exact Hpre]); reflexivity. }
  destruct (String.eqb arg "--delay") eqn:E9.
  { cbn [orb] in Hpre.
    destruct rest as [|v rest']; (eapply Hval; [|exact Hpre]); reflexivity. }
  cbn [orb] in Hpre. fold whois_tokens in Hpre. clear Hval.
  unfold whois_room in Hpre. cbn [before_excess] in Hpre.
  destruct (Whois.target_args l =? 0) eqn:T0.
  { cbn [orb]. destruct (before_excess 1 (whois_tokens rest)) as [pre'|] eqn:B;
      [|discriminate Hpre].
    injection Hpre as <-. apply returns_early_skip; [discriminate|].
    apply IH; [lia|]. rewrite <- B. f_equal.
    unfold whois_room, Whois.set_target. rewrite T0. cbn.
    apply Z.eqb_eq in T0. rewrite T0. reflexivity. }
  destruct (Whois.target_args l =? 1) eqn:T1.
  { cbn [orb]. destruct (before_excess 0 (whois_tokens rest)) as [pre'|] eqn:B;
      [|discriminate Hpre].
    injection Hpre as <-. apply returns_early_skip; [discriminate|].
    apply IH; [lia|]. rewrite <- B. f_equal.
    unfold whois_room, Whois.set_target. rewrite T0. cbn.
    apply Z.eqb_eq in T1. rewrite T1. reflexivity. }
  cbn [orb]. injection Hpre as <-. reflexivity.
Qed.

Lemma iam_parse_excess (n : nat) :
  forall argv l pre,
    (List.length argv <= n)%nat ->
    before_excess (iam_room l) (iam_tokens argv) = Some pre ->
    returns_early pre (Iam.parse_args argv l).
Proof.
  induction n as [|n IH]; intros argv l pre Hlen Hpre;
    (destruct argv as [|arg rest]; [discriminate Hpre|]);
    [cbn in Hlen; lia|].
  cbn [List.length] in Hlen.
  unfold iam_tokens in Hpre. cbn [tokens mem existsb] in Hpre.
  cbn [Iam.parse_args].
  destruct (String.eqb arg "--help") eqn:E1.
  { cbn [orb] in Hpre. apply before_excess_skip in Hpre; [|discriminate].
    destruct Hpre as [pre' [_ ->]]. apply returns_early_info. left. reflexivity. }
  destruct (String.eqb arg "--version") eqn:E2.
  { cbn [orb] in Hpre. apply before_excess_skip in Hpre; [|discriminate].
    destruct Hpre as [pre' [_ ->]]. apply returns_early_info. right. reflexivity. }
  cbn [orb] in Hpre.
  assert (Hval : forall l',
             iam_room l' = iam_room l ->
             before_excess (iam_room l)
               (Opt :: match rest with
                       | [] => []
                       | _ :: rest' => iam_tokens rest'
                       end) = Some pre ->
             returns_early pre
               match rest with
               | [] => Parsed l
               | _ :: rest' => Iam.parse_args rest' l'
               end).
  { intros l' Hroom H. apply before_excess_skip in H; [|discriminate].
    destruct H as [pre' [H ->]]. apply returns_early_skip; [discriminate|].
    destruct rest as [|v rest']; [discriminate H|].
    apply IH; [cbn [List.length] in Hlen; lia|]. rewrite Hroom. exact H. }
  destruct (String.eqb arg "--mac") eqn:E3.
  { cbn [orb] in Hpre.
    destruct rest as [|v rest']; (eapply Hval; [|exact Hpre]); try reflexivity.
    destruct (bacnet_address_mac_from_ascii v); reflexivity. }
  destruct (String.eqb arg "--dnet") eqn:E4.
  { cbn [orb] in Hpre.
    destruct rest as [|v rest']; (eapply Hval; [|exact Hpre]); reflexivity. }
  destruct (String.eqb arg "--dadr") eqn:E5.
  { cbn [orb] in Hpre.
    destruct rest as [|v rest']; (eapply Hval; [|exact Hpre]); try reflexivity.
    destruct (bacnet_address_mac_from_ascii v); reflexivity. }
  destruct (String.eqb arg "--repeat") eqn:E6.
  { apply String.eqb_eq in E6. subst arg.
    change (before_excess (iam_room l) (Opt :: iam_tokens rest) = Some pre)
      in Hpre.
    apply before_excess_skip in Hpre; [|discriminate].
    destruct Hpre as [pre' [H ->]]. apply returns_early_skip; [discriminate|].
    apply IH; [lia|]. exact H. }
  destruct (String.eqb arg "--retry") eqn:E7.
  { cbn [orb] in Hpre.
    destruct rest as [|v rest']; (eapply Hval; [|exact Hpre]); reflexivity. }
  destruct (String.eqb arg "--delay") eqn:E8.
  { cbn [orb] in Hpre.
    destruct rest as [|v rest']; (eapply Hval; [|exact Hpre]); reflexivity. }
  cbn [orb] in Hpre. fold iam_tokens in Hpre. clear Hval.
  unfold iam_room in Hpre. cbn [before_excess] in Hpre.
  assert (Hnext : forall k pre',
             before_excess k (iam_tokens rest) = Some pre' ->
             iam_room (Iam.set_target (strtol arg) l) = k ->
             returns_early (Positional :: pre')
                           (Iam.parse_args rest (Iam.set_target (strtol arg) l))).
  { intros k pre' B Hk. apply returns_early_skip; [discriminate|].
    apply IH; [lia|]. rewrite Hk. exact B. }
  destruct (Iam.target_args l =? 0) eqn:T0.
  { cbn [orb]. destruct (before_excess 3 (iam_tokens rest)) as [pre'|] eqn:B;
      [|discriminate Hpre].
    injection Hpre as <-. apply (Hnext 3%nat _ B).
    unfold iam_room, Iam.set_target. rewrite T0. cbn.
    apply Z.eqb_eq in T0. rewrite T0. reflexivity. }
  destruct (Iam.target_args l =? 1) eqn:T1.
  { cbn [orb]. destruct (before_excess 2 (iam_tokens rest)) as [pre'|] eqn:B;
      [|discriminate Hpre].
    injection Hpre as <-. apply (Hnext 2%nat _ B).
    unfold iam_room, Iam.set_target. rewrite T0, T1. cbn.
    apply Z.eqb_eq in T1. rewrite T1. reflexivity. }
  destruct (Iam.target_args l =? 2) eqn:T2.
  { cbn [orb]. destruct (before_excess 1 (iam_tokens rest)) as [pre'|] eqn:B;
      [|discriminate Hpre].
    injection Hpre as <-. apply (Hnext 1%nat _ B).
    unfold iam_room, Iam.set_target. rewrite T0, T1, T2. cbn.
    apply Z.eqb_eq in T2. rewrite T2. reflexivity. }
  destruct (Iam.target_args l =? 3) eqn:T3.
  { cbn [orb]. destruct (before_excess 0 (iam_tokens rest)) as [pre'|] eqn:B;
      [|discriminate Hpre].
    injection Hpre as <-. apply (Hnext 0%nat _ B).
    unfold iam_room, Iam.set_target. rewrite T0, T1, T2. cbn.
    apply Z.eqb_eq in T3. rewrite T3. reflexivity. }
  cbn [orb]. injection Hpre as <-. reflexivity.
Qed.

Lemma before_excess_some (toks : list token) :
  forall limit,
    (limit < positionals toks)%nat ->
    exists pre, before_excess limit toks = Some pre.
Proof.
  unfold positionals.
  induction toks as [|t toks IH]; intros limit H; [cbn in H; lia|].
  destruct t; cbn [filter token_eqb List.length before_excess] in *.
  - destruct (IH limit H) as [pre ->]. eexists. reflexivity.
  - destruct (IH limit H) as [pre ->]. eexists. reflexivity.
  - destruct limit as [|k]; [eexists; reflexivity|].
    destruct (IH k ltac:(lia)) as [pre ->]. eexists. reflexivity.
Qed.

End Usage.

(** Claim C9, as amended.  A command line with more positional arguments
    than the tool accepts (two for Who-Is, four for I-Am) makes [main]
    return from the option loop, before anything is sent or received and
    before the datalink is set up: with exit code 1 after the usage text,
    unless [--help] or [--version] stands before the first argument too
    many, in which case the help or version text is printed and the exit
    code is 0. *)
Theorem excess_positional_arguments
        (ext : Externals) (argv : list string) (polls : list poll) :
  ((2 < positionals (whois_tokens argv))%nat ->
   exists pre,
     before_excess 2 (whois_tokens argv) = Some pre
     /\ stops_early pre (Whois.main argv polls))
  /\ ((4 < positionals (iam_tokens argv))%nat ->
      exists pre,
        before_excess 4 (iam_tokens argv) = Some pre
        /\ stops_early pre (Iam.main argv polls)).
Proof.
  split; intros H.
  - destruct (before_excess_some _ _ H) as [pre Hpre]. exists pre.
    split; [exact Hpre|].
    pose proof (whois_parse_excess _ argv Whois.initial pre (Nat.le_refl _) Hpre)
      as Hr.
    unfold stops_early, returns_early, Whois.main in *.
    destruct (has_info pre); [destruct Hr as [-> | ->]; auto|rewrite Hr; reflexivity].
  - destruct (before_excess_some _ _ H) as [pre Hpre]. exists pre.
    split; [exact Hpre|].
    pose proof (iam_parse_excess _ argv Iam.initial pre (Nat.le_refl _) Hpre)
      as Hr.
    unfold stops_early, returns_early, Iam.main in *.
    destruct (has_info pre); [destruct Hr as [-> | ->]; auto|rewrite Hr; reflexivity].
Qed.

Lemma excess_positional_arguments_witness :
  (2 < positionals (whois_tokens ["1"; "2"; "--mac"; "05"; "3"; "--help"]))%nat
  /\ Whois.main (ext := Demo.externals) ["1"; "2"; "--mac"; "05"; "3"; "--help"]
                [Demo.silence true]
     = Finished 1 [UsageText] []
  /\ (4 < positionals (iam_tokens ["1"; "2"; "3"; "0"; "--timeout"; "9"]))%nat
  /\ Iam.main (ext := Demo.externals) ["1"; "2"; "3"; "0"; "--timeout"; "9"]
              [Demo.silence true]
     = Finished 1 [UsageText] [].
Proof.
  assert (Hw : (2 < positionals
                      (whois_tokens ["1"; "2"; "--mac"; "05"; "3"; "--help"]))%nat)
    by (vm_compute; lia).
  assert (Hi : (4 < positionals
                      (iam_tokens ["1"; "2"; "3"; "0"; "--timeout"; "9"]))%nat)
    by (vm_compute; lia).
  split; [exact Hw|].
  split.
  - destruct (proj1 (excess_positional_arguments Demo.externals
                       ["1"; "2"; "--mac"; "05"; "3"; "--help"]
                       [Demo.silence true]) Hw) as [pre [Hpre Hstop]].
    injection Hpre as <-. exact Hstop.
  - split; [exact Hi|].
    destruct (proj2 (excess_positional_arguments Demo.externals
                       ["1"; "2"; "3"; "0"; "--timeout"; "9"]
                       [Demo.silence true]) Hi) as [pre [Hpre Hstop]].
    injection Hpre as <-. exact Hstop.
Defined.

(** Claim C9 as stated fails: with [--help] in front, three positional
    arguments do not make the Who-Is tool exit with code 1. *)
Lemma excess_positional_arguments_counterexample :
  (2 < positionals (whois_tokens ["--help"; "1"; "2"; "3"]))%nat
  /\ Whois.main (ext := Demo.externals) ["--help"; "1"; "2"; "3"] []
     = Finished 0 [UsageText; HelpText] []
  /\ Whois.main (ext := Demo.externals) ["--help"; "1"; "2"; "3"] []
     <> Finished 1 [UsageText] [].
Proof.
  split; [vm_compute; lia|]. split; [reflexivity|discriminate].
Qed.

(** * Further properties *)

(** ** The address table *)

Section TableGrowth.
Context {ext : Externals}.

Lemma scan_table_nth (id : Z) (src : Addr.t) (l : list address_entry) :
  forall flags n e,
    nth_error l n = Some e ->
    exists e',
      nth_error (fst (scan_table id src l flags)) n = Some e'
      /\ entry_key e' = entry_key e
      /\ (is_duplicate e = true -> is_duplicate e' = true).
Proof.
  induction l as [|p next IH]; intros flags n e Hn; [destruct n; discriminate|].
  cbn [scan_table].
  destruct (device_id p =? id).
  - destruct (bacnet_address_same (address p) src).
    + exists e. cbn [fst]. auto.
    + pose proof (IH (Z.lor flags BAC_ADDRESS_MULT)) as IH'.
      destruct (scan_table id src next (Z.lor flags BAC_ADDRESS_MULT)) as [next' r].
      cbn [fst] in *. destruct n as [|n].
      * injection Hn as <-. eexists. split; [reflexivity|].
        split; [reflexivity|]. intros _. apply is_duplicate_mark.
      * apply (IH' n e Hn).
  - pose proof (IH flags) as IH'.
    destruct (scan_table id src next flags) as [next' r].
    cbn [fst] in *. destruct n as [|n].
    + injection Hn as <-. exists p. auto.
    + apply (IH' n e Hn).
Qed.

Lemma scan_table_keys (id : Z) (src : Addr.t) (l : list address_entry) :
  forall flags,
    map entry_key (fst (scan_table id src l flags)) = map entry_key l.
Proof.
  induction l as [|p next IH]; intros flags; [reflexivity|].
  cbn [scan_table].
  destruct (device_id p =? id).
  - destruct (bacnet_address_same (address p) src); [reflexivity|].
    specialize (IH (Z.lor flags BAC_ADDRESS_MULT)).
    destruct (scan_table id src next (Z.lor flags BAC_ADDRESS_MULT)).
    cbn [fst map] in *. rewrite IH. reflexivity.
  - specialize (IH flags). destruct (scan_table id src next flags).
    cbn [fst map] in *. rewrite IH. reflexivity.
Qed.

Lemma address_table_add_shape (id apdu : Z) (src : Addr.t) (tbl : address_table) :
  address_table_add id apdu src tbl = fst (scan_table id src tbl 0)
  \/ exists flags,
      address_table_add id apdu src tbl
      = fst (scan_table id src tbl 0) ++ [mkEntry flags id apdu src].
Proof.
  unfold address_table_add, alloc_address_entry.
  destruct (scan_table id src tbl 0) as [tbl' [|flags]]; cbn [fst].
  - left. reflexivity.
  - right. exists flags. rewrite update_last_app. reflexivity.
Qed.

Lemma map_mark_other (id : Z) (tbl : address_table) :
  has_id id tbl = false -> map (mark id) tbl = tbl.
Proof.
  unfold has_id. induction tbl as [|e tbl IH]; intros H; [reflexivity|].
  cbn [existsb map] in *. apply orb_false_iff in H. destruct H as [He Ht].
  unfold mark at 1. rewrite He, (IH Ht). reflexivity.
Qed.

Lemma apart_app (l : address_table) (x : address_entry) :
  apart (l ++ [x])
  <-> apart l
      /\ (forall e, In e l -> device_id x = device_id e ->
                    bacnet_address_same (address e) (address x) = false).
Proof.
  induction l as [|a l IH]; cbn [app apart].
  - split; [intros _; split; [exact I|intros e []]|intros _; split; [intros e' []|exact I]].
  - rewrite IH. split.
    + intros [Ha [Hl Hx]]. split.
      * split; [|exact Hl]. intros e' Hin. apply Ha. apply in_or_app. left. exact Hin.
      * intros e [<- | Hin] Hid; [|apply Hx; assumption].
        apply Ha; [apply in_or_app; right; left; reflexivity|exact Hid].
    + intros [[Ha Hl] Hx]. split; [|split; [exact Hl|]].
      * intros e' Hin Hid. apply in_app_or in Hin. destruct Hin as [Hin | [<- | []]].
        -- apply Ha; assumption.
        -- apply Hx; [left; reflexivity|exact Hid].
      * intros e Hin. apply Hx. right. exact Hin.
Qed.

Lemma apart_mark (id : Z) (l : address_table) :
  apart l -> apart (map (mark id) l).
Proof.
  induction l as [|a l IH]; [intros _; exact I|].
  cbn [map apart]. intros [Ha Hl]. split; [|apply IH; exact Hl].
  intros e' Hin Hid. apply in_map_iff in Hin. destruct Hin as [x [<- Hx]].
  rewrite !mark_device_id in Hid.
  assert (Hadr : forall e, address (mark id e) = address e)
    by (intros e; unfold mark; destruct (device_id e =? id); reflexivity).
  rewrite !Hadr. apply Ha; assumption.
Qed.

Lemma apart_add (id apdu : Z) (src : Addr.t) (tbl : address_table) :
  flags_exact tbl -> apart tbl -> apart (address_table_add id apdu src tbl).
Proof.
  intros Hinv Hap. destruct (holds_pair id src tbl) eqn:Hp.
  - rewrite address_table_add_noop; [assumption..|].
    apply holds_pair_true. exact Hp.
  - rewrite address_table_add_fresh by (apply holds_pair_false; exact Hp).
    apply apart_app. split; [apply apart_mark; exact Hap|].
    intros e Hin Hid. apply in_map_iff in Hin. destruct Hin as [x [<- Hx]].
    rewrite mark_device_id in Hid. cbn [device_id address] in *.
    replace (address (mark id x)) with (address x)
      by (unfold mark; destruct (device_id x =? id); reflexivity).
    apply (holds_pair_false id src tbl Hp x Hx). symmetry. exact Hid.
Qed.

Lemma apart_record_all (calls : list (Z * Z * Addr.t)) :
  forall tbl, flags_exact tbl -> apart tbl ->
              apart (record_all calls tbl).
Proof.
  induction calls as [|c calls IH]; intros tbl Hinv Hap; [exact Hap|].
  cbn [record_all fold_left]. apply IH.
  - apply flags_exact_add. exact Hinv.
  - apply apart_add; assumption.
Qed.

Lemma apart_split (l1 l2 l3 : address_table) (e1 e2 : address_entry) :
  apart (l1 ++ e1 :: l2 ++ e2 :: l3) ->
  device_id e1 = device_id e2 ->
  bacnet_address_same (address e1) (address e2) = false.
Proof.
  induction l1 as [|a l1 IH]; cbn [app apart].
  - intros [H _] Hid. apply H; [|symmetry; exact Hid].
    apply in_or_app. right. left. reflexivity.
  - intros [_ H]. apply IH. exact H.
Qed.


Lemma flags_exact_is_duplicate (tbl : address_table) (e : address_entry) :
  flags_exact tbl -> In e tbl ->
  is_duplicate e = (2 <=? count_id (device_id e) tbl)%nat.
Proof.
  intros Hinv Hin. unfold flags_exact in Hinv. rewrite Forall_forall in Hinv.
  unfold is_duplicate. rewrite (Hinv e Hin).
  destruct (2 <=? count_id (device_id e) tbl)%nat; reflexivity.
Qed.

End TableGrowth.

(** Property X1.  Whatever the table, [address_table_add] keeps every node
    in its place with its device identifier, APDU size and address, never
    clears a duplicate flag, and adds at most one node, at the tail, which
    then carries the arguments of the call. *)
Theorem table_only_grows
        (ext : Externals) (id apdu : Z) (src : Addr.t) (tbl : address_table) :
  (exists tail,
      map entry_key (address_table_add id apdu src tbl) = map entry_key tbl ++ tail
      /\ (tail = [] \/ tail = [(id, apdu, src)]))
  /\ (forall n e,
         nth_error tbl n = Some e ->
         exists e',
           nth_error (address_table_add id apdu src tbl) n = Some e'
           /\ entry_key e' = entry_key e
           /\ (is_duplicate e = true -> is_duplicate e' = true)).
Proof.
  destruct (address_table_add_shape id apdu src tbl) as [H | [flags H]];
    rewrite H; split.
  - exists []. rewrite app_nil_r. split; [apply scan_table_keys|left; reflexivity].
  - intros n e Hn. apply scan_table_nth. exact Hn.
  - exists [(id, apdu, src)]. rewrite map_app, scan_table_keys.
    split; [reflexivity|right; reflexivity].
  - intros n e Hn.
    destruct (scan_table_nth id src tbl 0 n e Hn) as [e' [Hn' Hk]].
    exists e'. split; [|exact Hk].
    rewrite nth_error_app1; [exact Hn'|].
    apply nth_error_Some. rewrite Hn'. discriminate.
Qed.

(** Property X2.  After [address_table_add], whatever the table was, some
    node has the device identifier of the call and either the very address
    of the call or one that [bacnet_address_same] takes for it. *)
Theorem added_pair_is_held
        (ext : Externals) (id apdu : Z) (src : Addr.t) (tbl : address_table) :
  exists e,
    In e (address_table_add id apdu src tbl)
    /\ device_id e = id
    /\ (address e = src \/ bacnet_address_same (address e) src = true).
Proof.
  destruct (holds_pair id src tbl) eqn:Hp.
  - apply holds_pair_true in Hp. destruct Hp as [e [Hin [Hid Hsame]]].
    apply In_nth_error in Hin. destruct Hin as [n Hn].
    destruct (address_table_add_shape id apdu src tbl) as [H | [flags H]];
      rewrite H;
      destruct (scan_table_nth id src tbl 0 n e Hn) as [e' [Hn' [Hk _]]];
      exists e'; unfold entry_key in Hk; injection Hk as Hk1 _ Hk3;
      (split; [|split; [congruence|right; congruence]]).
    + eapply nth_error_In. exact Hn'.
    + apply in_or_app. left. eapply nth_error_In. exact Hn'.
  - rewrite address_table_add_fresh by (apply holds_pair_false; exact Hp).
    eexists. split; [apply in_or_app; right; left; reflexivity|].
    split; [reflexivity|left; reflexivity].
Qed.

(** Property X3.  In a table built by calls of [address_table_add], two
    nodes of the same device never hold addresses that
    [bacnet_address_same] takes for the same: a device is listed once per
    address. *)
Theorem built_table_pairs_distinct
        (ext : Externals) (calls : list (Z * Z * Addr.t))
        (l1 l2 l3 : address_table) (e1 e2 : address_entry) :
  record_all calls [] = l1 ++ e1 :: l2 ++ e2 :: l3 ->
  device_id e1 = device_id e2 ->
  bacnet_address_same (address e1) (address e2) = false.
Proof.
  intros Htbl. apply (apart_split l1 l2 l3). rewrite <- Htbl.
  apply apart_record_all; [constructor|exact I].
Qed.

Lemma built_table_pairs_distinct_witness :
  let e1 := mkEntry 1 100 480 Demo.station_A in
  let e2 := mkEntry 1 100 480 Demo.station_B in
  record_all (ext := Demo.externals)
             [(100, 480, Demo.station_A); (100, 480, Demo.station_B);
              (100, 480, Demo.station_A)] []
  = [] ++ e1 :: [] ++ e2 :: []
  /\ device_id e1 = device_id e2
  /\ Demo.address_same (address e1) (address e2) = false.
Proof.
  cbv zeta. split; [reflexivity|]. split; [reflexivity|].
  exact (built_table_pairs_distinct Demo.externals
           [(100, 480, Demo.station_A); (100, 480, Demo.station_B);
            (100, 480, Demo.station_A)]
           [] [] [] (mkEntry 1 100 480 Demo.station_A)
           (mkEntry 1 100 480 Demo.station_B) eq_refl eq_refl).
Defined.

(** Property X4.  In a table built by calls of [address_table_add], a node
    passes the duplicate test of [print_address_cache] exactly when its
    device identifier is held by two nodes or more. *)
Theorem built_table_flag_iff_repeated
        (ext : Externals) (calls : list (Z * Z * Addr.t)) (e : address_entry) :
  In e (record_all calls []) ->
  is_duplicate e = (2 <=? count_id (device_id e) (record_all calls []))%nat.
Proof.
  apply flags_exact_is_duplicate. apply flags_exact_record_all. constructor.
Qed.

Lemma built_table_flag_iff_repeated_witness :
  let calls := [(100, 480, Demo.station_A); (7, 50, Demo.station_A);
                (100, 480, Demo.station_B)] in
  In (mkEntry 0 7 50 Demo.station_A) (record_all (ext := Demo.externals) calls [])
  /\ is_duplicate (mkEntry 0 7 50 Demo.station_A)
     = (2 <=? count_id 7 (record_all (ext := Demo.externals) calls []))%nat.
Proof.
  cbv zeta.
  assert (Hin : In (mkEntry 0 7 50 Demo.station_A)
                   (record_all (ext := Demo.externals)
                               [(100, 480, Demo.station_A); (7, 50, Demo.station_A);
                                (100, 480, Demo.station_B)] []))
    by (right; left; reflexivity).
  split; [exact Hin|].
  exact (built_table_flag_iff_repeated Demo.externals _ _ Hin).
Defined.


(** Property X6.  A call of [address_table_add] for a device identifier
    that no node of the table has links one node at the tail, not flagged,
    and leaves every node as it was. *)
Theorem first_sighting_appended
        (ext : Externals) (id apdu : Z) (src : Addr.t) (tbl : address_table) :
  has_id id tbl = false ->
  address_table_add id apdu src tbl = tbl ++ [mkEntry 0 id apdu src].
Proof.
  intros H. rewrite address_table_add_fresh.
  - rewrite H, (map_mark_other id tbl H). reflexivity.
  - intros e Hin Hid. exfalso.
    pose proof (count_id_in e tbl Hin) as Hc. rewrite Hid in Hc.
    rewrite has_id_count in H. apply Nat.leb_gt in H. lia.
Qed.

Lemma first_sighting_appended_witness :
  let tbl := [mkEntry 1 100 480 Demo.station_A; mkEntry 1 100 480 Demo.station_B] in
  has_id 7 tbl = false
  /\ address_table_add (ext := Demo.externals) 7 50 Demo.station_A tbl
     = tbl ++ [mkEntry 0 7 50 Demo.station_A].
Proof.
  cbv zeta. split; [reflexivity|].
  exact (first_sighting_appended Demo.externals 7 50 Demo.station_A
           [mkEntry 1 100 480 Demo.station_A; mkEntry 1 100 480 Demo.station_B]
           eq_refl).
Defined.

(** ** The loop of the Who-Is tool, for any traffic *)

Section WhoisTraffic.
Context {ext : Externals}.

(** What a received frame does to the state, apart from the log. *)
Lemma whois_dispatch (l : Whois.locals) (p : poll) (st : Whois.state) :
  exists s1,
    Whois.Address_Table s1
    = record_all (heard_calls [p]) (Whois.Address_Table st)
    /\ Whois.retries s1 = Whois.retries st
    /\ Whois.log s1 = Whois.log st ++ [Receive (Whois.delay_milliseconds l)]
    /\ Whois.Error_Detected s1 = Whois.Error_Detected st || signals_error p
    /\ Whois.iteration l p st =
       if Whois.Error_Detected s1 then (s1, true)
       else
         let s2 := if datalink_timer_expired p
                   then Whois.logged (MaintenanceTimer 1) s1 else s1 in
         if apdu_timer_expired p then
           if Whois.repeat_forever l || negb (Whois.retries s2 =? 0)
           then (Whois.decrement_retry (Whois.Send_WhoIs_To_Network l s2), false)
           else (s2, true)
         else (s2, false).
Proof.
  exists (if pdu_len p =? 0
          then Whois.logged (Receive (Whois.delay_milliseconds l)) st
          else Whois.npdu_handler
                 (src p) (frame p)
                 (Whois.logged (Receive (Whois.delay_milliseconds l)) st)).
  unfold signals_error, heard_calls. cbn [flat_map].
  split; [|split; [|split; [|split; [|reflexivity]]]];
    (destruct (pdu_len p =? 0);
     [cbn; rewrite ?orb_false_r; reflexivity|]);
    (destruct (frame p) as [len id apdu| | |];
     cbn [Whois.npdu_handler negb andb];
     unfold Whois.my_i_am_handler; try destruct (len =? -1);
     cbn; rewrite ?orb_false_r, ?orb_true_r; reflexivity).
Qed.

Lemma record_all_app (a b : list (Z * Z * Addr.t)) (tbl : address_table) :
  record_all (a ++ b) tbl = record_all b (record_all a tbl).
Proof. apply fold_left_app. Qed.

Lemma heard_calls_cons (p : poll) (polls : list poll) :
  heard_calls (p :: polls) = heard_calls [p] ++ heard_calls polls.
Proof. unfold heard_calls. cbn [flat_map]. rewrite app_nil_r. reflexivity. Qed.

Lemma whois_iteration_table (l : Whois.locals) (p : poll) (st : Whois.state) :
  Whois.Address_Table (fst (Whois.iteration l p st))
  = record_all (heard_calls [p]) (Whois.Address_Table st).
Proof.
  destruct (whois_dispatch l p st) as [s1 [Ht [_ [_ [_ Hit]]]]].
  rewrite Hit, <- Ht.
  destruct (Whois.Error_Detected s1); [reflexivity|]. cbv zeta.
  destruct (datalink_timer_expired p), (apdu_timer_expired p);
    try reflexivity;
    match goal with
    | |- context [if ?c then _ else _] => destruct c; reflexivity
    end.
Qed.

Lemma whois_loop_table (l : Whois.locals) (polls : list poll) :
  forall st,
    match Whois.loop l polls st with
    | Blocked st' =>
        Whois.Address_Table st'
        = record_all (heard_calls polls) (Whois.Address_Table st)
    | Exited st' =>
        exists n,
          (0 < n <= List.length polls)%nat
          /\ Whois.Address_Table st'
             = record_all (heard_calls (firstn n polls)) (Whois.Address_Table st)
    end.
Proof.
  induction polls as [|p polls IH]; intros st; [reflexivity|].
  cbn [Whois.loop]. pose proof (whois_iteration_table l p st) as Ht.
  destruct (Whois.iteration l p st) as [st1 brk]. cbn [fst] in Ht.
  destruct brk.
  - exists 1%nat. cbn [List.length firstn]. split; [lia|exact Ht].
  - specialize (IH st1). destruct (Whois.loop l polls st1) as [st'|st'].
    + destruct IH as [n [Hn IH]]. exists (S n). cbn [List.length firstn].
      split; [lia|]. rewrite heard_calls_cons, record_all_app, <- Ht. exact IH.
    + rewrite heard_calls_cons, record_all_app, <- Ht. exact IH.
Qed.

(** The sends and the retries over one pass. *)
Lemma whois_iteration_sends (l : Whois.locals) (p : poll) (st : Whois.state) :
  let st' := fst (Whois.iteration l p st) in
  (sends (Whois.log st') = sends (Whois.log st)
   /\ Whois.retries st' = Whois.retries st)
  \/ (sends (Whois.log st') = sends (Whois.log st) ++ [whois_request l]
      /\ Whois.retries st'
         = (if Whois.retries st >? 0 then Whois.retries st - 1 else Whois.retries st)
      /\ snd (Whois.iteration l p st) = false
      /\ apdu_timer_expired p = true
      /\ (Whois.repeat_forever l = true \/ Whois.retries st <> 0)).
Proof.
  destruct (whois_dispatch l p st) as [s1 [_ [Hr [Hl [_ Hit]]]]].
  assert (Hs : sends (Whois.log s1) = sends (Whois.log st)).
  { rewrite Hl, sends_app. cbn. apply app_nil_r. }
  cbv zeta. rewrite Hit.
  destruct (Whois.Error_Detected s1); [left; split; assumption|].
  cbv zeta.
  set (s2 := if datalink_timer_expired p
             then Whois.logged (MaintenanceTimer 1) s1 else s1).
  assert (Hs2 : sends (Whois.log s2) = sends (Whois.log st)
                /\ Whois.retries s2 = Whois.retries st).
  { subst s2. destruct (datalink_timer_expired p); [|split; assumption].
    cbn [Whois.logged Whois.log Whois.retries]. rewrite sends_app, Hs.
    split; [apply app_nil_r|exact Hr]. }
  destruct Hs2 as [Hs2 Hr2].
  destruct (apdu_timer_expired p); [|left; split; assumption].
  destruct (Whois.repeat_forever l || negb (Whois.retries s2 =? 0)) eqn:C;
    [|left; split; assumption].
  right. cbn [fst snd Whois.decrement_retry Whois.Send_WhoIs_To_Network
              Whois.log Whois.retries].
  rewrite sends_app, Hs2, Hr2. repeat split.
  apply orb_true_iff in C. destruct C as [C | C]; [left; exact C|right].
  apply negb_true_iff, Z.eqb_neq in C. rewrite <- Hr2. exact C.
Qed.

Lemma whois_loop_sends (l : Whois.locals) (polls : list poll) :
  forall st,
    exists k,
      sends (Whois.log (state_of (Whois.loop l polls st)))
      = sends (Whois.log st) ++ repeat (whois_request l) k.
Proof.
  induction polls as [|p polls IH]; intros st.
  - exists 0%nat. cbn. rewrite app_nil_r. reflexivity.
  - cbn [Whois.loop]. pose proof (whois_iteration_sends l p st) as Hs.
    destruct (Whois.iteration l p st) as [st1 brk]. cbn [fst snd] in Hs.
    destruct brk.
    + destruct Hs as [[Hs _] | [_ [_ [Hb _]]]]; [|discriminate].
      exists 0%nat. cbn. rewrite app_nil_r. exact Hs.
    + destruct (IH st1) as [k Hk].
      destruct Hs as [[Hs _] | [Hs _]].
      * exists k. rewrite Hk, Hs. reflexivity.
      * exists (S k). rewrite Hk, Hs, <- app_assoc. reflexivity.
Qed.

(** Without [--repeat] each resend is paid for with a retry. *)
Lemma whois_loop_budget (l : Whois.locals) (polls : list poll) :
  Whois.repeat_forever l = false ->
  forall st,
    0 <= Whois.retries st ->
    let st' := state_of (Whois.loop l polls st) in
    0 <= Whois.retries st'
    /\ (List.length (sends (Whois.log st')) + Z.to_nat (Whois.retries st')
        = List.length (sends (Whois.log st)) + Z.to_nat (Whois.retries st))%nat.
Proof.
  intros Hrep. induction polls as [|p polls IH]; intros st Hr.
  - cbn. split; [exact Hr|reflexivity].
  - cbn [Whois.loop]. pose proof (whois_iteration_sends l p st) as Hs.
    destruct (Whois.iteration l p st) as [st1 brk]. cbn [fst snd] in Hs.
    assert (Hstep : 0 <= Whois.retries st1
                    /\ (List.length (sends (Whois.log st1))
                        + Z.to_nat (Whois.retries st1)
                        = List.length (sends (Whois.log st))
                          + Z.to_nat (Whois.retries st))%nat).
    { destruct Hs as [[Hs Hr1] | [Hs [Hr1 [_ [_ Hwhy]]]]].
      - rewrite Hs, Hr1. split; [exact Hr|reflexivity].
      - destruct Hwhy as [Hwhy | Hwhy]; [congruence|].
        rewrite Hs, Hr1, length_app. cbn [List.length].
        destruct (Whois.retries st >? 0) eqn:G.
        + apply Z.gtb_lt in G. split; lia.
        + rewrite Z.gtb_ltb in G. apply Z.ltb_ge in G. lia. }
    destruct brk; [exact Hstep|].
    destruct Hstep as [Hr1 Hsum]. destruct (IH st1 Hr1) as [Hr' Hsum'].
    split; [exact Hr'|]. cbv zeta in Hsum'. rewrite Hsum'. exact Hsum.
Qed.

(** Why the loop is left, and that it is not left before. *)
Lemma whois_loop_exit (l : Whois.locals) (polls : list poll) :
  forall st,
    Whois.Error_Detected st = false ->
    match Whois.loop l polls st with
    | Blocked st' => Whois.Error_Detected st' = false
    | Exited st' =>
        Whois.Error_Detected st' = true
        \/ (Whois.Error_Detected st' = false
            /\ Whois.repeat_forever l = false /\ Whois.retries st' = 0)
    end.
Proof.
  induction polls as [|p polls IH]; intros st Herr; [exact Herr|].
  cbn [Whois.loop].
  destruct (whois_dispatch l p st) as [s1 [_ [_ [_ [_ Hit]]]]].
  rewrite Hit. destruct (Whois.Error_Detected s1) eqn:E1; [left; exact E1|].
  cbv zeta.
  set (s2 := if datalink_timer_expired p
             then Whois.logged (MaintenanceTimer 1) s1 else s1).
  assert (E2 : Whois.Error_Detected s2 = false)
    by (subst s2; destruct (datalink_timer_expired p); exact E1).
  destruct (apdu_timer_expired p); [|apply IH; exact E2].
  destruct (Whois.repeat_forever l || negb (Whois.retries s2 =? 0)) eqn:C.
  - apply IH. exact E2.
  - apply orb_false_iff in C. destruct C as [C1 C2].
    apply negb_false_iff, Z.eqb_eq in C2. right. auto.
Qed.

End WhoisTraffic.

Section WhoisRepeat.
Context {ext : Externals}.

Lemma whois_loop_repeat (l : Whois.locals) :
  Whois.repeat_forever l = true ->
  forall polls st,
    Forall (fun p => signals_error p = false) polls ->
    Whois.Error_Detected st = false ->
    exists st',
      Whois.loop l polls st = Blocked st'
      /\ sends (Whois.log st')
         = sends (Whois.log st) ++ repeat (whois_request l) (apdu_expiries polls).
Proof.
  intros Hrep. induction polls as [|p polls IH]; intros st Hq Herr.
  - exists st. split; [reflexivity|]. cbn. rewrite app_nil_r. reflexivity.
  - inversion Hq as [|? ? Hp Hq']; subst.
    cbn [Whois.loop].
    destruct (whois_dispatch l p st) as [s1 [_ [_ [Hl [He Hit]]]]].
    rewrite Herr, Hp in He. cbn [orb] in He. rewrite Hit, He. cbv zeta.
    set (s2 := if datalink_timer_expired p
               then Whois.logged (MaintenanceTimer 1) s1 else s1).
    assert (H2 : Whois.Error_Detected s2 = false
                 /\ sends (Whois.log s2) = sends (Whois.log st)).
    { subst s2. destruct (datalink_timer_expired p);
        cbn [Whois.logged Whois.log Whois.Error_Detected];
        rewrite ?sends_app, Hl, sends_app; cbn; rewrite ?app_nil_r; auto. }
    destruct H2 as [E2 S2]. rewrite Hrep. cbn [orb].
    unfold apdu_expiries. cbn [filter].
    destruct (apdu_timer_expired p); cbn [List.length repeat].
    + destruct (IH (Whois.decrement_retry (Whois.Send_WhoIs_To_Network l s2))
                   Hq' E2) as [st' [Hl' Hs']].
      exists st'. split; [exact Hl'|]. rewrite Hs'.
      cbn [Whois.decrement_retry Whois.Send_WhoIs_To_Network Whois.log].
      rewrite sends_app, S2, <- app_assoc. reflexivity.
    + destruct (IH s2 Hq' E2) as [st' [Hl' Hs']].
      exists st'. split; [exact Hl'|]. rewrite Hs', S2. reflexivity.
Qed.

End WhoisRepeat.

(** Property X7.  An I-Am that [iam_decode_service_request] does not
    decode (it returns -1) is dropped by [my_i_am_handler]: the pass of
    the Who-Is loop that receives it ends in the same state, the table
    included, and with the same log, as the pass in which
    [datalink_receive] returns 0 and the timers answer alike.  (The
    handler's debug text goes to [stderr], which is not part of the
    state.) *)
Theorem undecoded_i_am_is_dropped
        (ext : Externals) (p : poll) (device_id max_apdu : Z) :
  frame p = IAm (-1) device_id max_apdu ->
  forall l st, Whois.iteration l p st = Whois.iteration l (silenced p) st.
Proof.
  intros H l st. unfold Whois.iteration, silenced. cbn [pdu_len Z.eqb].
  destruct (pdu_len p =? 0); [reflexivity|]. rewrite H. reflexivity.
Qed.

Lemma undecoded_i_am_is_dropped_witness :
  let p := Demo.heard (IAm (-1) 100 480) in
  let st := Whois.mkState [mkEntry 0 7 50 Demo.station_A] false 1 [DlenvInit] in
  frame p = IAm (-1) 100 480
  /\ Whois.iteration (ext := Demo.externals)
                     (Whois.initial (ext := Demo.externals)) p st
     = Whois.iteration (ext := Demo.externals)
                       (Whois.initial (ext := Demo.externals)) (silenced p) st
  /\ Whois.Address_Table
       (fst (Whois.iteration (ext := Demo.externals)
                             (Whois.initial (ext := Demo.externals)) p st))
     = [mkEntry 0 7 50 Demo.station_A].
Proof.
  cbv zeta. split; [reflexivity|]. split; [|reflexivity].
  exact (undecoded_i_am_is_dropped Demo.externals
           (Demo.heard (IAm (-1) 100 480)) 100 480 eq_refl _ _).
Defined.

Section ExitPass.
Context {ext : Externals}.

(** Whether a pass leaves the loop, and why. *)
Lemma whois_iteration_break (l : Whois.locals) (p : poll) (st : Whois.state) :
  Whois.Error_Detected st = false ->
  Whois.Error_Detected (fst (Whois.iteration l p st)) = signals_error p
  /\ snd (Whois.iteration l p st)
     = signals_error p
       || (apdu_timer_expired p && negb (Whois.repeat_forever l)
           && (Whois.retries st =? 0)).
Proof.
  intros Herr.
  destruct (whois_dispatch l p st) as [s1 [_ [Hr [_ [He Hit]]]]].
  rewrite Herr in He. cbn [orb] in He. rewrite Hit, He.
  destruct (signals_error p); [split; [exact He|reflexivity]|].
  cbv zeta. cbn [orb].
  set (s2 := if datalink_timer_expired p
             then Whois.logged (MaintenanceTimer 1) s1 else s1).
  assert (H2 : Whois.Error_Detected s2 = false
               /\ Whois.retries s2 = Whois.retries st).
  { subst s2. destruct (datalink_timer_expired p); split; assumption. }
  destruct H2 as [E2 R2]. rewrite R2.
  destruct (apdu_timer_expired p); [|split; [exact E2|reflexivity]].
  destruct (Whois.repeat_forever l); [split; [exact E2|reflexivity]|].
  destruct (Whois.retries st =? 0); split; try exact E2; reflexivity.
Qed.

(** A loop that was left was waiting before the pass that left it. *)
Lemma whois_loop_exit_pass (l : Whois.locals) (polls : list poll) :
  forall st st',
    Whois.loop l polls st = Exited st' ->
    exists pre p post st0,
      polls = pre ++ p :: post
      /\ Whois.loop l pre st = Blocked st0
      /\ Whois.iteration l p st0 = (st', true).
Proof.
  induction polls as [|p polls IH]; intros st st' H; [discriminate|].
  cbn [Whois.loop] in H.
  destruct (Whois.iteration l p st) as [st1 brk] eqn:Hit. destruct brk.
  - injection H as <-. exists [], p, polls, st. repeat split. exact Hit.
  - destruct (IH st1 st' H) as [pre [q [post [st0 [Hp [Hb Hq]]]]]].
    exists (p :: pre), q, post, st0. split; [rewrite Hp; reflexivity|].
    split; [|exact Hq]. cbn [Whois.loop]. rewrite Hit. exact Hb.
Qed.

Lemma whois_loop_step (l : Whois.locals) (pre : list poll) (p : poll) :
  forall st st0,
    Whois.loop l pre st = Blocked st0 ->
    Whois.loop l (pre ++ [p]) st
    = if snd (Whois.iteration l p st0)
      then Exited (fst (Whois.iteration l p st0))
      else Blocked (fst (Whois.iteration l p st0)).
Proof.
  intros st st0 H. rewrite whois_loop_app, H. cbn [Whois.loop].
  destruct (Whois.iteration l p st0) as [s b]. destruct b; reflexivity.
Qed.

Lemma whois_loop_blocked_clear (l : Whois.locals) (polls : list poll) :
  forall st st',
    Whois.Error_Detected st = false ->
    Whois.loop l polls st = Blocked st' ->
    Whois.Error_Detected st' = false.
Proof.
  intros st st' Herr H. pose proof (whois_loop_exit l polls st Herr) as Hx.
  rewrite H in Hx. exact Hx.
Qed.

Lemma whois_main_session (argv : list string) (polls : list poll) :
  (exists code out, forall polls', Whois.main argv polls' = Finished code out [])
  \/ exists l,
      forall polls',
        Whois.main argv polls'
        = match Whois.session l polls' with
          | Exited st =>
              Finished 0 (print_address_cache (Whois.Address_Table st))
                       (Whois.log st)
          | Blocked st => Waiting st
          end.
Proof.
  unfold Whois.main.
  destruct (Whois.parse_args argv Whois.initial) as [code out|l].
  - left. exists code, out. reflexivity.
  - destruct (Whois.Target_Object_Instance_Min l >? BACNET_MAX_INSTANCE);
      [left; exists 1, []; reflexivity|].
    destruct (Whois.Target_Object_Instance_Max l >? BACNET_MAX_INSTANCE);
      [left; exists 1, []; reflexivity|].
    right. exists l. reflexivity.
Qed.

End ExitPass.

(** Property X8.  The table of the Who-Is tool is the result of the
    [address_table_add] calls for the decodable I-Am frames received, in
    the order of their arrival.  While the loop waits, these are the
    frames of all answers of [datalink_receive].  When [main] has gone
    through the loop and finished, the answers split into those before
    the last pass (after which the tool was still waiting), the answer of
    the last pass and the ones never asked for; the report has one row
    for each node of the table of the answers up to and including the
    last pass, with the counts as [unsigned]. *)
Theorem roster_is_what_was_heard
        (ext : Externals) (argv : list string) (polls : list poll) :
  (forall st,
      Whois.main argv polls = Waiting st ->
      Whois.Address_Table st = record_all (heard_calls polls) [])
  /\ (forall out log,
         Whois.main argv polls = Finished 0 out log ->
         log <> [] ->
         exists pre p post st0,
           polls = pre ++ p :: post
           /\ Whois.main argv pre = Waiting st0
           /\ Whois.main argv (pre ++ [p]) = Finished 0 out log
           /\ out
              = let tbl := record_all (heard_calls (pre ++ [p])) [] in
                [TableHeader; TableRule] ++ map print_row tbl
                  ++ [TotalDevices (uint (Z.of_nat (List.length tbl)))]
                  ++ (if uint (Z.of_nat (List.length (filter is_duplicate tbl)))
                         =? 0
                      then []
                      else [DuplicateDevices
                              (uint (Z.of_nat
                                       (List.length (filter is_duplicate tbl))))])).
Proof.
  destruct (whois_main_session argv polls) as [[code [out0 Hm]] | [l Hm]].
  { rewrite Hm. split; [discriminate|]. intros out log H Hlog.
    injection H as _ _ <-. exfalso. apply Hlog. reflexivity. }
  rewrite Hm. unfold Whois.session in *. split.
  - intros st H.
    pose proof (whois_loop_table l polls (Whois.start l)) as Ht.
    destruct (Whois.loop l polls (Whois.start l)) as [st'|st']; [discriminate|].
    injection H as <-. exact Ht.
  - intros out log H _.
    destruct (Whois.loop l polls (Whois.start l)) as [st'|st'] eqn:Hl;
      [|discriminate].
    injection H as <- <-.
    destruct (whois_loop_exit_pass l polls _ _ Hl)
      as [pre [p [post [st0 [Hp [Hb Hq]]]]]].
    exists pre, p, post, st0. split; [exact Hp|].
    rewrite !Hm. rewrite Hb.
    assert (Hlast : Whois.loop l (pre ++ [p]) (Whois.start l) = Exited st').
    { rewrite (whois_loop_step l pre p _ _ Hb), Hq. reflexivity. }
    rewrite Hlast. split; [reflexivity|]. split; [reflexivity|].
    pose proof (whois_loop_table l (pre ++ [p]) (Whois.start l)) as Ht.
    rewrite Hlast in Ht. destruct Ht as [n [Hn Ht]].
    assert (Hfull : Whois.Address_Table st'
                    = record_all (heard_calls (pre ++ [p])) []).
    { pose proof (whois_loop_table l pre (Whois.start l)) as Htp.
      rewrite Hb in Htp.
      pose proof (whois_iteration_table l p st0) as Hti.
      rewrite Hq in Hti. cbn [fst] in Hti.
      unfold heard_calls in *. rewrite flat_map_app, record_all_app.
      rewrite Hti, Htp. reflexivity. }
    cbv zeta. rewrite <- Hfull. apply print_address_cache_rows.
Qed.

Lemma roster_is_what_was_heard_witness :
  let polls := [Demo.heard (IAm 5 100 480); Demo.silence true;
                Demo.heard (IAm (-1) 7 50); Demo.heard (Abort 4);
                Demo.heard (IAm 5 9 50)] in
  (exists st,
      Whois.main (ext := Demo.externals) ["--retry"; "3"] (firstn 3 polls)
      = Waiting st
      /\ Whois.Address_Table st = [mkEntry 0 100 480 Demo.station_B])
  /\ (exists out log,
         Whois.main (ext := Demo.externals) ["--retry"; "3"] polls
         = Finished 0 out log
         /\ log <> []
         /\ out = [TableHeader; TableRule;
                   TableRow false 100 (mkMacText [11] 6) 0 (mkMacText [0] 6) 480;
                   TotalDevices 1]
         /\ exists pre p post st0,
             polls = pre ++ p :: post
             /\ Whois.main (ext := Demo.externals) ["--retry"; "3"] pre
                = Waiting st0
             /\ Whois.main (ext := Demo.externals) ["--retry"; "3"] (pre ++ [p])
                = Finished 0 out log).
Proof.
  cbv zeta. split.
  - eexists. split; [reflexivity|].
    exact (proj1 (roster_is_what_was_heard
                    Demo.externals ["--retry"; "3"]
                    [Demo.heard (IAm 5 100 480); Demo.silence true;
                     Demo.heard (IAm (-1) 7 50)])
                 _ eq_refl).
  - eexists. eexists. split; [reflexivity|]. split; [discriminate|].
    split; [reflexivity|].
    destruct (proj2 (roster_is_what_was_heard
                       Demo.externals ["--retry"; "3"]
                       [Demo.heard (IAm 5 100 480); Demo.silence true;
                        Demo.heard (IAm (-1) 7 50); Demo.heard (Abort 4);
                        Demo.heard (IAm 5 9 50)])
                    _ _ eq_refl ltac:(discriminate))
      as [pre [p [post [st0 [Hp [Hw [Hf _]]]]]]].
    exists pre, p, post, st0. split; [exact Hp|]. split; [exact Hw|exact Hf].
Defined.

(** Property X9.  While the Who-Is loop waits, [Error_Detected] is clear,
    and the next pass leaves the loop exactly when it dispatches an abort
    or a reject, or when in it the request timer has expired while
    [--repeat] is off and [retry_count] is 0; [Error_Detected] at the exit
    tells which.  Every exit of the loop is such a pass: before it the
    loop was waiting, and what comes after it is not asked for. *)
Theorem query_loop_exit_reasons (ext : Externals) (l : Whois.locals) :
  (forall pre p st0,
      Whois.session l pre = Blocked st0 ->
      Whois.Error_Detected st0 = false
      /\ Whois.session l (pre ++ [p])
         = (if signals_error p
               || (apdu_timer_expired p && negb (Whois.repeat_forever l)
                   && (Whois.retries st0 =? 0))
            then Exited (fst (Whois.iteration l p st0))
            else Blocked (fst (Whois.iteration l p st0)))
      /\ Whois.Error_Detected (fst (Whois.iteration l p st0)) = signals_error p)
  /\ (forall polls st,
         Whois.session l polls = Exited st ->
         exists pre p post st0,
           polls = pre ++ p :: post
           /\ Whois.session l pre = Blocked st0
           /\ Whois.session l (pre ++ [p]) = Exited st
           /\ (signals_error p = true /\ Whois.Error_Detected st = true
               \/ signals_error p = false
                  /\ apdu_timer_expired p = true
                  /\ Whois.repeat_forever l = false
                  /\ Whois.retries st0 = 0
                  /\ Whois.Error_Detected st = false)).
Proof.
  unfold Whois.session. split.
  - intros pre p st0 Hb.
    pose proof (whois_loop_blocked_clear l pre (Whois.start l) _ eq_refl Hb)
      as Herr.
    destruct (whois_iteration_break l p st0 Herr) as [He Hs].
    split; [exact Herr|]. split; [|exact He].
    rewrite (whois_loop_step l pre p _ _ Hb), Hs. reflexivity.
  - intros polls st Hx.
    destruct (whois_loop_exit_pass l polls _ _ Hx)
      as [pre [p [post [st0 [Hp [Hb Hq]]]]]].
    exists pre, p, post, st0. split; [exact Hp|]. split; [exact Hb|].
    pose proof (whois_loop_blocked_clear l pre (Whois.start l) _ eq_refl Hb)
      as Herr.
    destruct (whois_iteration_break l p st0 Herr) as [He Hs].
    rewrite Hq in He, Hs. cbn [fst snd] in He, Hs.
    split; [rewrite (whois_loop_step l pre p _ _ Hb), Hq; reflexivity|].
    destruct (signals_error p); [left; split; [reflexivity|exact He]|].
    right. cbn [orb] in Hs. symmetry in Hs.
    apply andb_true_iff in Hs. destruct Hs as [Hs Hz].
    apply andb_true_iff in Hs. destruct Hs as [Ht Hn].
    apply negb_true_iff in Hn. apply Z.eqb_eq in Hz. auto.
Qed.

Lemma query_loop_exit_reasons_witness :
  let l := Whois.set_retry_count 2 (Whois.initial (ext := Demo.externals)) in
  let pre := [Demo.silence true; Demo.heard (IAm 5 100 480); Demo.silence false] in
  (exists st0,
      Whois.session (ext := Demo.externals) l pre = Blocked st0
      /\ Whois.retries st0 = 0
      /\ (exists st, Whois.session (ext := Demo.externals) l
                                   (pre ++ [Demo.silence false]) = Blocked st)
      /\ (exists st, Whois.session (ext := Demo.externals) l
                                   (pre ++ [Demo.silence true]) = Exited st
                     /\ Whois.Error_Detected st = false))
  /\ (exists st pre' p post st0,
         Whois.session (ext := Demo.externals) l
                       (pre ++ [Demo.heard (Abort 4); Demo.silence true])
         = Exited st
         /\ pre ++ [Demo.heard (Abort 4); Demo.silence true] = pre' ++ p :: post
         /\ Whois.session (ext := Demo.externals) l pre' = Blocked st0
         /\ Whois.session (ext := Demo.externals) l (pre' ++ [p]) = Exited st).
Proof.
  cbv zeta. split.
  - eexists. split; [reflexivity|]. split; [reflexivity|].
    pose proof (proj1 (query_loop_exit_reasons
                         Demo.externals
                         (Whois.set_retry_count
                            2 (Whois.initial (ext := Demo.externals))))
                      [Demo.silence true; Demo.heard (IAm 5 100 480);
                       Demo.silence false]) as H.
    split.
    + destruct (H (Demo.silence false) _ eq_refl) as [_ [Hs _]].
      eexists. exact Hs.
    + destruct (H (Demo.silence true) _ eq_refl) as [_ [Hs He]].
      eexists. split; [exact Hs|exact He].
  - eexists.
    destruct (proj2 (query_loop_exit_reasons
                       Demo.externals
                       (Whois.set_retry_count
                          2 (Whois.initial (ext := Demo.externals))))
                    ([Demo.silence true; Demo.heard (IAm 5 100 480);
                      Demo.silence false]
                       ++ [Demo.heard (Abort 4); Demo.silence true])
                    _ eq_refl)
      as [pre' [p [post [st0 [Hp [Hb [Hx _]]]]]]].
    exists pre', p, post, st0.
    split; [reflexivity|]. split; [exact Hp|]. split; [exact Hb|exact Hx].
Defined.

(** Property X10.  Without [--repeat] and with [retry_count] r (not
    negative, as the option loop leaves it) the Who-Is tool never sends
    more than max(1, r) requests, whatever is received and whenever the
    timers expire; when the loop is left without abort or reject it has
    sent exactly that many. *)
Theorem query_send_budget
        (ext : Externals) (l : Whois.locals) (polls : list poll) :
  Whois.repeat_forever l = false ->
  0 <= Whois.retry_count l ->
  (List.length (sends (Whois.log (state_of (Whois.session l polls))))
   <= budget (Whois.retry_count l))%nat
  /\ (forall st,
         Whois.session l polls = Exited st ->
         Whois.Error_Detected st = false ->
         List.length (sends (Whois.log st)) = budget (Whois.retry_count l)).
Proof.
  intros Hrep Hr. unfold Whois.session.
  assert (Hstart : 0 <= Whois.retries (Whois.start l)
                   /\ (List.length (sends (Whois.log (Whois.start l)))
                       + Z.to_nat (Whois.retries (Whois.start l))
                       = budget (Whois.retry_count l))%nat).
  { unfold Whois.start, budget. cbn.
    destruct (Whois.retry_count l >? 0) eqn:G.
    - apply Z.gtb_lt in G. split; lia.
    - rewrite Z.gtb_ltb in G. apply Z.ltb_ge in G. split; lia. }
  destruct Hstart as [H0 Hsum].
  destruct (whois_loop_budget l polls Hrep (Whois.start l) H0) as [Hr' Hsum'].
  cbv zeta in Hsum'. split; [lia|].
  intros st Hex Herr.
  pose proof (whois_loop_exit l polls (Whois.start l) eq_refl) as Hwhy.
  rewrite Hex in *. cbn [state_of] in *.
  destruct Hwhy as [Hwhy | [_ [_ Hz]]]; [congruence|].
  rewrite Hz in Hsum'. change (Z.to_nat 0) with 0%nat in Hsum'. lia.
Qed.

Lemma query_send_budget_witness :
  let l := Whois.set_retry_count 3 (Whois.initial (ext := Demo.externals)) in
  let polls := [Demo.silence true; Demo.heard (IAm 5 100 480); Demo.silence true;
                Demo.silence true; Demo.silence true] in
  Whois.repeat_forever l = false
  /\ 0 <= Whois.retry_count l
  /\ exists st,
      Whois.session (ext := Demo.externals) l polls = Exited st
      /\ Whois.Error_Detected st = false
      /\ List.length (sends (Whois.log st)) = 3%nat.
Proof.
  cbv zeta. split; [reflexivity|]. split; [discriminate|].
  eexists. split; [reflexivity|]. split; [reflexivity|].
  exact (proj2 (query_send_budget Demo.externals
                  (Whois.set_retry_count 3 (Whois.initial (ext := Demo.externals)))
                  [Demo.silence true; Demo.heard (IAm 5 100 480); Demo.silence true;
                   Demo.silence true; Demo.silence true]
                  eq_refl ltac:(discriminate)) _ eq_refl eq_refl).
Defined.

(** Property X11.  With [--repeat] the Who-Is loop is not left as long as
    no abort or reject is dispatched, whatever [retry_count] is: it resends
    at every expiry of the request timer. *)
Theorem query_repeats_forever
        (ext : Externals) (l : Whois.locals) (polls : list poll) :
  Whois.repeat_forever l = true ->
  Forall (fun p => signals_error p = false) polls ->
  exists st,
    Whois.session l polls = Blocked st
    /\ sends (Whois.log st)
       = repeat (whois_request l) (1 + apdu_expiries polls).
Proof.
  intros Hrep Hq.
  destruct (whois_loop_repeat l Hrep polls (Whois.start l) Hq eq_refl)
    as [st [Hl Hs]].
  exists st. split; [exact Hl|]. rewrite Hs. reflexivity.
Qed.

Lemma query_repeats_forever_witness :
  let l := Whois.set_repeat_forever (Whois.initial (ext := Demo.externals)) in
  let polls := [Demo.silence true; Demo.heard (IAm 5 100 480); Demo.silence true] in
  Whois.repeat_forever l = true
  /\ Forall (fun p => signals_error p = false) polls
  /\ exists st,
      Whois.session (ext := Demo.externals) l polls = Blocked st
      /\ List.length (sends (Whois.log st)) = 3%nat.
Proof.
  cbv zeta.
  assert (Hq : Forall (fun p => signals_error p = false)
                      [Demo.silence true; Demo.heard (IAm 5 100 480);
                       Demo.silence true])
    by (repeat constructor).
  split; [reflexivity|]. split; [exact Hq|].
  destruct (query_repeats_forever Demo.externals
              (Whois.set_repeat_forever (Whois.initial (ext := Demo.externals)))
              _ eq_refl Hq) as [st [Hs Hn]].
  exists st. split; [exact Hs|]. rewrite Hn. reflexivity.
Defined.

(** ** The loop of the I-Am tool, for any traffic *)

Section IamTraffic.
Context {ext : Externals}.

Lemma receives_app (log1 log2 : list io_event) :
  receives (log1 ++ log2) = receives log1 ++ receives log2.
Proof. apply filter_app. Qed.

(** The receive and the dispatch of one pass. *)
Lemma iam_dispatch (l : Iam.locals) (p : poll) (st : Iam.state) :
  let s1 := if pdu_len p =? 0
            then Iam.logged (Receive (Iam.timeout l)) st
            else Iam.npdu_handler (frame p)
                                  (Iam.logged (Receive (Iam.timeout l)) st) in
  Iam.log s1 = Iam.log st ++ [Receive (Iam.timeout l)]
  /\ Iam.retries s1 = Iam.retries st
  /\ Iam.Error_Detected s1 = Iam.Error_Detected st || signals_error p.
Proof.
  unfold signals_error. cbv zeta.
  destruct (pdu_len p =? 0);
    [cbn; rewrite orb_false_r; repeat split|].
  destruct (frame p); cbn; rewrite ?orb_false_r, ?orb_true_r; repeat split.
Qed.

Lemma iam_wait_sends (l : Iam.locals) (polls : list poll) :
  forall st,
    exists k,
      sends (Iam.log (state_of (Iam.wait l polls st)))
      = sends (Iam.log st) ++ repeat (iam_announcement l) k.
Proof.
  induction polls as [|p polls IH]; intros st.
  - exists 0%nat. cbn. rewrite app_nil_r. reflexivity.
  - cbn [Iam.wait]. destruct (iam_dispatch l p st) as [Hl _].
    set (s1 := if pdu_len p =? 0
               then Iam.logged (Receive (Iam.timeout l)) st
               else Iam.npdu_handler (frame p)
                                     (Iam.logged (Receive (Iam.timeout l)) st)) in *.
    assert (Hs1 : sends (Iam.log s1) = sends (Iam.log st)).
    { rewrite Hl, sends_app. cbn. apply app_nil_r. }
    destruct (Iam.Error_Detected s1).
    { exists 0%nat. cbn [state_of repeat]. rewrite app_nil_r. exact Hs1. }
    destruct (Iam.again l (Iam.decrement_retry s1)).
    + unfold Iam.enter.
      destruct (Iam.again l (Iam.Send_I_Am_To_Network l (Iam.decrement_retry s1))).
      * destruct (IH (Iam.Send_I_Am_To_Network l (Iam.decrement_retry s1)))
          as [k Hk].
        exists (S k). rewrite Hk.
        cbn [Iam.Send_I_Am_To_Network Iam.decrement_retry Iam.log].
        rewrite sends_app, Hs1, <- app_assoc. reflexivity.
      * exists 1%nat. cbn [state_of Iam.Send_I_Am_To_Network Iam.decrement_retry
                                    Iam.log].
        rewrite sends_app, Hs1. reflexivity.
    + exists 0%nat. cbn [state_of Iam.decrement_retry Iam.log repeat].
      rewrite app_nil_r. exact Hs1.
Qed.

(** Without [--repeat] and with retries left, the loop announces once for
    each answer until the retries are used up. *)
Lemma iam_wait_retry (l : Iam.locals) :
  Iam.repeat_forever l = false ->
  forall polls st,
    Forall (fun p => signals_error p = false) polls ->
    Iam.Error_Detected st = false ->
    0 < Iam.retries st ->
    exists st',
      sends (Iam.log st')
      = sends (Iam.log st)
          ++ repeat (iam_announcement l)
                    (Nat.min (List.length polls) (Z.to_nat (Iam.retries st) - 1))
      /\ receives (Iam.log st')
         = receives (Iam.log st)
             ++ repeat (Receive (Iam.timeout l))
                       (Nat.min (List.length polls) (Z.to_nat (Iam.retries st)))
      /\ Iam.Error_Detected st' = false
      /\ Iam.wait l polls st
         = if (Z.to_nat (Iam.retries st) <=? List.length polls)%nat
           then Exited st' else Blocked st'.
Proof.
  intros Hrep. induction polls as [|p polls IH]; intros st Hq Herr Hr.
  - exists st. cbn [List.length Nat.min repeat]. rewrite !app_nil_r.
    repeat split; [exact Herr|].
    destruct (Nat.leb_spec (Z.to_nat (Iam.retries st)) 0); [lia|reflexivity].
  - inversion Hq as [|? ? Hp Hq']; subst.
    cbn [Iam.wait]. destruct (iam_dispatch l p st) as [Hl [Hrs He]].
    set (s1 := if pdu_len p =? 0
               then Iam.logged (Receive (Iam.timeout l)) st
               else Iam.npdu_handler (frame p)
                                     (Iam.logged (Receive (Iam.timeout l)) st)) in *.
    rewrite Herr, Hp in He. cbn [orb] in He. rewrite He.
    assert (Hs1 : sends (Iam.log s1) = sends (Iam.log st)).
    { rewrite Hl, sends_app. cbn. apply app_nil_r. }
    assert (Hv1 : receives (Iam.log s1)
                  = receives (Iam.log st) ++ [Receive (Iam.timeout l)]).
    { rewrite Hl, receives_app. reflexivity. }
    unfold Iam.enter, Iam.again. rewrite Hrep. cbn [orb].
    cbn [Iam.Send_I_Am_To_Network Iam.decrement_retry Iam.retries].
    rewrite Hrs.
    assert (Hgt : (Iam.retries st >? 0) = true) by (apply Z.gtb_lt; exact Hr).
    rewrite Hgt. cbn [List.length].
    destruct (Iam.retries st - 1 =? 0) eqn:Z1; cbn [negb].
    + apply Z.eqb_eq in Z1. exists (Iam.decrement_retry s1).
      cbn [Iam.decrement_retry Iam.log Iam.Error_Detected].
      replace (Z.to_nat (Iam.retries st)) with 1%nat by lia.
      cbn [Nat.sub Nat.min repeat Nat.leb]. rewrite app_nil_r.
      repeat split; [exact Hs1| |exact He].
      rewrite Hv1. destruct (List.length polls); reflexivity.
    + apply Z.eqb_neq in Z1.
      set (s3 := Iam.Send_I_Am_To_Network l (Iam.decrement_retry s1)).
      assert (Hr3 : Iam.retries s3 = Iam.retries st - 1).
      { subst s3. cbn. rewrite Hrs, Hgt. reflexivity. }
      destruct (IH s3 Hq' He ltac:(rewrite Hr3; lia))
        as [st' [Hs' [Hv' [He' Hw']]]].
      exists st'. rewrite Hr3 in *.
      replace (Z.to_nat (Iam.retries st)) with (S (Z.to_nat (Iam.retries st - 1)))
        by lia.
      cbn [Nat.min Nat.leb Nat.sub]. rewrite Nat.sub_0_r.
      split; [|split; [|split; [exact He'|]]].
      * rewrite Hs'. subst s3.
        cbn [Iam.Send_I_Am_To_Network Iam.decrement_retry Iam.log].
        rewrite sends_app, Hs1, <- app_assoc.
        destruct (Z.to_nat (Iam.retries st - 1)) as [|m] eqn:M; [lia|].
        cbn [Nat.sub]. rewrite Nat.sub_0_r.
        change (sends [iam_announcement l]) with [iam_announcement l].
        cbn [app repeat]. reflexivity.
      * rewrite Hv'. subst s3.
        cbn [Iam.Send_I_Am_To_Network Iam.decrement_retry Iam.log].
        rewrite receives_app, Hv1, <- !app_assoc. reflexivity.
      * fold s3. exact Hw'.
Qed.

End IamTraffic.

(** Property X12.  All messages of a run are the same: the Who-Is tool
    sends its request, and the I-Am tool its announcement, with the
    destination and the arguments fixed before the loop, once at least and
    again unchanged each time it sends, whatever is received. *)
Theorem every_send_is_the_same (ext : Externals) (polls : list poll) :
  (forall l,
      exists k,
        sends (Whois.log (state_of (Whois.session l polls)))
        = repeat (whois_request l) (S k))
  /\ (forall l,
         exists k,
           sends (Iam.log (state_of (Iam.session l polls)))
           = repeat (iam_announcement l) (S k)).
Proof.
  split; intros l.
  - destruct (whois_loop_sends l polls (Whois.start l)) as [k Hk].
    exists k. unfold Whois.session. rewrite Hk. reflexivity.
  - unfold Iam.session, Iam.loop, Iam.enter.
    destruct (Iam.again l (Iam.Send_I_Am_To_Network l (Iam.start l))).
    + destruct (iam_wait_sends l polls (Iam.Send_I_Am_To_Network l (Iam.start l)))
        as [k Hk].
      exists k. rewrite Hk. reflexivity.
    + exists 0%nat. reflexivity.
Qed.

(** Property X13.  Without [--repeat] and with [retry_count] r (not
    negative), the I-Am tool sends max(1, r) announcements and waits for r
    answers when no abort or reject arrives: after the r-th answer it
    leaves the loop; with r = 0 it sends once and does not call
    [datalink_receive] at all.  Before the r-th answer it is waiting, one
    announcement ahead of the answers. *)
Theorem announce_retry_count
        (ext : Externals) (l : Iam.locals) (polls : list poll) :
  Iam.repeat_forever l = false ->
  0 <= Iam.retry_count l ->
  Forall (fun p => signals_error p = false) polls ->
  ((Z.to_nat (Iam.retry_count l) <= List.length polls)%nat ->
   exists st,
     Iam.session l polls = Exited st
     /\ Iam.Error_Detected st = false
     /\ sends (Iam.log st) = repeat (iam_announcement l) (budget (Iam.retry_count l))
     /\ receives (Iam.log st)
        = repeat (Receive (Iam.timeout l)) (Z.to_nat (Iam.retry_count l)))
  /\ ((List.length polls < Z.to_nat (Iam.retry_count l))%nat ->
      exists st,
        Iam.session l polls = Blocked st
        /\ sends (Iam.log st)
           = repeat (iam_announcement l) (S (List.length polls))
        /\ receives (Iam.log st)
           = repeat (Receive (Iam.timeout l)) (List.length polls)).
Proof.
  intros Hrep Hr Hq. unfold Iam.session, Iam.loop, Iam.enter, Iam.again.
  rewrite Hrep. cbn [orb Iam.Send_I_Am_To_Network Iam.start Iam.retries].
  destruct (Iam.retry_count l =? 0) eqn:Z0; cbn [negb].
  - apply Z.eqb_eq in Z0. rewrite Z0. split; intros Hn; [|cbn in Hn; lia].
    eexists. split; [reflexivity|]. repeat split.
  - apply Z.eqb_neq in Z0.
    set (s1 := {| Iam.Error_Detected := false; Iam.retries := Iam.retry_count l;
                  Iam.printed := [];
                  Iam.log := [DlenvInit] ++ [iam_announcement l] |}).
    destruct (iam_wait_retry l Hrep polls s1 Hq eq_refl ltac:(cbn; lia))
      as [st [Hs [Hv [He Hw]]]].
    change (Iam.retries s1) with (Iam.retry_count l) in *.
    change (sends (Iam.log s1)) with [iam_announcement l] in Hs.
    change (receives (Iam.log s1)) with (@nil io_event) in Hv.
    change (Iam.Send_I_Am_To_Network l (Iam.start l)) with s1. rewrite Hw.
    split; intros Hn; exists st.
    + apply Nat.leb_le in Hn. rewrite Hn. split; [reflexivity|].
      apply Nat.leb_le in Hn. split; [exact He|]. split.
      * rewrite Hs. rewrite Nat.min_r by lia. unfold budget.
        replace (Z.to_nat (Z.max 1 (Iam.retry_count l)))
          with (S (Z.to_nat (Iam.retry_count l) - 1)) by lia.
        reflexivity.
      * rewrite Hv. rewrite Nat.min_r by lia. reflexivity.
    + apply Nat.leb_gt in Hn. rewrite Hn. split; [reflexivity|].
      apply Nat.leb_gt in Hn. split.
      * rewrite Hs. rewrite Nat.min_l by lia. reflexivity.
      * rewrite Hv. rewrite Nat.min_l by lia. reflexivity.
Qed.

Lemma announce_retry_count_witness :
  let l := Iam.set_retry_count 2 (Iam.initial (ext := Demo.externals)) in
  let polls := [Demo.silence false; Demo.heard (IAm 5 7 50); Demo.silence false] in
  Iam.repeat_forever l = false
  /\ 0 <= Iam.retry_count l
  /\ Forall (fun p => signals_error p = false) polls
  /\ (Z.to_nat (Iam.retry_count l) <= List.length polls)%nat
  /\ exists st,
      Iam.session (ext := Demo.externals) l polls = Exited st
      /\ Iam.Error_Detected st = false
      /\ List.length (sends (Iam.log st)) = 2%nat
      /\ List.length (receives (Iam.log st)) = 2%nat.
Proof.
  cbv zeta.
  assert (Hq : Forall (fun p => signals_error p = false)
                      [Demo.silence false; Demo.heard (IAm 5 7 50);
                       Demo.silence false])
    by (repeat constructor).
  assert (Hn : (Z.to_nat (Iam.retry_count
                            (Iam.set_retry_count 2 (Iam.initial (ext := Demo.externals))))
                <= List.length [Demo.silence false; Demo.heard (IAm 5 7 50);
                                Demo.silence false])%nat)
    by (cbn; lia).
  split; [reflexivity|]. split; [discriminate|]. split; [exact Hq|].
  split; [exact Hn|].
  destruct (proj1 (announce_retry_count Demo.externals
                     (Iam.set_retry_count 2 (Iam.initial (ext := Demo.externals)))
                     _ eq_refl ltac:(discriminate) Hq) Hn)
    as [st [Hs [He [Hsn Hrv]]]].
  exists st. split; [exact Hs|]. split; [exact He|].
  rewrite Hsn, Hrv. split; reflexivity.
Defined.

(** ** The option loops *)

Section OptionLoops.
Context {ext : Externals}.

(** The option loop of the Who-Is tool either returns early or leaves
    locals reached by its assignments. *)
Lemma whois_parse_invariant (P : Whois.locals -> Prop) :
  (forall l l', whois_set l l' -> P l -> P l') ->
  forall n argv l,
    (List.length argv <= n)%nat ->
    P l ->
    match Whois.parse_args argv l with
    | Parsed l' => P l'
    | Exit code out => early_return (@Exit Whois.locals code out)
    end.
Proof.
  intros Hstep. induction n as [|n IH]; intros argv l Hlen HP;
    (destruct argv as [|arg rest]; [exact HP|]); [cbn in Hlen; lia|].
  cbn [List.length] in Hlen. cbn [Whois.parse_args].
  assert (Hval : forall l',
             P l' ->
             match match rest with
                   | [] => Parsed l
                   | _ :: rest' => Whois.parse_args rest' l'
                   end with
             | Parsed l' => P l'
             | Exit code out => early_return (@Exit Whois.locals code out)
             end).
  { intros l' HP'. destruct rest as [|v rest']; [exact HP|].
    apply IH; [cbn [List.length] in Hlen; lia|exact HP']. }
  destruct (String.eqb arg "--help"); [left; reflexivity|].
  destruct (String.eqb arg "--version"); [right; left; reflexivity|].
  destruct (String.eqb arg "--mac").
  { destruct rest as [|v rest']; [exact HP|]. apply (Hval _).
    destruct (bacnet_address_mac_from_ascii v); [|exact HP].
    apply (Hstep l); [constructor|exact HP]. }
  destruct (String.eqb arg "--dnet").
  { destruct rest as [|v rest']; [exact HP|]. apply (Hval _).
    apply (Hstep l); [constructor|exact HP]. }
  destruct (String.eqb arg "--dadr").
  { destruct rest as [|v rest']; [exact HP|]. apply (Hval _).
    destruct (bacnet_address_mac_from_ascii v); [|exact HP].
    apply (Hstep l); [constructor|exact HP]. }
  destruct (String.eqb arg "--repeat").
  { apply IH; [lia|]. apply (Hstep l); [constructor|exact HP]. }
  destruct (String.eqb arg "--retry").
  { destruct rest as [|v rest']; [exact HP|]. apply (Hval _).
    apply (Hstep l); [constructor|exact HP]. }
  destruct (String.eqb arg "--timeout").
  { destruct rest as [|v rest']; [exact HP|]. apply (Hval _).
    apply (Hstep l); [constructor|exact HP]. }
  destruct (String.eqb arg "--delay").
  { destruct rest as [|v rest']; [exact HP|]. apply (Hval _).
    apply (Hstep l); [constructor|exact HP]. }
  destruct ((Whois.target_args l =? 0) || (Whois.target_args l =? 1)) eqn:T;
    [|right; right; reflexivity].
  apply IH; [lia|]. apply (Hstep l); [|exact HP]. constructor.
  apply orb_true_iff in T. rewrite !Z.eqb_eq in T. exact T.
Qed.

Lemma iam_parse_invariant (P : Iam.locals -> Prop) :
  (forall l l', iam_set l l' -> P l -> P l') ->
  forall n argv l,
    (List.length argv <= n)%nat ->
    P l ->
    match Iam.parse_args argv l with
    | Parsed l' => P l'
    | Exit code out => early_return (@Exit Iam.locals code out)
    end.
Proof.
  intros Hstep. induction n as [|n IH]; intros argv l Hlen HP;
    (destruct argv as [|arg rest]; [exact HP|]); [cbn in Hlen; lia|].
  cbn [List.length] in Hlen. cbn [Iam.parse_args].
  assert (Hval : forall l',
             P l' ->
             match match rest with
                   | [] => Parsed l
                   | _ :: rest' => Iam.parse_args rest' l'
                   end with
             | Parsed l' => P l'
             | Exit code out => early_return (@Exit Iam.locals code out)
             end).
  { intros l' HP'. destruct rest as [|v rest']; [exact HP|].
    apply IH; [cbn [List.length] in Hlen; lia|exact HP']. }
  destruct (String.eqb arg "--help"); [left; reflexivity|].
  destruct (String.eqb arg "--version"); [right; left; reflexivity|].
  destruct (String.eqb arg "--mac").
  { destruct rest as [|v rest']; [exact HP|]. apply (Hval _).
    destruct (bacnet_address_mac_from_ascii v); [|exact HP].
    apply (Hstep l); [constructor|exact HP]. }
  destruct (String.eqb arg "--dnet").
  { destruct rest as [|v rest']; [exact HP|]. apply (Hval _).
    apply (Hstep l); [constructor|exact HP]. }
  destruct (String.eqb arg "--dadr").
  { destruct rest as [|v rest']; [exact HP|]. apply (Hval _).
    destruct (bacnet_address_mac_from_ascii v); [|exact HP].
    apply (Hstep l); [constructor|exact HP]. }
  destruct (String.eqb arg "--repeat").
  { apply IH; [lia|]. apply (Hstep l); [constructor|exact HP]. }
  destruct (String.eqb arg "--retry").
  { destruct rest as [|v rest']; [exact HP|]. apply (Hval _).
    apply (Hstep l); [constructor|exact HP]. }
  destruct (String.eqb arg "--delay").
  { destruct rest as [|v rest']; [exact HP|]. apply (Hval _).
    apply (Hstep l); [constructor|exact HP]. }
  destruct ((Iam.target_args l =? 0) || (Iam.target_args l =? 1)
            || (Iam.target_args l =? 2) || (Iam.target_args l =? 3)) eqn:T;
    [|right; right; reflexivity].
  apply IH; [lia|]. apply (Hstep l); [|exact HP]. constructor.
  rewrite !orb_true_iff, !Z.eqb_eq in T. tauto.
Qed.

Lemma uint_range (n : Z) : 0 <= uint n < 2 ^ 32.
Proof. unfold uint, wrap_unsigned, UINT_BITS. apply Z.mod_pos_bound. lia. Qed.

Lemma wrap_unsigned_range (bits n : Z) :
  0 <= bits -> 0 <= wrap_unsigned bits n < 2 ^ bits.
Proof. intros H. unfold wrap_unsigned. apply Z.mod_pos_bound. lia. Qed.

Lemma wrap_signed_32_range (n : Z) : - 2 ^ 31 <= wrap_signed 32 n < 2 ^ 31.
Proof.
  unfold wrap_signed. change (32 - 1) with 31.
  pose proof (Z.mod_pos_bound (n + 2 ^ 31) (2 ^ 32) ltac:(lia)). lia.
Qed.

Lemma whois_set_ok (l l' : Whois.locals) :
  whois_set l l' -> whois_locals_ok l -> whois_locals_ok l'.
Proof.
  intros Hset Hok. unfold whois_locals_ok in *.
  destruct Hset as [m l|m l|n l|l|n l|n l|n l|n l H];
    try exact Hok.
  - cbn [Whois.set_retry_count Whois.retry_count Whois.target_args
         Whois.timeout_milliseconds Whois.delay_milliseconds
         Whois.Target_Object_Instance_Min Whois.Target_Object_Instance_Max].
    split; [|apply Hok]. destruct (n <? 0) eqn:E; [lia|].
    apply Z.ltb_ge in E. exact E.
  - cbn [Whois.set_timeout_milliseconds Whois.retry_count Whois.target_args
         Whois.timeout_milliseconds Whois.delay_milliseconds
         Whois.Target_Object_Instance_Min Whois.Target_Object_Instance_Max].
    pose proof (uint_range n). tauto.
  - cbn [Whois.set_delay_milliseconds Whois.retry_count Whois.target_args
         Whois.timeout_milliseconds Whois.delay_milliseconds
         Whois.Target_Object_Instance_Min Whois.Target_Object_Instance_Max].
    pose proof (uint_range n). tauto.
  - pose proof (wrap_signed_32_range n) as W.
    unfold Whois.set_target.
    destruct H as [H | H]; rewrite H;
      cbn [Z.eqb Whois.retry_count Whois.target_args
           Whois.timeout_milliseconds Whois.delay_milliseconds
           Whois.Target_Object_Instance_Min Whois.Target_Object_Instance_Max];
      [change (uint (0 + 1)) with 1|change (uint (1 + 1)) with 2];
      repeat split; try apply Hok; try apply W; lia.
Qed.

Lemma iam_set_ok (l l' : Iam.locals) :
  iam_set l l' -> iam_locals_ok l -> iam_locals_ok l'.
Proof.
  intros Hset Hok. unfold iam_locals_ok in *.
  destruct Hset as [m l|m l|n l|l|n l|n l|n l H];
    try exact Hok.
  - cbn [Iam.set_retry_count Iam.retry_count Iam.target_args Iam.timeout
         Iam.Target_Device_ID Iam.Target_Vendor_ID Iam.Target_Max_APDU
         Iam.Target_Segmentation].
    split; [|apply Hok]. destruct (n <? 0) eqn:E; [lia|].
    apply Z.ltb_ge in E. exact E.
  - cbn [Iam.set_timeout Iam.retry_count Iam.target_args Iam.timeout
         Iam.Target_Device_ID Iam.Target_Vendor_ID Iam.Target_Max_APDU
         Iam.Target_Segmentation].
    pose proof (uint_range n). tauto.
  - pose proof (wrap_signed_32_range n) as W.
    pose proof (uint_range n) as U.
    pose proof (wrap_unsigned_range 32 n ltac:(lia)) as U32.
    pose proof (wrap_unsigned_range 16 n ltac:(lia)) as U16.
    destruct Hok as [Hr [Ht [Hto [Hd [Hv [Ha Hs]]]]]].
    unfold Iam.set_target.
    destruct H as [H | [H | [H | H]]]; rewrite H in *;
      simpl (_ =? _); cbv iota;
      cbn [Iam.retry_count Iam.target_args Iam.timeout
           Iam.Target_Device_ID Iam.Target_Vendor_ID Iam.Target_Max_APDU
           Iam.Target_Segmentation];
      [change (uint (0 + 1)) with 1|change (uint (1 + 1)) with 2
       |change (uint (2 + 1)) with 3|change (uint (3 + 1)) with 4];
      (split; [exact Hr|]); (split; [lia|]); (split; [exact Hto|]).
    + split; [right; exact U32|]. repeat split; left; lia.
    + split; [destruct Hd; [lia|right; assumption]|].
      split; [right; exact U16|]. split; left; lia.
    + split; [destruct Hd; [lia|right; assumption]|].
      split; [destruct Hv; [lia|right; assumption]|].
      split; [right; exact U|left; lia].
    + split; [destruct Hd; [lia|right; assumption]|].
      split; [destruct Hv; [lia|right; assumption]|].
      split; [destruct Ha; [lia|right; assumption]|].
      right. exact W.
Qed.

End OptionLoops.

(** Property X14.  Either tool exits with code 0 or 1, and with code 1
    only before the datalink is set up and before anything is sent or
    received: the Who-Is tool after the usage text or, for a device
    instance above [BACNET_MAX_INSTANCE], after a message on [stderr]
    only; the I-Am tool after the usage text. *)
Theorem failure_means_no_traffic
        (ext : Externals) (argv : list string) (polls : list poll) :
  (forall code out log,
      Whois.main argv polls = Finished code out log ->
      code = 0 \/ (code = 1 /\ log = [] /\ (out = [UsageText] \/ out = [])))
  /\ (forall code out log,
         Iam.main argv polls = Finished code out log ->
         code = 0 \/ (code = 1 /\ log = [] /\ out = [UsageText])).
Proof.
  split; intros code out log H.
  - unfold Whois.main in H.
    pose proof (whois_parse_invariant (fun _ => True) (fun _ _ _ _ => I)
                  _ argv Whois.initial (Nat.le_refl _) I) as Hp.
    destruct (Whois.parse_args argv Whois.initial) as [c o|l].
    + injection H as <- <- <-.
      destruct Hp as [Hp | [Hp | Hp]]; injection Hp as -> ->; auto.
    + destruct (Whois.Target_Object_Instance_Min l >? BACNET_MAX_INSTANCE);
        [injection H as <- <- <-; auto|].
      destruct (Whois.Target_Object_Instance_Max l >? BACNET_MAX_INSTANCE);
        [injection H as <- <- <-; auto|].
      destruct (Whois.session l polls); [|discriminate].
      injection H as <- _ _. left. reflexivity.
  - unfold Iam.main in H.
    pose proof (iam_parse_invariant (fun _ => True) (fun _ _ _ _ => I)
                  _ argv Iam.initial (Nat.le_refl _) I) as Hp.
    destruct (Iam.parse_args argv Iam.initial) as [c o|l].
    + injection H as <- <- <-.
      destruct Hp as [Hp | [Hp | Hp]]; injection Hp as -> ->; auto.
    + destruct (Iam.session l polls); [|discriminate].
      injection H as <- _ _. left. reflexivity.
Qed.

Lemma failure_means_no_traffic_witness :
  (Whois.main (ext := Demo.externals) ["5000000"] [Demo.silence true]
   = Finished 1 [] []
   /\ (1 = 0 \/ (1 = 1 /\ @nil io_event = []
                 /\ (@nil out_line = [UsageText] \/ @nil out_line = []))))
  /\ (Iam.main (ext := Demo.externals) ["1"; "2"; "3"; "0"; "9"] [Demo.silence true]
      = Finished 1 [UsageText] []
      /\ (1 = 0 \/ (1 = 1 /\ @nil io_event = [] /\ [UsageText] = [UsageText]))).
Proof.
  split.
  - split; [reflexivity|].
    exact (proj1 (failure_means_no_traffic Demo.externals ["5000000"]
                    [Demo.silence true]) 1 [] [] eq_refl).
  - split; [reflexivity|].
    exact (proj2 (failure_means_no_traffic Demo.externals
                    ["1"; "2"; "3"; "0"; "9"] [Demo.silence true])
                 1 [UsageText] [] eq_refl).
Defined.

(** Property X16.  Whatever the command line, the values that the option
    loops leave fit the C types of their variables and the loops that
    follow: [retry_count] is not negative, the times are [unsigned], the
    targets of the Who-Is tool are [int32_t], and each positional argument
    of the I-Am tool that was given is in the range of its type. *)
Theorem parsed_options_fit (ext : Externals) (argv : list string) :
  (forall l, Whois.parse_args argv Whois.initial = Parsed l -> whois_locals_ok l)
  /\ (forall l, Iam.parse_args argv Iam.initial = Parsed l -> iam_locals_ok l).
Proof.
  split; intros l H.
  - assert (H0 : whois_locals_ok Whois.initial)
      by (unfold whois_locals_ok; cbn; lia).
    pose proof (whois_parse_invariant whois_locals_ok whois_set_ok
                  _ argv Whois.initial (Nat.le_refl _) H0) as Hp.
    rewrite H in Hp. exact Hp.
  - assert (H0 : iam_locals_ok Iam.initial).
    { unfold iam_locals_ok. cbn [Iam.initial Iam.retry_count Iam.target_args
                                 Iam.timeout].
      repeat split; try lia; left; lia. }
    pose proof (iam_parse_invariant iam_locals_ok iam_set_ok
                  _ argv Iam.initial (Nat.le_refl _) H0) as Hp.
    rewrite H in Hp. exact Hp.
Qed.

Lemma parsed_options_fit_witness :
  (exists l,
      Whois.parse_args (ext := Demo.externals)
                       ["--retry"; "-4"; "--delay"; "-1"; "7"]
                       (Whois.initial (ext := Demo.externals)) = Parsed l
      /\ Whois.retry_count l = 0
      /\ Whois.delay_milliseconds l = 4294967295
      /\ whois_locals_ok l)
  /\ (exists l,
         Iam.parse_args (ext := Demo.externals) ["7"; "70000"]
                        (Iam.initial (ext := Demo.externals)) = Parsed l
         /\ Iam.Target_Vendor_ID l = 4464
         /\ iam_locals_ok l).
Proof.
  split.
  - eexists. split; [reflexivity|]. split; [reflexivity|]. split; [reflexivity|].
    exact (proj1 (parsed_options_fit Demo.externals
                    ["--retry"; "-4"; "--delay"; "-1"; "7"]) _ eq_refl).
  - eexists. split; [reflexivity|]. split; [reflexivity|].
    exact (proj2 (parsed_options_fit Demo.externals ["7"; "70000"]) _ eq_refl).
Defined.

(** ** The addressing options, in any order *)

Section HintOrder.
Context {ext : Externals}.

Lemma supplied_in (k : hint_option) (v : string) (hs : hints) :
  NoDup (map fst hs) -> (supplied k hs = Some v <-> In (k, v) hs).
Proof.
  induction hs as [|[k' v'] hs IH]; intros Hnd.
  - split; [discriminate|intros []].
  - cbn [map fst] in Hnd. inversion Hnd as [|? ? Hk Hnd']; subst.
    cbn [supplied]. destruct (hint_option_eqb k k') eqn:E.
    + apply hint_option_eqb_eq in E. subst k'. split.
      * intros H. injection H as <-. left. reflexivity.
      * intros [H | H]; [injection H as <-; reflexivity|].
        exfalso. apply Hk. apply in_map_iff. exists (k, v). auto.
    + rewrite (IH Hnd'). split; [intros H; right; exact H|].
      intros [H | H]; [|exact H]. injection H as H1 H2. subst.
      match type of E with
      | hint_option_eqb ?x _ = _ => destruct x; discriminate E
      end.
Qed.

Lemma supplied_permutation (k : hint_option) (hs hs' : hints) :
  NoDup (map fst hs) -> Permutation hs hs' ->
  supplied k hs = supplied k hs'.
Proof.
  intros Hnd Hperm.
  assert (Hnd' : NoDup (map fst hs'))
    by (apply (Permutation_NoDup (Permutation_map fst Hperm)); exact Hnd).
  destruct (supplied k hs) as [v|] eqn:E.
  - symmetry. apply (supplied_in k v hs' Hnd').
    apply (Permutation_in _ Hperm). apply (supplied_in k v hs Hnd). exact E.
  - destruct (supplied k hs') as [v|] eqn:E'; [|reflexivity].
    apply (supplied_in k v hs' Hnd') in E'.
    apply (Permutation_in _ (Permutation_sym Hperm)) in E'.
    apply (supplied_in k v hs Hnd) in E'. congruence.
Qed.

Lemma resolved_addressing_permutation (a : addressing) (hs hs' : hints) :
  NoDup (map fst hs) -> Permutation hs hs' ->
  resolved_addressing a hs = resolved_addressing a hs'.
Proof.
  intros Hnd Hperm. unfold resolved_addressing, parsed_mac.
  rewrite !(supplied_permutation _ hs hs' Hnd Hperm). reflexivity.
Qed.

Lemma iam_destination_hints (hs : hints) :
  NoDup (map fst hs) ->
  iam_destination (hint_args hs)
  = Some (iam_target (resolved_addressing (iam_addressing Iam.initial) hs)).
Proof.
  intros Hnd. destruct (iam_hints_parsed hs Hnd) as [l [Hp Ha]].
  unfold iam_destination. rewrite Hp, iam_destination_target, Ha.
  reflexivity.
Qed.

End HintOrder.

(** Property X15.  The order in which [--mac], [--dnet] and [--dadr] are
    written, each once at most, makes no difference to the destination of
    either tool. *)
Theorem hint_order_is_irrelevant (ext : Externals) (hs hs' : hints) :
  NoDup (map fst hs) ->
  Permutation hs hs' ->
  whois_destination (hint_args hs) = whois_destination (hint_args hs')
  /\ iam_destination (hint_args hs) = iam_destination (hint_args hs').
Proof.
  intros Hnd Hperm.
  assert (Hnd' : NoDup (map fst hs'))
    by (apply (Permutation_NoDup (Permutation_map fst Hperm)); exact Hnd).
  rewrite !whois_destination_hints, !iam_destination_hints by assumption.
  rewrite !(resolved_addressing_permutation _ hs hs' Hnd Hperm).
  split; reflexivity.
Qed.

Lemma hint_order_is_irrelevant_witness :
  let hs := [(OptMac, "0A"); (OptDnet, "123"); (OptDadr, "05")] in
  let hs' := [(OptDadr, "05"); (OptMac, "0A"); (OptDnet, "123")] in
  NoDup (map fst hs)
  /\ Permutation hs hs'
  /\ whois_destination (ext := Demo.externals)
                       ["--mac"; "0A"; "--dnet"; "123"; "--dadr"; "05"]
     = whois_destination (ext := Demo.externals)
                         ["--dadr"; "05"; "--mac"; "0A"; "--dnet"; "123"].
Proof.
  cbv zeta.
  assert (Hnd : NoDup (map fst [(OptMac, "0A"); (OptDnet, "123"); (OptDadr, "05")])).
  { constructor; [intros [H|[H|[]]]; discriminate H|].
    constructor; [intros [H|[]]; discriminate H|].
    constructor; [intros []|constructor]. }
  assert (Hp : Permutation [(OptMac, "0A"); (OptDnet, "123"); (OptDadr, "05")]
                           [(OptDadr, "05"); (OptMac, "0A"); (OptDnet, "123")]).
  { apply Permutation_sym.
    apply (Permutation_cons_app [(OptMac, "0A"); (OptDnet, "123")] []).
    rewrite app_nil_r. apply Permutation_refl. }
  split; [exact Hnd|]. split; [exact Hp|].
  exact (proj1 (hint_order_is_irrelevant Demo.externals _ _ Hnd Hp)).
Defined.

(** Property X17.  The two tools build the same destination from the same
    addressing options as soon as one of them is usable (a MAC that the
    parser accepts or a network number in range).  When none is usable the
    Who-Is tool takes the broadcast address of the datalink and the I-Am
    tool leaves the destination zeroed. *)
Theorem tools_share_destination (ext : Externals) (hs : hints) :
  NoDup (map fst hs) ->
  let usable :=
      is_some (parsed_mac OptMac hs)
      || match supplied OptDnet hs with
         | Some v => dnet_valid (strtol v)
         | None => false
         end
      || is_some (parsed_mac OptDadr hs) in
  (usable = true ->
   whois_destination (hint_args hs) = iam_destination (hint_args hs))
  /\ (usable = false ->
      whois_destination (hint_args hs)
      = Some (datalink_get_broadcast_address zero_address)
      /\ iam_destination (hint_args hs) = Some zero_address).
Proof.
  intros Hnd usable.
  rewrite whois_destination_hints, iam_destination_hints by exact Hnd.
  unfold whois_target, iam_target, resolved_addressing.
  cbn [specific hop remote network whois_addressing iam_addressing
       Whois.initial Iam.initial Whois.global_broadcast Whois.mac Whois.adr
       Whois.dnet Iam.specific_address Iam.mac Iam.adr Iam.dnet negb orb].
  fold usable. split; intros ->; [reflexivity|split; reflexivity].
Qed.

Lemma tools_share_destination_witness :
  let hs := [(OptDnet, "123"); (OptMac, "0A")] in
  NoDup (map fst hs)
  /\ (is_some (parsed_mac (ext := Demo.externals) OptMac hs)
      || match supplied OptDnet hs with
         | Some v => dnet_valid (Demo.strtol_decimal v)
         | None => false
         end
      || is_some (parsed_mac (ext := Demo.externals) OptDadr hs)) = true
  /\ whois_destination (ext := Demo.externals) ["--dnet"; "123"; "--mac"; "0A"]
     = iam_destination (ext := Demo.externals) ["--dnet"; "123"; "--mac"; "0A"].
Proof.
  cbv zeta.
  assert (Hnd : NoDup (map fst [(OptDnet, "123"); (OptMac, "0A")])).
  { constructor; [intros [H|[]]; discriminate H|].
    constructor; [intros []|constructor]. }
  split; [exact Hnd|]. split; [reflexivity|].
  exact (proj1 (tools_share_destination Demo.externals
                  [(OptDnet, "123"); (OptMac, "0A")] Hnd) eq_refl).
Defined.

(** Property X18.  [print_macaddr] fills a column of fixed width for every
    address of one octet or more that fits the array: 3 * [MAX_MAC_LEN] - 1
    characters.  For an address of length 0 it writes blanks only, one
    character more. *)
Theorem mac_column_width (ext : Externals) (addr : list Z) (len : Z) :
  (Z.to_nat len <= MAX_MAC_LEN)%nat ->
  (Z.to_nat len <= List.length addr)%nat ->
  mac_text_width (print_macaddr addr len)
  = if len <=? 0 then (3 * MAX_MAC_LEN)%nat else (3 * MAX_MAC_LEN - 1)%nat.
Proof.
  intros Hmax Hlen. unfold mac_text_width, print_macaddr. cbn [octets blanks].
  rewrite length_firstn, (Nat.min_l _ _ Hlen).
  generalize dependent MAX_MAC_LEN. intros size Hmax.
  destruct (Z.leb_spec len 0) as [H | H].
  - replace (Z.to_nat len) with 0%nat by lia.
    change (Nat.pred 0) with 0%nat. lia.
  - destruct (Z.to_nat len) as [|m] eqn:M; [lia|].
    change (Nat.pred (S m)) with m. lia.
Qed.

Lemma mac_column_width_witness :
  (Z.to_nat 6 <= MAX_MAC_LEN (Externals := Demo.externals))%nat
  /\ (Z.to_nat 6 <= List.length [192; 168; 0; 7; 186; 192; 0])%nat
  /\ mac_text_width (print_macaddr (ext := Demo.externals)
                                   [192; 168; 0; 7; 186; 192; 0] 6)
     = 20%nat.
Proof.
  assert (H1 : (Z.to_nat 6 <= MAX_MAC_LEN (Externals := Demo.externals))%nat)
    by (cbv; lia).
  assert (H2 : (Z.to_nat 6 <= List.length [192; 168; 0; 7; 186; 192; 0])%nat)
    by (cbv; lia).
  split; [exact H1|]. split; [exact H2|].
  exact (mac_column_width Demo.externals [192; 168; 0; 7; 186; 192; 0] 6 H1 H2).
Defined.
